(** * DrivePilot: the driving-session detection engine

    A shallow embedding of the four core components of
    [src/core/drive-sentry]:

    - [CarBluetoothMatcher] (detectors/CarBluetoothMatcher.ts),
    - [DrivingDetector]     (detectors/DrivingDetector.ts),
    - [SessionManager]      (session/SessionManager.ts),
    - [DriveSentry]         (DriveSentry.ts, the orchestrator),

    together with the data types of [types.ts] they share.

    Conventions of the embedding.

    - A JavaScript [number] that holds a clock reading ([Date.now()],
      [LocationData.timestamp], a [Date]) is an integer number of
      milliseconds: [Z].  Measured or configured quantities (speed,
      latitude, thresholds) and quotients of them are exact rationals:
      [Q].  The two statistics that go through [Math.sin], [Math.cos],
      [Math.sqrt] and [Math.atan2] are real numbers, [R]: in the session
      manager they are computed in exact arithmetic.  What the same
      operations give on IEEE doubles, rounding and [NaN] included, is
      transcribed apart, in [Doubles].
    - The name of a device is a sequence of UTF-16 code units; the [i]
      flag of a pattern and [toLowerCase] follow the case mappings of
      Unicode.
    - [T | null] is [option T]; a thrown [Error] is [Err msg] with the
      message of the source.
    - The clock and the random source are inputs of the operations that
      read them.
    - An [async] method that is not awaited runs up to its first [await]
      within the call; the rest of it runs when the caller has returned.
    - A class instance is a record; a method is a function from the
      record to its successor (and a result).  [DriveSession] objects are
      mutated in place and handed out by reference, so the session manager
      carries an object store and [currentSession] is an address in it. *)

From Stdlib Require Import ZArith QArith Qminmax Reals Qreals Lra Lia Ascii.
From Stdlib Require Floats.
From stdpp Require Import base option list gmap strings pretty.

Local Open Scope Z_scope.

(** ** Results of fallible methods *)

Inductive Result (A : Type) : Type :=
| Ok (a : A)
| Err (message : string).
Arguments Ok {A} a.
Arguments Err {A} message.

Definition isOk {A} (r : Result A) : bool :=
  match r with Ok _ => true | Err _ => false end.

(** Comparisons of rational [number]s. *)
Definition Qgeb (a b : Q) : bool := Qle_bool b a.   (* a >= b *)
Definition Qgtb (a b : Q) : bool := negb (Qle_bool a b).   (* a > b *)

(** ** Strings

    A string of the program is a sequence of UTF-16 code units, numbers
    below 65536.  The names of devices, which the patterns are matched
    against, are such sequences.  Identifiers, session ids and error
    messages, which are only stored and compared, are kept as [string]. *)
Definition JSString := list N.

(** The string that a literal of ASCII characters stands for. *)
Definition utf16 (literal : string) : JSString :=
  N_of_ascii <$> String.list_ascii_of_string literal.

(** The case mappings of the Unicode character database (version 14.0)
    that take one code point to one other.  An entry
    [(first, last, step, image)] maps the code points [first],
    [first + step], ..., [last] to [image], [image + step], ... *)
Module Unicode.

(** The code units below 65536 whose upper-case form is one other code
    unit (below 65536 as well). *)
Definition uppercase : list (N * N * N * N) :=
  [ (0x61, 0x7A, 1, 0x41); (0xB5, 0xB5, 1, 0x39C); (0xE0, 0xF6, 1, 0xC0);
    (0xF8, 0xFE, 1, 0xD8); (0xFF, 0xFF, 1, 0x178); (0x101, 0x12F, 2, 0x100);
    (0x131, 0x131, 1, 0x49); (0x133, 0x137, 2, 0x132);
    (0x13A, 0x148, 2, 0x139); (0x14B, 0x177, 2, 0x14A);
    (0x17A, 0x17E, 2, 0x179); (0x17F, 0x17F, 1, 0x53);
    (0x180, 0x180, 1, 0x243); (0x183, 0x185, 2, 0x182);
    (0x188, 0x188, 1, 0x187); (0x18C, 0x18C, 1, 0x18B);
    (0x192, 0x192, 1, 0x191); (0x195, 0x195, 1, 0x1F6);
    (0x199, 0x199, 1, 0x198); (0x19A, 0x19A, 1, 0x23D);
    (0x19E, 0x19E, 1, 0x220); (0x1A1, 0x1A5, 2, 0x1A0);
    (0x1A8, 0x1A8, 1, 0x1A7); (0x1AD, 0x1AD, 1, 0x1AC);
    (0x1B0, 0x1B0, 1, 0x1AF); (0x1B4, 0x1B6, 2, 0x1B3);
    (0x1B9, 0x1B9, 1, 0x1B8); (0x1BD, 0x1BD, 1, 0x1BC);
    (0x1BF, 0x1BF, 1, 0x1F7); (0x1C5, 0x1C5, 1, 0x1C4);
    (0x1C6, 0x1C6, 1, 0x1C4); (0x1C8, 0x1C8, 1, 0x1C7);
    (0x1C9, 0x1C9, 1, 0x1C7); (0x1CB, 0x1CB, 1, 0x1CA);
    (0x1CC, 0x1CC, 1, 0x1CA); (0x1CE, 0x1DC, 2, 0x1CD);
    (0x1DD, 0x1DD, 1, 0x18E); (0x1DF, 0x1EF, 2, 0x1DE);
    (0x1F2, 0x1F2, 1, 0x1F1); (0x1F3, 0x1F3, 1, 0x1F1);
    (0x1F5, 0x1F5, 1, 0x1F4); (0x1F9, 0x21F, 2, 0x1F8);
    (0x223, 0x233, 2, 0x222); (0x23C, 0x23C, 1, 0x23B);
    (0x23F, 0x240, 1, 0x2C7E); (0x242, 0x242, 1, 0x241);
    (0x247, 0x24F, 2, 0x246); (0x250, 0x250, 1, 0x2C6F);
    (0x251, 0x251, 1, 0x2C6D); (0x252, 0x252, 1, 0x2C70);
    (0x253, 0x253, 1, 0x181); (0x254, 0x254, 1, 0x186);
    (0x256, 0x257, 1, 0x189); (0x259, 0x259, 1, 0x18F);
    (0x25B, 0x25B, 1, 0x190); (0x25C, 0x25C, 1, 0xA7AB);
    (0x260, 0x260, 1, 0x193); (0x261, 0x261, 1, 0xA7AC);
    (0x263, 0x263, 1, 0x194); (0x265, 0x265, 1, 0xA78D);
    (0x266, 0x266, 1, 0xA7AA); (0x268, 0x268, 1, 0x197);
    (0x269, 0x269, 1, 0x196); (0x26A, 0x26A, 1, 0xA7AE);
    (0x26B, 0x26B, 1, 0x2C62); (0x26C, 0x26C, 1, 0xA7AD);
    (0x26F, 0x26F, 1, 0x19C); (0x271, 0x271, 1, 0x2C6E);
    (0x272, 0x272, 1, 0x19D); (0x275, 0x275, 1, 0x19F);
    (0x27D, 0x27D, 1, 0x2C64); (0x280, 0x280, 1, 0x1A6);
    (0x282, 0x282, 1, 0xA7C5); (0x283, 0x283, 1, 0x1A9);
    (0x287, 0x287, 1, 0xA7B1); (0x288, 0x288, 1, 0x1AE);
    (0x289, 0x289, 1, 0x244); (0x28A, 0x28B, 1, 0x1B1);
    (0x28C, 0x28C, 1, 0x245); (0x292, 0x292, 1, 0x1B7);
    (0x29D, 0x29D, 1, 0xA7B2); (0x29E, 0x29E, 1, 0xA7B0);
    (0x345, 0x345, 1, 0x399); (0x371, 0x373, 2, 0x370);
    (0x377, 0x377, 1, 0x376); (0x37B, 0x37D, 1, 0x3FD);
    (0x3AC, 0x3AC, 1, 0x386); (0x3AD, 0x3AF, 1, 0x388);
    (0x3B1, 0x3C1, 1, 0x391); (0x3C2, 0x3C2, 1, 0x3A3);
    (0x3C3, 0x3CB, 1, 0x3A3); (0x3CC, 0x3CC, 1, 0x38C);
    (0x3CD, 0x3CE, 1, 0x38E); (0x3D0, 0x3D0, 1, 0x392);
    (0x3D1, 0x3D1, 1, 0x398); (0x3D5, 0x3D5, 1, 0x3A6);
    (0x3D6, 0x3D6, 1, 0x3A0); (0x3D7, 0x3D7, 1, 0x3CF);
    (0x3D9, 0x3EF, 2, 0x3D8); (0x3F0, 0x3F0, 1, 0x39A);
    (0x3F1, 0x3F1, 1, 0x3A1); (0x3F2, 0x3F2, 1, 0x3F9);
    (0x3F3, 0x3F3, 1, 0x37F); (0x3F5, 0x3F5, 1, 0x395);
    (0x3F8, 0x3F8, 1, 0x3F7); (0x3FB, 0x3FB, 1, 0x3FA);
    (0x430, 0x44F, 1, 0x410); (0x450, 0x45F, 1, 0x400);
    (0x461, 0x481, 2, 0x460); (0x48B, 0x4BF, 2, 0x48A);
    (0x4C2, 0x4CE, 2, 0x4C1); (0x4CF, 0x4CF, 1, 0x4C0);
    (0x4D1, 0x52F, 2, 0x4D0); (0x561, 0x586, 1, 0x531);
    (0x10D0, 0x10FA, 1, 0x1C90); (0x10FD, 0x10FF, 1, 0x1CBD);
    (0x13F8, 0x13FD, 1, 0x13F0); (0x1C80, 0x1C80, 1, 0x412);
    (0x1C81, 0x1C81, 1, 0x414); (0x1C82, 0x1C82, 1, 0x41E);
    (0x1C83, 0x1C84, 1, 0x421); (0x1C85, 0x1C85, 1, 0x422);
    (0x1C86, 0x1C86, 1, 0x42A); (0x1C87, 0x1C87, 1, 0x462);
    (0x1C88, 0x1C88, 1, 0xA64A); (0x1D79, 0x1D79, 1, 0xA77D);
    (0x1D7D, 0x1D7D, 1, 0x2C63); (0x1D8E, 0x1D8E, 1, 0xA7C6);
    (0x1E01, 0x1E95, 2, 0x1E00); (0x1E9B, 0x1E9B, 1, 0x1E60);
    (0x1EA1, 0x1EFF, 2, 0x1EA0); (0x1F00, 0x1F07, 1, 0x1F08);
    (0x1F10, 0x1F15, 1, 0x1F18); (0x1F20, 0x1F27, 1, 0x1F28);
    (0x1F30, 0x1F37, 1, 0x1F38); (0x1F40, 0x1F45, 1, 0x1F48);
    (0x1F51, 0x1F57, 2, 0x1F59); (0x1F60, 0x1F67, 1, 0x1F68);
    (0x1F70, 0x1F71, 1, 0x1FBA); (0x1F72, 0x1F75, 1, 0x1FC8);
    (0x1F76, 0x1F77, 1, 0x1FDA); (0x1F78, 0x1F79, 1, 0x1FF8);
    (0x1F7A, 0x1F7B, 1, 0x1FEA); (0x1F7C, 0x1F7D, 1, 0x1FFA);
    (0x1FB0, 0x1FB1, 1, 0x1FB8); (0x1FBE, 0x1FBE, 1, 0x399);
    (0x1FD0, 0x1FD1, 1, 0x1FD8); (0x1FE0, 0x1FE1, 1, 0x1FE8);
    (0x1FE5, 0x1FE5, 1, 0x1FEC); (0x214E, 0x214E, 1, 0x2132);
    (0x2170, 0x217F, 1, 0x2160); (0x2184, 0x2184, 1, 0x2183);
    (0x24D0, 0x24E9, 1, 0x24B6); (0x2C30, 0x2C5F, 1, 0x2C00);
    (0x2C61, 0x2C61, 1, 0x2C60); (0x2C65, 0x2C65, 1, 0x23A);
    (0x2C66, 0x2C66, 1, 0x23E); (0x2C68, 0x2C6C, 2, 0x2C67);
    (0x2C73, 0x2C73, 1, 0x2C72); (0x2C76, 0x2C76, 1, 0x2C75);
    (0x2C81, 0x2CE3, 2, 0x2C80); (0x2CEC, 0x2CEE, 2, 0x2CEB);
    (0x2CF3, 0x2CF3, 1, 0x2CF2); (0x2D00, 0x2D25, 1, 0x10A0);
    (0x2D27, 0x2D27, 1, 0x10C7); (0x2D2D, 0x2D2D, 1, 0x10CD);
    (0xA641, 0xA66D, 2, 0xA640); (0xA681, 0xA69B, 2, 0xA680);
    (0xA723, 0xA72F, 2, 0xA722); (0xA733, 0xA76F, 2, 0xA732);
    (0xA77A, 0xA77C, 2, 0xA779); (0xA77F, 0xA787, 2, 0xA77E);
    (0xA78C, 0xA78C, 1, 0xA78B); (0xA791, 0xA793, 2, 0xA790);
    (0xA794, 0xA794, 1, 0xA7C4); (0xA797, 0xA7A9, 2, 0xA796);
    (0xA7B5, 0xA7C3, 2, 0xA7B4); (0xA7C8, 0xA7CA, 2, 0xA7C7);
    (0xA7D1, 0xA7D1, 1, 0xA7D0); (0xA7D7, 0xA7D9, 2, 0xA7D6);
    (0xA7F6, 0xA7F6, 1, 0xA7F5); (0xAB53, 0xAB53, 1, 0xA7B3);
    (0xAB70, 0xABBF, 1, 0x13A0); (0xFF41, 0xFF5A, 1, 0xFF21) ]%N.

(** The code points below 65536 whose lower-case form is one other code
    point; U+0130, whose lower-case form has two, is not among them. *)
Definition lowercase : list (N * N * N * N) :=
  [ (0x41, 0x5A, 1, 0x61); (0xC0, 0xD6, 1, 0xE0); (0xD8, 0xDE, 1, 0xF8);
    (0x100, 0x12E, 2, 0x101); (0x132, 0x136, 2, 0x133);
    (0x139, 0x147, 2, 0x13A); (0x14A, 0x176, 2, 0x14B);
    (0x178, 0x178, 1, 0xFF); (0x179, 0x17D, 2, 0x17A);
    (0x181, 0x181, 1, 0x253); (0x182, 0x184, 2, 0x183);
    (0x186, 0x186, 1, 0x254); (0x187, 0x187, 1, 0x188);
    (0x189, 0x18A, 1, 0x256); (0x18B, 0x18B, 1, 0x18C);
    (0x18E, 0x18E, 1, 0x1DD); (0x18F, 0x18F, 1, 0x259);
    (0x190, 0x190, 1, 0x25B); (0x191, 0x191, 1, 0x192);
    (0x193, 0x193, 1, 0x260); (0x194, 0x194, 1, 0x263);
    (0x196, 0x196, 1, 0x269); (0x197, 0x197, 1, 0x268);
    (0x198, 0x198, 1, 0x199); (0x19C, 0x19C, 1, 0x26F);
    (0x19D, 0x19D, 1, 0x272); (0x19F, 0x19F, 1, 0x275);
    (0x1A0, 0x1A4, 2, 0x1A1); (0x1A6, 0x1A6, 1, 0x280);
    (0x1A7, 0x1A7, 1, 0x1A8); (0x1A9, 0x1A9, 1, 0x283);
    (0x1AC, 0x1AC, 1, 0x1AD); (0x1AE, 0x1AE, 1, 0x288);
    (0x1AF, 0x1AF, 1, 0x1B0); (0x1B1, 0x1B2, 1, 0x28A);
    (0x1B3, 0x1B5, 2, 0x1B4); (0x1B7, 0x1B7, 1, 0x292);
    (0x1B8, 0x1B8, 1, 0x1B9); (0x1BC, 0x1BC, 1, 0x1BD);
    (0x1C4, 0x1C4, 1, 0x1C6); (0x1C5, 0x1C5, 1, 0x1C6);
    (0x1C7, 0x1C7, 1, 0x1C9); (0x1C8, 0x1C8, 1, 0x1C9);
    (0x1CA, 0x1CA, 1, 0x1CC); (0x1CB, 0x1DB, 2, 0x1CC);
    (0x1DE, 0x1EE, 2, 0x1DF); (0x1F1, 0x1F1, 1, 0x1F3);
    (0x1F2, 0x1F4, 2, 0x1F3); (0x1F6, 0x1F6, 1, 0x195);
    (0x1F7, 0x1F7, 1, 0x1BF); (0x1F8, 0x21E, 2, 0x1F9);
    (0x220, 0x220, 1, 0x19E); (0x222, 0x232, 2, 0x223);
    (0x23A, 0x23A, 1, 0x2C65); (0x23B, 0x23B, 1, 0x23C);
    (0x23D, 0x23D, 1, 0x19A); (0x23E, 0x23E, 1, 0x2C66);
    (0x241, 0x241, 1, 0x242); (0x243, 0x243, 1, 0x180);
    (0x244, 0x244, 1, 0x289); (0x245, 0x245, 1, 0x28C);
    (0x246, 0x24E, 2, 0x247); (0x370, 0x372, 2, 0x371);
    (0x376, 0x376, 1, 0x377); (0x37F, 0x37F, 1, 0x3F3);
    (0x386, 0x386, 1, 0x3AC); (0x388, 0x38A, 1, 0x3AD);
    (0x38C, 0x38C, 1, 0x3CC); (0x38E, 0x38F, 1, 0x3CD);
    (0x391, 0x3A1, 1, 0x3B1); (0x3A3, 0x3AB, 1, 0x3C3);
    (0x3CF, 0x3CF, 1, 0x3D7); (0x3D8, 0x3EE, 2, 0x3D9);
    (0x3F4, 0x3F4, 1, 0x3B8); (0x3F7, 0x3F7, 1, 0x3F8);
    (0x3F9, 0x3F9, 1, 0x3F2); (0x3FA, 0x3FA, 1, 0x3FB);
    (0x3FD, 0x3FF, 1, 0x37B); (0x400, 0x40F, 1, 0x450);
    (0x410, 0x42F, 1, 0x430); (0x460, 0x480, 2, 0x461);
    (0x48A, 0x4BE, 2, 0x48B); (0x4C0, 0x4C0, 1, 0x4CF);
    (0x4C1, 0x4CD, 2, 0x4C2); (0x4D0, 0x52E, 2, 0x4D1);
    (0x531, 0x556, 1, 0x561); (0x10A0, 0x10C5, 1, 0x2D00);
    (0x10C7, 0x10C7, 1, 0x2D27); (0x10CD, 0x10CD, 1, 0x2D2D);
    (0x13A0, 0x13EF, 1, 0xAB70); (0x13F0, 0x13F5, 1, 0x13F8);
    (0x1C90, 0x1CBA, 1, 0x10D0); (0x1CBD, 0x1CBF, 1, 0x10FD);
    (0x1E00, 0x1E94, 2, 0x1E01); (0x1E9E, 0x1E9E, 1, 0xDF);
    (0x1EA0, 0x1EFE, 2, 0x1EA1); (0x1F08, 0x1F0F, 1, 0x1F00);
    (0x1F18, 0x1F1D, 1, 0x1F10); (0x1F28, 0x1F2F, 1, 0x1F20);
    (0x1F38, 0x1F3F, 1, 0x1F30); (0x1F48, 0x1F4D, 1, 0x1F40);
    (0x1F59, 0x1F5F, 2, 0x1F51); (0x1F68, 0x1F6F, 1, 0x1F60);
    (0x1F88, 0x1F8F, 1, 0x1F80); (0x1F98, 0x1F9F, 1, 0x1F90);
    (0x1FA8, 0x1FAF, 1, 0x1FA0); (0x1FB8, 0x1FB9, 1, 0x1FB0);
    (0x1FBA, 0x1FBB, 1, 0x1F70); (0x1FBC, 0x1FBC, 1, 0x1FB3);
    (0x1FC8, 0x1FCB, 1, 0x1F72); (0x1FCC, 0x1FCC, 1, 0x1FC3);
    (0x1FD8, 0x1FD9, 1, 0x1FD0); (0x1FDA, 0x1FDB, 1, 0x1F76);
    (0x1FE8, 0x1FE9, 1, 0x1FE0); (0x1FEA, 0x1FEB, 1, 0x1F7A);
    (0x1FEC, 0x1FEC, 1, 0x1FE5); (0x1FF8, 0x1FF9, 1, 0x1F78);
    (0x1FFA, 0x1FFB, 1, 0x1F7C); (0x1FFC, 0x1FFC, 1, 0x1FF3);
    (0x2126, 0x2126, 1, 0x3C9); (0x212A, 0x212A, 1, 0x6B);
    (0x212B, 0x212B, 1, 0xE5); (0x2132, 0x2132, 1, 0x214E);
    (0x2160, 0x216F, 1, 0x2170); (0x2183, 0x2183, 1, 0x2184);
    (0x24B6, 0x24CF, 1, 0x24D0); (0x2C00, 0x2C2F, 1, 0x2C30);
    (0x2C60, 0x2C60, 1, 0x2C61); (0x2C62, 0x2C62, 1, 0x26B);
    (0x2C63, 0x2C63, 1, 0x1D7D); (0x2C64, 0x2C64, 1, 0x27D);
    (0x2C67, 0x2C6B, 2, 0x2C68); (0x2C6D, 0x2C6D, 1, 0x251);
    (0x2C6E, 0x2C6E, 1, 0x271); (0x2C6F, 0x2C6F, 1, 0x250);
    (0x2C70, 0x2C70, 1, 0x252); (0x2C72, 0x2C72, 1, 0x2C73);
    (0x2C75, 0x2C75, 1, 0x2C76); (0x2C7E, 0x2C7F, 1, 0x23F);
    (0x2C80, 0x2CE2, 2, 0x2C81); (0x2CEB, 0x2CED, 2, 0x2CEC);
    (0x2CF2, 0x2CF2, 1, 0x2CF3); (0xA640, 0xA66C, 2, 0xA641);
    (0xA680, 0xA69A, 2, 0xA681); (0xA722, 0xA72E, 2, 0xA723);
    (0xA732, 0xA76E, 2, 0xA733); (0xA779, 0xA77B, 2, 0xA77A);
    (0xA77D, 0xA77D, 1, 0x1D79); (0xA77E, 0xA786, 2, 0xA77F);
    (0xA78B, 0xA78B, 1, 0xA78C); (0xA78D, 0xA78D, 1, 0x265);
    (0xA790, 0xA792, 2, 0xA791); (0xA796, 0xA7A8, 2, 0xA797);
    (0xA7AA, 0xA7AA, 1, 0x266); (0xA7AB, 0xA7AB, 1, 0x25C);
    (0xA7AC, 0xA7AC, 1, 0x261); (0xA7AD, 0xA7AD, 1, 0x26C);
    (0xA7AE, 0xA7AE, 1, 0x26A); (0xA7B0, 0xA7B0, 1, 0x29E);
    (0xA7B1, 0xA7B1, 1, 0x287); (0xA7B2, 0xA7B2, 1, 0x29D);
    (0xA7B3, 0xA7B3, 1, 0xAB53); (0xA7B4, 0xA7C2, 2, 0xA7B5);
    (0xA7C4, 0xA7C4, 1, 0xA794); (0xA7C5, 0xA7C5, 1, 0x282);
    (0xA7C6, 0xA7C6, 1, 0x1D8E); (0xA7C7, 0xA7C9, 2, 0xA7C8);
    (0xA7D0, 0xA7D0, 1, 0xA7D1); (0xA7D6, 0xA7D8, 2, 0xA7D7);
    (0xA7F5, 0xA7F5, 1, 0xA7F6); (0xFF21, 0xFF3A, 1, 0xFF41) ]%N.

(** The same for the code points from 65536 on. *)
Definition lowercaseSupplementary : list (N * N * N * N) :=
  [ (0x10400, 0x10427, 1, 0x10428); (0x104B0, 0x104D3, 1, 0x104D8);
    (0x10570, 0x10594, 2, 0x10597); (0x10571, 0x10579, 2, 0x10598);
    (0x1057D, 0x10589, 2, 0x105A4); (0x1058D, 0x10591, 2, 0x105B4);
    (0x10595, 0x10595, 1, 0x105BC); (0x10C80, 0x10CB2, 1, 0x10CC0);
    (0x118A0, 0x118BF, 1, 0x118C0); (0x16E40, 0x16E5F, 1, 0x16E60);
    (0x1E900, 0x1E921, 1, 0x1E922) ]%N.

Fixpoint lookup (ranges : list (N * N * N * N)) (c : N) : option N :=
  match ranges with
  | [] => None
  | (first, last, step, image) :: ranges' =>
      if ((first <=? c) && (c <=? last) && ((c - first) mod step =? 0))%N
      then Some (image + (c - first))%N
      else lookup ranges' c
  end.

End Unicode.

(** ** types.ts *)

Record LocationData := mkLocationData {
  latitude : Q;
  longitude : Q;
  altitude : option Q;
  accuracy : option Q;
  speed : option Q;           (* m/s *)
  heading : option Q;
  timestamp : Z               (* Unix ms *)
}.

Inductive TrackingMode := ModeMonitoring | ModeDriving | ModePaused.

Record BluetoothDevice := mkBluetoothDevice {
  bd_id : string;
  bd_name : JSString;
  isCarDevice : bool;
  signalStrength : option Q;
  lastSeen : Z
}.

Inductive SessionTrigger :=
| TriggerBluetooth (deviceId : string) (deviceName : JSString)
| TriggerGps (location : LocationData)
| TriggerManual.

Inductive TriggerType := TypeBluetooth | TypeGps | TypeManual.

Definition triggerType (t : SessionTrigger) : TriggerType :=
  match t with
  | TriggerBluetooth _ _ => TypeBluetooth
  | TriggerGps _ => TypeGps
  | TriggerManual => TypeManual
  end.

Inductive SessionStatus := active | paused | completed.

Definition SessionStatus_eqb (a b : SessionStatus) : bool :=
  match a, b with
  | active, active | paused, paused | completed, completed => true
  | _, _ => false
  end.

Record DriveSession := mkDriveSession {
  id : string;
  startTime : Z;
  endTime : option Z;
  status : SessionStatus;
  startTrigger : SessionTrigger;
  endTrigger : option SessionTrigger;
  totalDistance : R;          (* meters *)
  totalDuration : Q;          (* seconds *)
  averageSpeed : R;           (* m/s *)
  maxSpeed : Q;               (* m/s *)
  waypointCount : nat
}.

(** [interface Waypoint extends LocationData]. *)
Record Waypoint := mkWaypoint {
  wp_location : LocationData;
  wp_id : nat;
  wp_sessionId : string
}.

Record DrivingConditions := mkDrivingConditions {
  minSpeed : Q;
  minDuration : Q;
  minDistance : Q;
  maxStationaryTime : Q;
  sessionEndTimeout : Q
}.

Inductive CarDeviceType := TagAuto | TagManual.

Record CarDevice := mkCarDevice {
  cd_id : string;
  cd_name : JSString;
  cd_type : CarDeviceType;
  lastConnected : option Z;
  createdAt : Z
}.

Inductive DriveSentryStatus :=
| StatusIdle | StatusMonitoring | StatusDetecting
| StatusDriving | StatusPaused | StatusError.

Definition DriveSentryStatus_eqb (a b : DriveSentryStatus) : bool :=
  match a, b with
  | StatusIdle, StatusIdle | StatusMonitoring, StatusMonitoring
  | StatusDetecting, StatusDetecting | StatusDriving, StatusDriving
  | StatusPaused, StatusPaused | StatusError, StatusError => true
  | _, _ => false
  end.

(** The session of [SESSION_STARTED] is the live object the manager keeps
    mutating (an address in its store); the session of [SESSION_ENDED] is
    the copy [{ ...this.currentSession }] made by [endSession]. *)
Inductive DriveSentryEvent :=
| BLUETOOTH_CONNECTED (device : BluetoothDevice)
| BLUETOOTH_DISCONNECTED (device : BluetoothDevice)
| LOCATION_UPDATE (location : LocationData)
| DRIVING_DETECTED
| DRIVING_PAUSED
| DRIVING_RESUMED
| SESSION_STARTED (session : nat)
| SESSION_ENDED (session : DriveSession)
| ERROR (error : string).

(** ** session/SessionManager.ts *)

Module SessionManager.

(** [`session_${Date.now()}_${Math.random().toString(36).substring(2, 9)}`];
    [rnd] is the substring taken from the random number. *)
Definition generateSessionId (now : Z) (rnd : string) : string :=
  ("session_" +:+ pretty now +:+ "_" +:+ rnd)%string.

Record t := mk {
  store : list DriveSession;       (* the DriveSession objects created so far *)
  currentSession : option nat;     (* null, or the address of one of them *)
  waypoints : list Waypoint
}.

Definition init : t := mk [] None [].

(** [this.currentSession], dereferenced. *)
Definition current (m : t) : option DriveSession :=
  a ← currentSession m; store m !! a.

(** An assignment to fields of [this.currentSession]. *)
Definition mutate (f : DriveSession → DriveSession) (m : t) : t :=
  match currentSession m with
  | Some a => mk (alter f a (store m)) (currentSession m) (waypoints m)
  | None => m
  end.

Definition set_status (st : SessionStatus) (s : DriveSession) : DriveSession :=
  mkDriveSession (id s) (startTime s) (endTime s) st (startTrigger s)
    (endTrigger s) (totalDistance s) (totalDuration s) (averageSpeed s)
    (maxSpeed s) (waypointCount s).

Definition set_maxSpeed (v : Q) (s : DriveSession) : DriveSession :=
  mkDriveSession (id s) (startTime s) (endTime s) (status s) (startTrigger s)
    (endTrigger s) (totalDistance s) (totalDuration s) (averageSpeed s)
    v (waypointCount s).

Definition set_end (now : Z) (trigger : SessionTrigger) (n : nat)
    (s : DriveSession) : DriveSession :=
  mkDriveSession (id s) (startTime s) (Some now) completed (startTrigger s)
    (Some trigger) (totalDistance s) (totalDuration s) (averageSpeed s)
    (maxSpeed s) n.

Definition set_totalDuration (v : Q) (s : DriveSession) : DriveSession :=
  mkDriveSession (id s) (startTime s) (endTime s) (status s) (startTrigger s)
    (endTrigger s) (totalDistance s) v (averageSpeed s)
    (maxSpeed s) (waypointCount s).

Definition set_totalDistance (v : R) (s : DriveSession) : DriveSession :=
  mkDriveSession (id s) (startTime s) (endTime s) (status s) (startTrigger s)
    (endTrigger s) v (totalDuration s) (averageSpeed s)
    (maxSpeed s) (waypointCount s).

Definition set_averageSpeed (v : R) (s : DriveSession) : DriveSession :=
  mkDriveSession (id s) (startTime s) (endTime s) (status s) (startTrigger s)
    (endTrigger s) (totalDistance s) (totalDuration s) v
    (maxSpeed s) (waypointCount s).

Definition getCurrentSession (m : t) : option DriveSession := current m.

Definition isSessionActive (m : t) : bool :=
  match current m with
  | Some s => negb (SessionStatus_eqb (status s) completed)
  | None => false
  end.

(** Returns the address of the new object: the caller receives the very
    object that [currentSession] points to. *)
Definition startSession (sid : string) (now : Z) (trigger : SessionTrigger)
    (m : t) : Result (nat * t) :=
  let busy :=
    match current m with
    | Some s => negb (SessionStatus_eqb (status s) completed)
    | None => false
    end in
  if busy then
    Err "Cannot start new session while one is active"
  else
    let session :=
      mkDriveSession sid now None active trigger None 0%R 0%Q 0%R 0%Q 0%nat in
    Ok (length (store m), mk (store m ++ [session]) (Some (length (store m))) []).

Definition pauseSession (m : t) : Result t :=
  match current m with
  | Some s =>
      if SessionStatus_eqb (status s) active
      then Ok (mutate (set_status paused) m)
      else Err "No active session to pause"
  | None => Err "No active session to pause"
  end.

Definition resumeSession (m : t) : Result t :=
  match current m with
  | Some s =>
      if SessionStatus_eqb (status s) paused
      then Ok (mutate (set_status active) m)
      else Err "No paused session to resume"
  | None => Err "No paused session to resume"
  end.

(** [Math.atan2 y x]. *)
Definition atan2 (y x : R) : R :=
  if Rlt_dec 0 x then atan (y / x)
  else if Rlt_dec x 0 then
    (if Rle_dec 0 y then atan (y / x) + PI else atan (y / x) - PI)
  else if Rlt_dec 0 y then PI / 2
  else if Rlt_dec y 0 then - PI / 2
  else 0.

Definition toRadians (degrees : Q) : R := Q2R degrees * PI / 180.

Definition haversineDistance (coord1 coord2 : LocationData) : R :=
  let R0 := 6371000%R in
  let lat1 := toRadians (latitude coord1) in
  let lat2 := toRadians (latitude coord2) in
  let deltaLat := toRadians (latitude coord2 - latitude coord1) in
  let deltaLon := toRadians (longitude coord2 - longitude coord1) in
  let a :=
    (sin (deltaLat / 2) * sin (deltaLat / 2) +
     cos lat1 * cos lat2 * sin (deltaLon / 2) * sin (deltaLon / 2))%R in
  let c := (2 * atan2 (sqrt a) (sqrt (1 - a)))%R in
  (R0 * c)%R.

(** The loop [for (let i = 1; i < waypoints.length; i++)
    totalDistance += haversineDistance(waypoints[i - 1], waypoints[i])],
    entered at index [i] with [prev = waypoints[i - 1]] and [rest] the
    waypoints from index [i] on. *)
Fixpoint distanceLoop (totalDistance : R) (prev : Waypoint)
    (rest : list Waypoint) : R :=
  match rest with
  | [] => totalDistance
  | w :: rest' =>
      distanceLoop
        (totalDistance + haversineDistance (wp_location prev) (wp_location w))%R
        w rest'
  end.

Definition sumDistances (wps : list Waypoint) : R :=
  match wps with
  | [] => 0%R
  | w :: rest => distanceLoop 0%R w rest
  end.

Definition calculateStats (m : t) : t :=
  match current m with
  | None => m
  | Some s =>
      if (length (waypoints m) <? 2)%nat then m
      else
        let duration :=
          match endTime s with
          | Some e => (inject_Z (e - startTime s) / 1000)%Q
          | None => 0%Q
          end in
        let m1 := mutate (set_totalDuration duration) m in
        let totalDistance := sumDistances (waypoints m) in
        let m2 := mutate (set_totalDistance totalDistance) m1 in
        if Qgtb duration 0
        then mutate (set_averageSpeed (totalDistance / Q2R duration)%R) m2
        else m2
  end.

Definition endSession (now : Z) (endTrigger : SessionTrigger) (m : t)
    : Result (DriveSession * t) :=
  match current m with
  | None => Err "No session to end"
  | Some _ =>
      let m1 := mutate (set_end now endTrigger (length (waypoints m))) m in
      let m2 := calculateStats m1 in
      match current m2 with
      | Some completedSession =>
          Ok (completedSession, mk (store m2) None [])
      | None => Err "No session to end"   (* not reached: m2 has a session *)
      end
  end.

(** Truthiness of a [number]: [0] is falsy. *)
Definition truthy (q : Q) : bool := negb (Qeq_bool q 0).

Definition addWaypoint (location : LocationData) (m : t) : t :=
  match current m with
  | Some s =>
      if SessionStatus_eqb (status s) active then
        let waypoint :=
          mkWaypoint location (length (waypoints m) + 1)%nat (id s) in
        let m1 := mk (store m) (currentSession m) (waypoints m ++ [waypoint]) in
        match speed location with
        | Some v =>
            if truthy v && Qgtb v (maxSpeed s)
            then mutate (set_maxSpeed v) m1
            else m1
        | None => m1
        end
      else m
  | None => m
  end.

End SessionManager.

(** ** The statistics in IEEE doubles

    The numbers of the program are IEEE 754 doubles.  Here is what
    [haversineDistance] and [calculateStats] compute on them, operation
    by operation in the order of the source.  The sum, difference,
    product, quotient and square root are those of IEEE 754.  [Math.sin],
    [Math.cos] and [Math.atan2], whose results the language leaves to the
    engine to approximate, are parameters.  A coordinate is a pair of a
    latitude and a longitude. *)
Module Doubles.

Import Floats.

Section Engine.

Variables (Math_sin Math_cos : float → float).
Variable Math_atan2 : float → float → float.

Definition Math_PI : float := 0x1.921fb54442d18p+1%float.

Definition haversineDistance (coord1 coord2 : float * float) : float :=
  (let R0 := 6371000 in
   let lat1 := (coord1.1 * Math_PI) / 180 in
   let lat2 := (coord2.1 * Math_PI) / 180 in
   let deltaLat := ((coord2.1 - coord1.1) * Math_PI) / 180 in
   let deltaLon := ((coord2.2 - coord1.2) * Math_PI) / 180 in
   let a :=
     Math_sin (deltaLat / 2) * Math_sin (deltaLat / 2) +
     Math_cos lat1 * Math_cos lat2 *
     Math_sin (deltaLon / 2) * Math_sin (deltaLon / 2) in
   let c := 2 * Math_atan2 (PrimFloat.sqrt a) (PrimFloat.sqrt (1 - a)) in
   R0 * c)%float.

Fixpoint distanceLoop (totalDistance : float) (prev : float * float)
    (rest : list (float * float)) : float :=
  match rest with
  | [] => totalDistance
  | w :: rest' =>
      distanceLoop (totalDistance + haversineDistance prev w)%float w rest'
  end.

(** [calculateStats] on the three statistics of the current session,
    [(totalDuration, totalDistance, averageSpeed)]; [startTime] and
    [endTime] are the two [getTime()], in milliseconds. *)
Definition calculateStats (startTime endTime : float)
    (waypoints : list (float * float)) (stats : float * float * float)
    : float * float * float :=
  match waypoints with
  | first :: (_ :: _) as rest =>
      let duration := ((endTime - startTime) / 1000)%float in
      let totalDistance := distanceLoop 0%float first rest in
      (duration, totalDistance,
       if (0 <? duration)%float then (totalDistance / duration)%float
       else stats.2)
  | _ => stats
  end.

End Engine.

End Doubles.

(** ** detectors/DrivingDetector.ts *)

Inductive DrivingDetectorState := idle | detecting | driving | stationary.

Definition DrivingDetectorState_eqb (a b : DrivingDetectorState) : bool :=
  match a, b with
  | idle, idle | detecting, detecting | driving, driving
  | stationary, stationary => true
  | _, _ => false
  end.

Record DrivingDetectorResult := mkResult {
  r_state : DrivingDetectorState;
  confidence : option Q;      (* [None]: a division by [minDuration = 0] *)
  currentSpeed : Q;
  r_averageSpeed : Q;
  distanceTraveled : Q;
  drivingDuration : Q;
  stationaryDuration : Q
}.

Module DrivingDetector.

Record t := mk {
  conditions : DrivingConditions;
  state : DrivingDetectorState;
  locationHistory : list LocationData;
  drivingStartTime : option Z;
  stationaryStartTime : option Z
}.

(** The defaults of the constructor. *)
Definition defaultConditions : DrivingConditions :=
  mkDrivingConditions 5 60 200 120 300.

(** [new DrivingDetector(conditions)], [conditions] already merged over
    the defaults. *)
Definition create (c : DrivingConditions) : t := mk c idle [] None None.

Definition reset (d : t) : t := mk (conditions d) idle [] None None.

(** [!marker] for a [number | null]: [null] and [0] are both falsy. *)
Definition unset (marker : option Z) : bool :=
  match marker with
  | None => true
  | Some v => v =? 0
  end.

(** [(a - b) / 1000]. *)
Definition seconds (a b : Z) : Q := (inject_Z (a - b) / 1000)%Q.

Definition speedOr0 (l : LocationData) : Q := default 0%Q (speed l).

Definition getResult (latestLocation : LocationData) (d : t)
    : DrivingDetectorResult :=
  let drivingDuration :=
    if unset (drivingStartTime d) then 0%Q
    else seconds (timestamp latestLocation) (default 0 (drivingStartTime d)) in
  let stationaryDuration :=
    if unset (stationaryStartTime d) then 0%Q
    else seconds (timestamp latestLocation) (default 0 (stationaryStartTime d)) in
  let speeds := filter (λ s, Qgtb s 0 = true) (speedOr0 <$> locationHistory d) in
  let averageSpeed :=
    if (0 <? length speeds)%nat
    then (foldl Qplus 0 speeds / inject_Z (Z.of_nat (length speeds)))%Q
    else 0%Q in
  let confidence :=
    match state d with
    | driving =>
        if Qeq_bool (minDuration (conditions d)) 0 then None
        else Some (Qmin 1 (drivingDuration / (minDuration (conditions d) * 2)))%Q
    | detecting =>
        if Qeq_bool (minDuration (conditions d)) 0 then None
        else Some (drivingDuration / minDuration (conditions d))%Q
    | _ => Some 0%Q
    end in
  mkResult (state d) confidence (speedOr0 latestLocation) averageSpeed 0
    drivingDuration stationaryDuration.

(** [now] is the reading of [Date.now()]. *)
Definition processLocation (now : Z) (location : LocationData) (d : t)
    : DrivingDetectorResult * t :=
  let fiveMinutesAgo := now - 300000 in
  let history :=
    filter (λ l, fiveMinutesAgo < timestamp l) (locationHistory d ++ [location]) in
  let currentSpeed := speedOr0 location in
  let isMoving := Qgeb currentSpeed (minSpeed (conditions d)) in
  let d' :=
    if isMoving then
      (* this.stationaryStartTime = null *)
      let '(start, st) :=
        if unset (drivingStartTime d)
        then (timestamp location, detecting)
        else (default 0 (drivingStartTime d), state d) in
      let drivingDuration := seconds (timestamp location) start in
      let st' :=
        if Qgeb drivingDuration (minDuration (conditions d))
        then driving else st in
      mk (conditions d) st' history (Some start) None
    else
      let start :=
        if unset (stationaryStartTime d)
        then timestamp location
        else default 0 (stationaryStartTime d) in
      let stationaryDuration := seconds (timestamp location) start in
      let st' :=
        if Qgeb stationaryDuration (maxStationaryTime (conditions d))
        then stationary else state d in
      mk (conditions d) st' history (drivingStartTime d) (Some start) in
  (getResult location d', d').

End DrivingDetector.

(** ** detectors/CarBluetoothMatcher.ts *)

Module CarBluetoothMatcher.

(** [Canonicalize] of the regular-expression semantics under the [i]
    flag, without the [u] flag: the upper-case form of the code unit when
    that is a single code unit, except that a code unit from 128 on is
    never mapped to one below 128. *)
Definition canonicalize (ch : N) : N :=
  let cu := default ch (Unicode.lookup Unicode.uppercase ch) in
  if ((128 <=? ch) && (cu <? 128))%N then ch else cu.

(** The literal [pattern] matches a prefix of [input], ignoring case. *)
Fixpoint matchesAt (pattern input : JSString) : bool :=
  match pattern with
  | [] => true
  | p :: pattern' =>
      match input with
      | [] => false
      | c :: input' =>
          (canonicalize c =? canonicalize p)%N && matchesAt pattern' input'
      end
  end.

(** [/pattern/i.test(input)] for a pattern of literal characters. *)
Fixpoint test (pattern input : JSString) : bool :=
  matchesAt pattern input ||
  match input with
  | [] => false
  | _ :: input' => test pattern input'
  end.

Definition patterns : list JSString :=
  utf16 <$>
  [ "car"; "auto"; "sync"; "carplay"; "android auto"; "handsfree"; "vehicle";
    "honda"; "toyota"; "ford"; "bmw"; "mercedes"; "audi"; "volkswagen";
    "chevrolet"; "nissan"; "hyundai"; "kia"; "mazda"; "subaru"; "lexus";
    "jeep"; "tesla" ]%string.

Definition matchesCarPattern (deviceName : JSString) : bool :=
  existsb (λ pattern, test pattern deviceName) patterns.

(** Two code units are matched alike by a pattern of code units below
    128 when they are matched as the same code unit, or are both from 128
    on. *)
Definition alike (c c' : N) : Prop :=
  canonicalize c = canonicalize c' ∨ (128 ≤ c ∧ 128 ≤ c')%N.

Record t := mk {
  manuallyTaggedDevices : gmap string CarDevice
}.

Definition init : t := mk ∅.

Definition isCarDevice (device : BluetoothDevice) (m : t) : bool :=
  match manuallyTaggedDevices m !! bd_id device with
  | Some _ => true
  | None => matchesCarPattern (bd_name device)
  end.

(** [now1], [now2]: the two [new Date()] of the record literal. *)
Definition tagAsCarDevice (now1 now2 : Z) (device : BluetoothDevice) (m : t)
    : CarDevice * t :=
  let carDevice :=
    mkCarDevice (bd_id device) (bd_name device) TagManual (Some now1) now2 in
  (carDevice, mk (<[bd_id device := carDevice]> (manuallyTaggedDevices m))).

(** [Map.prototype.delete] reports whether the key was present. *)
Definition untagCarDevice (deviceId : string) (m : t) : bool * t :=
  (bool_decide (is_Some (manuallyTaggedDevices m !! deviceId)),
   mk (delete deviceId (manuallyTaggedDevices m))).

Definition loadTaggedDevices (m : t) : t := m.

End CarBluetoothMatcher.

(** [String.prototype.toLowerCase], the "lowercased name" of the
    specification; the source never calls it.  The string is read as code
    points, a leading surrogate followed by a trailing one being one code
    point from 65536 on; each code point is replaced by its lower-case
    form, which is one code point except for U+0130, whose form is "i"
    followed by U+0307; the result is written back as code units.  The
    capital sigma U+03A3 becomes the final sigma U+03C2 where the
    condition Final_Sigma of Unicode holds of what comes before and after
    it, and U+03C3 elsewhere; that condition rests on two properties of
    characters that are not tabulated here, and is taken as the parameter
    [Final_Sigma]. *)
Definition isLeadSurrogate (u : N) : bool := ((0xD800 <=? u) && (u <=? 0xDBFF))%N.
Definition isTrailSurrogate (u : N) : bool := ((0xDC00 <=? u) && (u <=? 0xDFFF))%N.

Definition codePoint (lead trail : N) : N :=
  ((lead - 0xD800) * 0x400 + (trail - 0xDC00) + 0x10000)%N.

(** The two code units of a code point from 65536 on. *)
Definition codeUnits (cp : N) : JSString :=
  [ (0xD800 + (cp - 0x10000) / 0x400)%N; (0xDC00 + (cp - 0x10000) mod 0x400)%N ].

Fixpoint toLowerCase_from (Final_Sigma : JSString → JSString → bool)
    (before s : JSString) : JSString :=
  match s with
  | [] => []
  | u :: rest =>
      let single :=
        (if (u =? 0x130)%N then [0x69; 0x307]%N
         else if (u =? 0x3A3)%N
         then [if Final_Sigma before rest then 0x3C2 else 0x3C3]%N
         else [default u (Unicode.lookup Unicode.lowercase u)])
        ++ toLowerCase_from Final_Sigma (before ++ [u]) rest in
      match rest with
      | v :: rest' =>
          if isLeadSurrogate u && isTrailSurrogate v then
            let cp := codePoint u v in
            codeUnits
              (default cp (Unicode.lookup Unicode.lowercaseSupplementary cp))
            ++ toLowerCase_from Final_Sigma (before ++ [u; v]) rest'
          else single
      | [] => single
      end
  end.

Definition toLowerCase (Final_Sigma : JSString → JSString → bool)
    (s : JSString) : JSString :=
  toLowerCase_from Final_Sigma [] s.

(** ** listeners: the two feeds, as far as the orchestrator touches them *)

(** [failure] is what the platform call underneath throws, if it throws. *)

Module BluetoothListener.

Record t := mk {
  isScanning : bool;
  connectedDevices : list BluetoothDevice
}.

Definition init : t := mk false [].

Definition initialize (failure : option string) (b : t) : Result t :=
  match failure with
  | Some e => Err e
  | None => Ok b
  end.

(** [isScanning] is set before the scan is started, so it is set also
    when starting the scan throws: the result is what was thrown, if
    anything, and the listener left behind. *)
Definition startListening (failure : option string) (b : t)
    : option string * t :=
  (failure, mk true (connectedDevices b)).

Definition stopListening (failure : option string) (b : t) : Result t :=
  match failure with
  | Some e => Err e
  | None => Ok (mk false (connectedDevices b))
  end.

Definition isCarConnected (b : t) : bool :=
  existsb isCarDevice (connectedDevices b).

Definition onDeviceConnected (device : BluetoothDevice) (b : t) : t :=
  mk (isScanning b) (connectedDevices b ++ [device]).

(** A device as the scan hands it to the callback of [startListening]. *)
Record ScannedDevice := mkScannedDevice {
  sd_id : string;
  sd_name : option JSString
}.

(** [/car|auto|sync|handsfree/i.test(name)], the check of that callback. *)
Definition isCar (name : JSString) : bool :=
  existsb (λ alternative, CarBluetoothMatcher.test alternative name)
    (utf16 <$> [ "car"; "auto"; "sync"; "handsfree" ]%string).

(** The callback [(error, device) => ...] of [startDeviceScan]; [now] is
    the clock read for [lastSeen].  An empty name is falsy. *)
Definition scanCallback (now : Z) (error : option string)
    (device : option ScannedDevice) (b : t) : t :=
  match error with
  | Some _ => b
  | None =>
      match device with
      | Some dev =>
          match sd_name dev with
          | Some name =>
              match name with
              | [] => b
              | _ =>
                  if isCar name
                  then onDeviceConnected
                         (mkBluetoothDevice (sd_id dev) name true None now) b
                  else b
              end
          | None => b
          end
      | None => b
      end
  end.

End BluetoothListener.

(** Of the two versions of this listener in the source, the one built on
    expo-location is followed.  Its [initialize] only logs and that of the
    other throws: [failure] stands for either. *)
Module GPSListener.

Record t := mk {
  isTracking : bool;
  currentMode : TrackingMode
}.

Definition init : t := mk false ModeMonitoring.

Definition initialize (failure : option string) (g : t) : Result t :=
  match failure with
  | Some e => Err e
  | None => Ok g
  end.

Definition startBackgroundTracking (failure : option string) (g : t) : Result t :=
  match failure with
  | Some e => Err e
  | None => Ok (mk true (currentMode g))
  end.

(** What the platform call throws is caught and only logged: the call
    returns, with [isTracking] as it was. *)
Definition stopBackgroundTracking (failure : option string) (g : t) : t :=
  match failure with
  | Some _ => g
  | None => mk false (currentMode g)
  end.

Definition setTrackingMode (mode : TrackingMode) (g : t) : t :=
  mk (isTracking g) mode.

End GPSListener.

(** ** DriveSentry.ts: the orchestrator

    A call from outside (a location update, a batch of them, a car
    connecting, [start], ...) is handled to its end, with all that it
    leaves to be done later, before the next one is.
    A subscriber is known by a number.  [emit] calls every subscriber of
    the moment with the event and catches whatever one of them throws; it
    is recorded as one entry of [emitted]: the event and the subscribers
    called with it.  The calls into the two
    feeds that may fail ([initialize], [startListening], ...) take their
    outcome as an input: [None] when the call returns, [Some e] when it
    throws [e]. *)

(** How a handler call ends. *)
Inductive Outcome :=
| Returned                    (* ran to its end *)
| Thrown (message : string)   (* threw to its caller, or its promise was awaited and rejected *)
| Rejected (message : string). (* the promise nobody awaits was rejected *)

Module DriveSentry.

Record t := mk {
  bluetoothListener : BluetoothListener.t;
  gpsListener : GPSListener.t;
  drivingDetector : DrivingDetector.t;
  carMatcher : CarBluetoothMatcher.t;
  sessionManager : SessionManager.t;
  status : DriveSentryStatus;
  eventHandlers : list nat;                    (* a Set, in insertion order *)
  isInitialized : bool;
  emitted : list (DriveSentryEvent * list nat) (* oldest first *)
}.

Definition init : t :=
  mk BluetoothListener.init GPSListener.init
     (DrivingDetector.create DrivingDetector.defaultConditions)
     CarBluetoothMatcher.init SessionManager.init StatusIdle [] false [].

Definition set_status (s : DriveSentryStatus) (d : t) : t :=
  mk (bluetoothListener d) (gpsListener d) (drivingDetector d) (carMatcher d)
     (sessionManager d) s (eventHandlers d) (isInitialized d) (emitted d).

Definition set_sessionManager (m : SessionManager.t) (d : t) : t :=
  mk (bluetoothListener d) (gpsListener d) (drivingDetector d) (carMatcher d)
     m (status d) (eventHandlers d) (isInitialized d) (emitted d).

Definition set_drivingDetector (x : DrivingDetector.t) (d : t) : t :=
  mk (bluetoothListener d) (gpsListener d) x (carMatcher d)
     (sessionManager d) (status d) (eventHandlers d) (isInitialized d)
     (emitted d).

Definition set_gpsListener (g : GPSListener.t) (d : t) : t :=
  mk (bluetoothListener d) g (drivingDetector d) (carMatcher d)
     (sessionManager d) (status d) (eventHandlers d) (isInitialized d)
     (emitted d).

Definition set_bluetoothListener (b : BluetoothListener.t) (d : t) : t :=
  mk b (gpsListener d) (drivingDetector d) (carMatcher d)
     (sessionManager d) (status d) (eventHandlers d) (isInitialized d)
     (emitted d).

Definition set_isInitialized (b : bool) (d : t) : t :=
  mk (bluetoothListener d) (gpsListener d) (drivingDetector d) (carMatcher d)
     (sessionManager d) (status d) (eventHandlers d) b (emitted d).

Definition setTrackingMode (mode : TrackingMode) (d : t) : t :=
  set_gpsListener (GPSListener.setTrackingMode mode (gpsListener d)) d.

Definition subscribe (handler : nat) (d : t) : t :=
  mk (bluetoothListener d) (gpsListener d) (drivingDetector d) (carMatcher d)
     (sessionManager d) (status d)
     (if bool_decide (handler ∈ eventHandlers d) then eventHandlers d
      else eventHandlers d ++ [handler])
     (isInitialized d) (emitted d).

Definition unsubscribe (handler : nat) (d : t) : t :=
  mk (bluetoothListener d) (gpsListener d) (drivingDetector d) (carMatcher d)
     (sessionManager d) (status d)
     (filter (λ h, h ≠ handler) (eventHandlers d))
     (isInitialized d) (emitted d).

Definition emit (event : DriveSentryEvent) (d : t) : t :=
  mk (bluetoothListener d) (gpsListener d) (drivingDetector d) (carMatcher d)
     (sessionManager d) (status d) (eventHandlers d) (isInitialized d)
     (emitted d ++ [(event, eventHandlers d)]).

Definition set_carMatcher (c : CarBluetoothMatcher.t) (d : t) : t :=
  mk (bluetoothListener d) (gpsListener d) (drivingDetector d) c
     (sessionManager d) (status d) (eventHandlers d) (isInitialized d)
     (emitted d).

Definition initialize (btInit gpsInit : option string) (d : t) : Outcome * t :=
  if isInitialized d then (Returned, d)
  else
    match BluetoothListener.initialize btInit (bluetoothListener d) with
    | Err e => (Thrown e, emit (ERROR e) d)
    | Ok b =>
        let d1 := set_bluetoothListener b d in
        match GPSListener.initialize gpsInit (gpsListener d1) with
        | Err e => (Thrown e, emit (ERROR e) d1)
        | Ok g =>
            let d2 := set_gpsListener g d1 in
            let d3 :=
              set_carMatcher
                (CarBluetoothMatcher.loadTaggedDevices (carMatcher d2)) d2 in
            (Returned, set_isInitialized true d3)
        end
    end.

Definition start (btStart gpsStart : option string) (d : t) : Outcome * t :=
  if negb (isInitialized d) then
    (Thrown "DriveSentry not initialized. Call initialize() first.", d)
  else if negb (DriveSentryStatus_eqb (status d) StatusIdle) then (Returned, d)
  else
    let '(thrown, b) :=
      BluetoothListener.startListening btStart (bluetoothListener d) in
    let d1 := set_bluetoothListener b d in
    match thrown with
    | Some e => (Thrown e, emit (ERROR e) (set_status StatusError d1))
    | None =>
        match GPSListener.startBackgroundTracking gpsStart (gpsListener d1) with
        | Err e => (Thrown e, emit (ERROR e) (set_status StatusError d1))
        | Ok g => (Returned, set_status StatusMonitoring (set_gpsListener g d1))
        end
    end.

Definition stop (now : Z) (btStop gpsStop : option string) (d : t)
    : Outcome * t :=
  let ended :=
    if SessionManager.isSessionActive (sessionManager d) then
      match SessionManager.endSession now TriggerManual (sessionManager d) with
      | Ok (_, m) => Ok (set_sessionManager m d)
      | Err e => Err e
      end
    else Ok d in
  match ended with
  | Err e => (Thrown e, emit (ERROR e) d)
  | Ok d1 =>
      match BluetoothListener.stopListening btStop (bluetoothListener d1) with
      | Err e => (Thrown e, emit (ERROR e) d1)
      | Ok b =>
          let d2 := set_bluetoothListener b d1 in
          let d3 :=
            set_gpsListener
              (GPSListener.stopBackgroundTracking gpsStop (gpsListener d2))
              d2 in
          let d4 :=
            set_drivingDetector
              (DrivingDetector.reset (drivingDetector d3)) d3 in
          (Returned, set_status StatusIdle d4)
      end
  end.

(** [handleDrivingDetected] is [async], and [handleLocationUpdate] calls
    it without awaiting it.  Within that call it runs up to its [await]:
    by then [startSession], which awaits nothing, has run to its end and
    has returned a session or thrown.  What follows the [await] runs
    later, once the code that called the handler has returned: after the
    whole batch when the caller is [processLocationUpdates]. *)

(** Up to the [await]: the state then, and what is awaited, the settled
    promise of [startSession].  [now]: the clock; [rnd]: the random part
    of a new session's id. *)
Definition handleDrivingDetected_begin (now : Z) (rnd : string)
    (location : LocationData) (d : t) : Result nat * t :=
  let d1 := emit DRIVING_DETECTED (set_status StatusDriving d) in
  let trigger :=
    if BluetoothListener.isCarConnected (bluetoothListener d1)
    then TriggerBluetooth "unknown" (utf16 "Car")
    else TriggerGps location in
  match SessionManager.startSession
          (SessionManager.generateSessionId now rnd) now trigger
          (sessionManager d1) with
  | Err e => (Err e, d1)
  | Ok (session, m) => (Ok session, set_sessionManager m d1)
  end.

(** From the [await] on, in the state [d] of that later moment. *)
Definition handleDrivingDetected_resume (awaited : Result nat) (d : t)
    : Outcome * t :=
  match awaited with
  | Err e => (Rejected e, d)
  | Ok session =>
      let d1 := emit (SESSION_STARTED session) d in
      (Returned, setTrackingMode ModeDriving d1)
  end.

(** The call together with what follows its [await], nothing else
    running in between. *)
Definition handleDrivingDetected (now : Z) (rnd : string)
    (location : LocationData) (d : t) : Outcome * t :=
  let '(awaited, d1) := handleDrivingDetected_begin now rnd location d in
  handleDrivingDetected_resume awaited d1.

Definition handleDrivingPaused (d : t) : Outcome * t :=
  let d1 := emit DRIVING_PAUSED (set_status StatusPaused d) in
  match SessionManager.pauseSession (sessionManager d1) with
  | Err e => (Thrown e, d1)
  | Ok m => (Returned, setTrackingMode ModePaused (set_sessionManager m d1))
  end.

(** The body of [handleLocationUpdate], as far as it runs within the
    call: how the call ends (it throws what [handleDrivingPaused] throws),
    the state then, and what the [handleDrivingDetected] it has called,
    if it has, awaits. *)
Definition handleLocationUpdate_sync (now : Z) (rnd : string)
    (location : LocationData) (d : t) : Outcome * t * option (Result nat) :=
  let d1 := emit (LOCATION_UPDATE location) d in
  let '(result, detector) :=
    DrivingDetector.processLocation now location (drivingDetector d1) in
  let d2 := set_drivingDetector detector d1 in
  match r_state result with
  | driving =>
      if negb (DriveSentryStatus_eqb (status d2) StatusDriving) then
        let '(awaited, d3) := handleDrivingDetected_begin now rnd location d2 in
        (Returned, d3, Some awaited)
      else if SessionManager.isSessionActive (sessionManager d2) then
        (Returned,
         set_sessionManager
           (SessionManager.addWaypoint location (sessionManager d2)) d2,
         None)
      else (Returned, d2, None)
  | stationary =>
      if DriveSentryStatus_eqb (status d2) StatusDriving
      then (handleDrivingPaused d2, None)
      else (Returned, d2, None)
  | _ => (Returned, d2, None)
  end.

(** One location update handled on its own: the call, then what the
    [handleDrivingDetected] it has called had still to do. *)
Definition handleLocationUpdate (now : Z) (rnd : string)
    (location : LocationData) (d : t) : Outcome * t :=
  let '(outcome, d1, awaited) := handleLocationUpdate_sync now rnd location d in
  match awaited with
  | Some awaited => handleDrivingDetected_resume awaited d1
  | None => (outcome, d1)
  end.

Definition handleCarConnected (device : BluetoothDevice) (d : t) : Outcome * t :=
  let d1 := emit (BLUETOOTH_CONNECTED device) d in
  if DriveSentryStatus_eqb (status d1) StatusMonitoring ||
     DriveSentryStatus_eqb (status d1) StatusIdle
  then (Returned, setTrackingMode ModeDriving (set_status StatusDetecting d1))
  else (Returned, d1).

Definition handleCarDisconnected (now : Z) (device : BluetoothDevice) (d : t)
    : Outcome * t :=
  let d1 := emit (BLUETOOTH_DISCONNECTED device) d in
  if DriveSentryStatus_eqb (status d1) StatusDriving &&
     SessionManager.isSessionActive (sessionManager d1)
  then
    match SessionManager.endSession now
            (TriggerBluetooth (bd_id device) (bd_name device))
            (sessionManager d1) with
    | Err e => (Thrown e, d1)
    | Ok (session, m) =>
        let d2 := emit (SESSION_ENDED session) (set_sessionManager m d1) in
        (Returned, setTrackingMode ModeMonitoring (set_status StatusMonitoring d2))
    end
  else (Returned, d1).

(** The loop of [processLocationUpdates]; each sample comes with the
    clock reading and the random string of its turn.  A sample whose
    handler throws ends the loop.  The result has what the calls of
    [handleDrivingDetected] made on the way await, oldest first. *)
Fixpoint processLocationUpdates_loop
    (locations : list (Z * string * LocationData)) (d : t)
    : Outcome * t * list (Result nat) :=
  match locations with
  | [] => (Returned, d, [])
  | (now, rnd, location) :: rest =>
      match handleLocationUpdate_sync now rnd location d with
      | (Thrown e, d', awaited) => (Thrown e, d', option_list awaited)
      | (_, d', awaited) =>
          let '(outcome, d'', later) := processLocationUpdates_loop rest d' in
          (outcome, d'', option_list awaited ++ later)
      end
  end.

(** The batch entry point: the loop, which awaits nothing, and then, the
    promise of [processLocationUpdates] being settled, what the calls of
    [handleDrivingDetected] had still to do, in the order of the calls. *)
Definition processLocationUpdates
    (locations : list (Z * string * LocationData)) (d : t) : Outcome * t :=
  let '(outcome, d', awaited) := processLocationUpdates_loop locations d in
  (outcome,
   foldl (λ d awaited, (handleDrivingDetected_resume awaited d).2) d' awaited).

End DriveSentry.

(** * Sequences of calls *)

(** ** Calls on the session manager *)

Inductive Op :=
| StartSession (sid : string) (now : Z) (trigger : SessionTrigger)
| PauseSession
| ResumeSession
| AddWaypoint (location : LocationData)
| EndSession (now : Z) (endTrigger : SessionTrigger).

(** What a call leaves behind and whether it threw.  A call that throws
    does so before its first assignment. *)
Definition call (op : Op) (m : SessionManager.t) : option string * SessionManager.t :=
  match op with
  | StartSession sid now trigger =>
      match SessionManager.startSession sid now trigger m with
      | Ok (_, m') => (None, m')
      | Err e => (Some e, m)
      end
  | PauseSession =>
      match SessionManager.pauseSession m with
      | Ok m' => (None, m')
      | Err e => (Some e, m)
      end
  | ResumeSession =>
      match SessionManager.resumeSession m with
      | Ok m' => (None, m')
      | Err e => (Some e, m)
      end
  | AddWaypoint location => (None, SessionManager.addWaypoint location m)
  | EndSession now endTrigger =>
      match SessionManager.endSession now endTrigger m with
      | Ok (_, m') => (None, m')
      | Err e => (Some e, m)
      end
  end.

Definition step (m : SessionManager.t) (op : Op) : SessionManager.t :=
  (call op m).2.

Definition run (ops : list Op) (m : SessionManager.t) : SessionManager.t :=
  foldl step m ops.

Definition isEndSession (op : Op) : bool :=
  match op with EndSession _ _ => true | _ => false end.

(** No [endSession] among the calls. *)
Definition noEndSession (ops : list Op) : bool :=
  forallb (λ op, negb (isEndSession op)) ops.

(** The session objects that are not completed, wherever they are. *)
Definition nonCompleted (m : SessionManager.t) : list DriveSession :=
  filter (λ s, SessionStatus_eqb (status s) completed = false)
         (SessionManager.store m).

(** [getCurrentSession()] shows a session whose status is [active]. *)
Definition statusIsActive (m : SessionManager.t) : bool :=
  match SessionManager.getCurrentSession m with
  | Some s => SessionStatus_eqb (status s) active
  | None => false
  end.

(** The samples of the [addWaypoint] calls made while the status was
    exactly [active], in the order of the calls. *)
Fixpoint acceptedSamples (ops : list Op) (m : SessionManager.t)
    : list LocationData :=
  match ops with
  | [] => []
  | op :: rest =>
      match op with
      | AddWaypoint location =>
          if statusIsActive m then location :: acceptedSamples rest (step m op)
          else acceptedSamples rest (step m op)
      | _ => acceptedSamples rest (step m op)
      end
  end.

(** The sum of the great-circle distances between each two consecutive
    positions, as the specification words it. *)
Fixpoint consecutiveDistances (positions : list LocationData) : R :=
  match positions with
  | a :: (b :: _) as rest =>
      (SessionManager.haversineDistance a b + consecutiveDistances rest)%R
  | _ => 0%R
  end.

(** What [calculateStats] leaves in the current session object [s] when
    the waypoints are [wps]. *)
Definition statsOf (wps : list Waypoint) (s : DriveSession) : DriveSession :=
  if (length wps <? 2)%nat then s
  else
    let duration :=
      match endTime s with
      | Some e => (inject_Z (e - startTime s) / 1000)%Q
      | None => 0%Q
      end in
    let distance := SessionManager.sumDistances wps in
    let s2 :=
      SessionManager.set_totalDistance distance
        (SessionManager.set_totalDuration duration s) in
    if Qgtb duration 0
    then SessionManager.set_averageSpeed (distance / Q2R duration)%R s2
    else s2.

(** Every session object that is not completed is the current one. *)
Definition onlyCurrentOpen (m : SessionManager.t) : Prop :=
  ∀ b s, SessionManager.store m !! b = Some s →
         status s ≠ completed → SessionManager.currentSession m = Some b.

(** [s'] differs from [s] in nothing but, possibly, [status] and
    [maxSpeed]. *)
Definition sameRecord (s s' : DriveSession) : Prop :=
  id s' = id s ∧ startTime s' = startTime s ∧ endTime s' = endTime s ∧
  startTrigger s' = startTrigger s ∧ endTrigger s' = endTrigger s ∧
  totalDistance s' = totalDistance s ∧ totalDuration s' = totalDuration s ∧
  averageSpeed s' = averageSpeed s ∧ waypointCount s' = waypointCount s.

(** The waypoints are numbered 1, 2, 3, ... in their order in the list. *)
Definition ordinalIds (wps : list Waypoint) : Prop :=
  ∀ i w, wps !! i = Some w → wp_id w = S i.

(** ** Samples fed to the detector *)

(** A sample as the detector sees it: only speed and timestamp matter. *)
Definition sample (t : Z) (v : Q) : LocationData :=
  mkLocationData 0 0 None None (Some v) None t.

(** Feeds the samples one by one, each processed at the clock reading
    paired with it, and collects the detector states reported. *)
Fixpoint feed (samples : list (Z * LocationData)) (d : DrivingDetector.t)
    : list DrivingDetectorState * DrivingDetector.t :=
  match samples with
  | [] => ([], d)
  | (now, location) :: rest =>
      let '(result, d') := DrivingDetector.processLocation now location d in
      let '(states, d'') := feed rest d' in
      (r_state result :: states, d'')
  end.

(** Samples processed as they are taken: [Date.now()] is the timestamp. *)
Definition live (samples : list LocationData) : list (Z * LocationData) :=
  (λ l, (timestamp l, l)) <$> samples.

(** Sustained motion: every sample has a speed of at least [minSpeed],
    and the timestamps, starting from [tprev], never go back. *)
Fixpoint sustained (c : DrivingConditions) (tprev : Z)
    (samples : list (Z * LocationData)) : bool :=
  match samples with
  | [] => true
  | (_, l) :: rest =>
      Qgeb (DrivingDetector.speedOr0 l) (minSpeed c) &&
      (tprev <=? timestamp l) && sustained c (timestamp l) rest
  end.

(** The state the specification expects at a sample of a motion sustained
    since [t0]. *)
Definition expectedState (c : DrivingConditions) (t0 : Z) (l : LocationData)
    : DrivingDetectorState :=
  if Qgeb (DrivingDetector.seconds (timestamp l) t0) (minDuration c)
  then driving else detecting.

(** A fresh detector with the default thresholds. *)
Definition freshDetector : DrivingDetector.t :=
  DrivingDetector.create DrivingDetector.defaultConditions.

(** ** Events *)

Definition sessionEnded (log : list (DriveSentryEvent * list nat))
    : list (DriveSession * list nat) :=
  omap (λ entry, match entry.1 with
                 | SESSION_ENDED s => Some (s, entry.2)
                 | _ => None
                 end) log.

(** The events emitted on the way from [d] to [d']. *)
Definition emittedSince (d d' : DriveSentry.t) : list (DriveSentryEvent * list nat) :=
  drop (length (DriveSentry.emitted d)) (DriveSentry.emitted d').

(** ** A trip, for the scenarios

    Two subscribers; the service initialized and started; then the
    samples of a trip, handed over in batches. *)

Definition monitoring : DriveSentry.t :=
  (DriveSentry.start None None
     (DriveSentry.initialize None None
        (DriveSentry.subscribe 2 (DriveSentry.subscribe 1 DriveSentry.init))).2).2.

Definition batch (samples : list LocationData)
    : list (Z * string * LocationData) :=
  (λ l, (timestamp l, "r4nd0m"%string, l)) <$> samples.

(** Moving at 6 m/s from 1 s on: driving is confirmed at 61 s. *)
Definition drivingTrip : DriveSentry.t :=
  (DriveSentry.processLocationUpdates
     (batch [sample 1000 6; sample 31000 6; sample 61000 6; sample 66000 6])
     monitoring).2.

(** Then at rest from 70 s on: paused at 190 s. *)
Definition pausedTrip : DriveSentry.t :=
  (DriveSentry.processLocationUpdates
     (batch [sample 70000 0; sample 130000 0; sample 190000 0])
     drivingTrip).2.

Definition carKit : BluetoothDevice :=
  mkBluetoothDevice "4C:87:5D:01:02:03" (utf16 "Toyota Touch") true None 66000.

(** [maxSpeed] after [addWaypoint] has accepted [location], when it was
    [current] before. *)
Definition nextMaxSpeed (location : LocationData) (current : Q) : Q :=
  match speed location with
  | Some v => if SessionManager.truthy v && Qgtb v current then v else current
  | None => current
  end.

(** What the waypoints and [maxSpeed] of an open session [s] satisfy:
    the waypoints carry its id; [maxSpeed] is not negative, is at least
    the speed of every waypoint, and is 0 or the speed of one of them. *)
Definition recorded (m : SessionManager.t) (s : DriveSession) : Prop :=
  Forall (λ w, wp_sessionId w = id s) (SessionManager.waypoints m) ∧
  (0 <= maxSpeed s)%Q ∧
  Forall (λ w, ∀ v, speed (wp_location w) = Some v → (v <= maxSpeed s)%Q)
         (SessionManager.waypoints m) ∧
  (maxSpeed s = 0%Q ∨
   ∃ w, w ∈ SessionManager.waypoints m ∧
        speed (wp_location w) = Some (maxSpeed s)).

(** The quantity [a] of [haversineDistance], whose square root is taken. *)
Definition haversineA (coord1 coord2 : LocationData) : R :=
  let lat1 := SessionManager.toRadians (latitude coord1) in
  let lat2 := SessionManager.toRadians (latitude coord2) in
  let deltaLat :=
    SessionManager.toRadians (latitude coord2 - latitude coord1) in
  let deltaLon :=
    SessionManager.toRadians (longitude coord2 - longitude coord1) in
  (sin (deltaLat / 2) * sin (deltaLat / 2) +
   cos lat1 * cos lat2 * sin (deltaLon / 2) * sin (deltaLon / 2))%R.

(** The patterns of [matchesCarPattern] without "carplay" and
    "android auto". *)
Definition decidingPatterns : list JSString :=
  utf16 <$>
  [ "car"; "auto"; "sync"; "handsfree"; "vehicle";
    "honda"; "toyota"; "ford"; "bmw"; "mercedes"; "audi"; "volkswagen";
    "chevrolet"; "nissan"; "hyundai"; "kia"; "mazda"; "subaru"; "lexus";
    "jeep"; "tesla" ]%string.

(** ** Rest, as the detector sees it *)

(** Every sample is below [minSpeed], and the timestamps, starting from
    [tprev], never go back. *)
Fixpoint resting (c : DrivingConditions) (tprev : Z)
    (samples : list (Z * LocationData)) : bool :=
  match samples with
  | [] => true
  | (_, l) :: rest =>
      negb (Qgeb (DrivingDetector.speedOr0 l) (minSpeed c)) &&
      (tprev <=? timestamp l) && resting c (timestamp l) rest
  end.

(** The state at a sample of a rest begun at [t0] in state [before]. *)
Definition restState (c : DrivingConditions) (t0 : Z)
    (before : DrivingDetectorState) (l : LocationData) : DrivingDetectorState :=
  if Qgeb (DrivingDetector.seconds (timestamp l) t0) (maxStationaryTime c)
  then stationary else before.

(** The speeds of the samples, those without a speed left out. *)
Definition speeds (samples : list LocationData) : list Q :=
  omap speed samples.

(** ** What happens to the listeners *)

Inductive ListenerCall :=
| ScanResult (now : Z) (error : option string)
    (device : option BluetoothListener.ScannedDevice)
| StartListening (failure : option string)
| StopListening (failure : option string).

Definition listenerStep (b : BluetoothListener.t) (c : ListenerCall)
    : BluetoothListener.t :=
  match c with
  | ScanResult now error device =>
      BluetoothListener.scanCallback now error device b
  | StartListening failure => (BluetoothListener.startListening failure b).2
  | StopListening failure =>
      match BluetoothListener.stopListening failure b with
      | Ok b' => b'
      | Err _ => b
      end
  end.

(** ** Calls on the orchestrator *)

Inductive Call :=
| Subscribe (handler : nat)
| Unsubscribe (handler : nat)
| Initialize (btInit gpsInit : option string)
| Start (btStart gpsStart : option string)
| Stop (now : Z) (btStop gpsStop : option string)
| LocationUpdate (now : Z) (rnd : string) (location : LocationData)
| LocationUpdates (locations : list (Z * string * LocationData))
| CarConnected (device : BluetoothDevice)
| CarDisconnected (now : Z) (device : BluetoothDevice).

Definition perform (c : Call) (d : DriveSentry.t) : Outcome * DriveSentry.t :=
  match c with
  | Subscribe handler => (Returned, DriveSentry.subscribe handler d)
  | Unsubscribe handler => (Returned, DriveSentry.unsubscribe handler d)
  | Initialize btInit gpsInit => DriveSentry.initialize btInit gpsInit d
  | Start btStart gpsStart => DriveSentry.start btStart gpsStart d
  | Stop now btStop gpsStop => DriveSentry.stop now btStop gpsStop d
  | LocationUpdate now rnd location =>
      DriveSentry.handleLocationUpdate now rnd location d
  | LocationUpdates locations =>
      DriveSentry.processLocationUpdates locations d
  | CarConnected device => DriveSentry.handleCarConnected device d
  | CarDisconnected now device => DriveSentry.handleCarDisconnected now device d
  end.

Definition performAll (calls : list Call) (d : DriveSentry.t) : DriveSentry.t :=
  foldl (λ d c, (perform c d).2) d calls.

(** * The session manager *)

Section SessionManagerFacts.

Import SessionManager.

Lemma SessionStatus_eqb_eq a b : SessionStatus_eqb a b = true ↔ a = b.
Proof. destruct a, b; simpl; split; congruence. Qed.

Lemma SessionStatus_eqb_neq a b : SessionStatus_eqb a b = false ↔ a ≠ b.
Proof. destruct a, b; simpl; split; congruence. Qed.

Lemma current_Some m s :
  current m = Some s ↔
  ∃ a, currentSession m = Some a ∧ store m !! a = Some s.
Proof.
  unfold current. destruct (currentSession m) as [a|]; simpl.
  - split; [eauto | intros (b & [= <-] & H); done].
  - split; [done | intros (b & [=] & _)].
Qed.

Lemma current_mutate f m : current (mutate f m) = f <$> current m.
Proof.
  unfold current, mutate. destruct (currentSession m) as [a|] eqn:E.
  - cbn. apply list_lookup_alter_eq.
  - by rewrite E.
Qed.

Lemma currentSession_mutate f m :
  currentSession (mutate f m) = currentSession m.
Proof. unfold mutate. by destruct (currentSession m) eqn:E. Qed.

Lemma waypoints_mutate f m : waypoints (mutate f m) = waypoints m.
Proof. unfold mutate. by destruct (currentSession m) eqn:E. Qed.

Lemma store_mutate_other f m a b :
  currentSession m = Some a → b ≠ a →
  store (mutate f m) !! b = store m !! b.
Proof.
  intros E Hne. unfold mutate. rewrite E. cbn.
  by apply list_lookup_alter_ne.
Qed.

Lemma mutate_mutate f g m : mutate f (mutate g m) = mutate (f ∘ g) m.
Proof.
  unfold mutate. destruct (currentSession m) as [a|] eqn:E.
  - cbn. by rewrite list_alter_alter_eq.
  - by rewrite E.
Qed.

Lemma mutate_ext f g m :
  (∀ s, current m = Some s → f s = g s) → mutate f m = mutate g m.
Proof.
  intros H. unfold mutate. destruct (currentSession m) as [a|] eqn:E; [|done].
  f_equal. apply list_alter_ext; [|done].
  intros x Hx. apply H. apply current_Some. eauto.
Qed.

Lemma mutate_id m : mutate (λ s, s) m = m.
Proof.
  unfold mutate. destruct m as [st [a|] wps]; cbn; [|done].
  f_equal. apply list_eq. intros i.
  rewrite list_lookup_alter. case_decide; subst; [|done].
  by destruct (st !! i).
Qed.

Lemma calculateStats_mutate m :
  calculateStats m = mutate (statsOf (waypoints m)) m.
Proof.
  unfold calculateStats. destruct (current m) as [s|] eqn:Hs.
  - unfold statsOf. destruct (length (waypoints m) <? 2)%nat.
    + by rewrite mutate_id.
    + destruct (Qgtb _ 0) eqn:Hd.
      * rewrite !mutate_mutate. apply mutate_ext. intros x Hx.
        assert (x = s) as -> by congruence. cbn. by rewrite Hd.
      * rewrite !mutate_mutate. apply mutate_ext. intros x Hx.
        assert (x = s) as -> by congruence. cbn. by rewrite Hd.
  - unfold mutate, current in *.
    destruct (currentSession m) as [a|] eqn:E; [|done]. cbn in Hs.
    destruct m as [st cs wps]; cbn in *. subst cs. f_equal.
    apply list_eq. intros i. rewrite list_lookup_alter.
    case_decide; subst; [by rewrite Hs | done].
Qed.

Lemma endSession_Some now trig m s :
  current m = Some s →
  endSession now trig m =
    Ok (statsOf (waypoints m) (set_end now trig (length (waypoints m)) s),
        mk (store (mutate (statsOf (waypoints m) ∘
                           set_end now trig (length (waypoints m))) m))
           None []).
Proof.
  intros Hs. unfold endSession. rewrite Hs.
  rewrite calculateStats_mutate, waypoints_mutate, mutate_mutate.
  by rewrite current_mutate, Hs.
Qed.

Lemma endSession_None now trig m :
  current m = None → endSession now trig m = Err "No session to end".
Proof. intros Hs. unfold endSession. by rewrite Hs. Qed.

End SessionManagerFacts.

Section SessionManagerSteps.

Import SessionManager.

Lemma isSessionActive_true m :
  isSessionActive m = true ↔ ∃ s, current m = Some s ∧ status s ≠ completed.
Proof.
  unfold isSessionActive. destruct (current m) as [s|].
  - rewrite negb_true_iff, SessionStatus_eqb_neq. split.
    + intros Hs. by exists s.
    + by intros (x & [= <-] & Hs).
  - split; [done | by intros (x & [=] & _)].
Qed.

Lemma startSession_busy sid now trig m :
  isSessionActive m = true →
  startSession sid now trig m =
    Err "Cannot start new session while one is active".
Proof. unfold startSession, isSessionActive. by intros ->. Qed.

Lemma startSession_free sid now trig m :
  isSessionActive m = false →
  startSession sid now trig m =
    Ok (length (store m),
        mk (store m ++
              [mkDriveSession sid now None active trig None 0%R 0%Q 0%R 0%Q 0%nat])
           (Some (length (store m))) []).
Proof. unfold startSession, isSessionActive. by intros ->. Qed.

Lemma current_startSession sid now trig m a m1 :
  startSession sid now trig m = Ok (a, m1) →
  isSessionActive m = false ∧
  current m1 =
    Some (mkDriveSession sid now None active trig None 0%R 0%Q 0%R 0%Q 0%nat) ∧
  waypoints m1 = [] ∧ a = length (store m) ∧ currentSession m1 = Some a.
Proof.
  destruct (isSessionActive m) eqn:E.
  - by rewrite startSession_busy.
  - rewrite startSession_free by done. intros [= <- <-].
    repeat split. unfold current. cbn.
    rewrite lookup_app_r by lia. by rewrite Nat.sub_diag.
Qed.

(** The three shapes of the state after [addWaypoint]. *)
Lemma addWaypoint_cases location m :
  (statusIsActive m = false ∧ addWaypoint location m = m) ∨
  (∃ s v, current m = Some s ∧ status s = active ∧
     addWaypoint location m =
       mutate (set_maxSpeed v)
         (mk (store m) (currentSession m)
             (waypoints m ++
                [mkWaypoint location (length (waypoints m) + 1)%nat (id s)]))).
Proof.
  unfold addWaypoint, statusIsActive, getCurrentSession.
  destruct (current m) as [s|] eqn:Hs; [|by left].
  destruct (SessionStatus_eqb (status s) active) eqn:Ha; [|by left].
  right. apply SessionStatus_eqb_eq in Ha.
  set (m1 := mk _ _ _).
  assert (Hid : m1 = mutate (set_maxSpeed (maxSpeed s)) m1).
  { assert (current m1 = Some s) as H1 by done.
    rewrite <- (mutate_id m1) at 1. apply mutate_ext.
    intros x Hx. assert (x = s) as -> by congruence. by destruct s. }
  destruct (speed location) as [v|]; [|by exists s, (maxSpeed s)].
  destruct (truthy v && Qgtb v (maxSpeed s)).
  - by exists s, v.
  - by exists s, (maxSpeed s).
Qed.

Lemma onlyCurrentOpen_init : onlyCurrentOpen init.
Proof. intros b s Hb. by destruct b. Qed.

Lemma onlyCurrentOpen_mutate f m :
  onlyCurrentOpen m → onlyCurrentOpen (mutate f m).
Proof.
  intros Hm b s Hb Hs. rewrite currentSession_mutate.
  destruct (currentSession m) as [a|] eqn:E.
  - destruct (decide (b = a)) as [->|Hne]; [done|].
    rewrite (store_mutate_other _ _ a) in Hb by done.
    rewrite <- E. eauto.
  - unfold mutate in Hb. rewrite E in Hb. rewrite <- E. eauto.
Qed.

Lemma onlyCurrentOpen_closed m st wps :
  onlyCurrentOpen m →
  (∀ s, current m = Some s → status s = completed) →
  st = store m →
  onlyCurrentOpen (mk st None wps).
Proof.
  intros Hm Hc -> b s Hb Hs. cbn in *. exfalso. apply Hs, Hc.
  apply current_Some. eauto.
Qed.

Lemma status_statsOf wps s : status (statsOf wps s) = status s.
Proof.
  unfold statsOf. destruct (length wps <? 2)%nat; [done|].
  by destruct (Qgtb _ 0).
Qed.

Lemma onlyCurrentOpen_step m op :
  onlyCurrentOpen m → onlyCurrentOpen (step m op).
Proof.
  intros Hm. unfold step, call. destruct op as [sid now trig| | |loc|now trig].
  - destruct (isSessionActive m) eqn:E.
    + by rewrite startSession_busy.
    + rewrite startSession_free by done. cbn.
      intros b s Hb Hs. cbn in *.
      destruct (decide (b < length (store m))%nat) as [Hlt|Hge].
      * rewrite lookup_app_l in Hb by done.
        pose proof (Hm b s Hb Hs) as Hcur.
        assert (isSessionActive m = true); [|congruence].
        apply isSessionActive_true. exists s. split; [|done].
        apply current_Some. eauto.
      * apply lookup_lt_Some in Hb as Hlen. rewrite length_app in Hlen.
        cbn in Hlen. f_equal. lia.
  - unfold pauseSession. destruct (current m) as [s|]; [|done].
    destruct (SessionStatus_eqb _ _); [|done]. by apply onlyCurrentOpen_mutate.
  - unfold resumeSession. destruct (current m) as [s|]; [|done].
    destruct (SessionStatus_eqb _ _); [|done]. by apply onlyCurrentOpen_mutate.
  - cbn. destruct (addWaypoint_cases loc m) as [[_ ->]|(s & v & _ & _ & ->)];
      [done|]. by apply onlyCurrentOpen_mutate.
  - destruct (current m) as [s|] eqn:Hs.
    + rewrite (endSession_Some _ _ _ s) by done. cbn.
      eapply onlyCurrentOpen_closed; [by apply onlyCurrentOpen_mutate| |done].
      intros x. rewrite current_mutate, Hs. intros [= <-]. cbn.
      by rewrite status_statsOf.
    + by rewrite endSession_None.
Qed.

Lemma onlyCurrentOpen_run ops m :
  onlyCurrentOpen m → onlyCurrentOpen (run ops m).
Proof.
  revert m. induction ops as [|op ops IH]; intros m Hm; [done|].
  cbn. apply IH. by apply onlyCurrentOpen_step.
Qed.

(** A list in which all the elements satisfying [P] sit at one index has
    at most one of them. *)
Lemma filter_at_most_one {A} (P : A → Prop) `{∀ x, Decision (P x)} (l : list A) :
  (∀ b c x y, l !! b = Some x → l !! c = Some y → P x → P y → b = c) →
  (length (filter P l) ≤ 1)%nat.
Proof.
  induction l as [|x l IH]; intros Huniq; [cbn; lia|].
  rewrite filter_cons. destruct (decide (P x)) as [Hx|Hx].
  - assert (filter P l = []) as ->; [|cbn; lia].
    destruct (filter P l) as [|y k] eqn:E; [done|]. exfalso.
    assert (y ∈ filter P l) as [HPy Hin]%list_elem_of_filter
      by (rewrite E; left).
    apply list_elem_of_lookup in Hin as [i Hy].
    by specialize (Huniq 0%nat (S i) x y eq_refl Hy Hx HPy).
  - apply IH. intros b c u v Hb Hc Hu Hv.
    by specialize (Huniq (S b) (S c) u v Hb Hc Hu Hv) as [= ->].
Qed.

Lemma nonCompleted_at_most_one m :
  onlyCurrentOpen m → (length (nonCompleted m) ≤ 1)%nat.
Proof.
  intros Hm. apply filter_at_most_one.
  intros b c x y Hb Hc Hx%SessionStatus_eqb_neq Hy%SessionStatus_eqb_neq.
  pose proof (Hm b x Hb Hx). pose proof (Hm c y Hc Hy). congruence.
Qed.

Lemma nonCompleted_nonempty m :
  onlyCurrentOpen m →
  nonCompleted m ≠ [] ↔ isSessionActive m = true.
Proof.
  intros Hm. rewrite isSessionActive_true. unfold nonCompleted. split.
  - intros Hne. destruct (filter _ _) as [|s l] eqn:E; [done|].
    assert (s ∈ filter (λ s, SessionStatus_eqb (status s) completed = false)
              (store m)) as Hin by (rewrite E; left).
    apply list_elem_of_filter in Hin as [Hs%SessionStatus_eqb_neq Hin].
    apply list_elem_of_lookup in Hin as [b Hb].
    exists s. split; [|done]. apply current_Some. eauto.
  - intros (s & (a & _ & Ha)%current_Some & Hs) E.
    eapply (filter_nil_not_elem_of _ _ s); [exact E| |].
    + by apply SessionStatus_eqb_neq.
    + apply list_elem_of_lookup. eauto.
Qed.

Lemma isSessionActive_step m op :
  isSessionActive m = true → isEndSession op = false →
  isSessionActive (step m op) = true.
Proof.
  intros Hact Hop. unfold step, call.
  destruct op as [sid now trig| | |loc|now trig]; [| | | |done].
  - by rewrite startSession_busy.
  - unfold pauseSession. destruct (current m) as [s|] eqn:Hs; [|done].
    destruct (SessionStatus_eqb _ _); [|done]. cbn.
    apply isSessionActive_true. rewrite current_mutate, Hs. by eexists.
  - unfold resumeSession. destruct (current m) as [s|] eqn:Hs; [|done].
    destruct (SessionStatus_eqb _ _); [|done]. cbn.
    apply isSessionActive_true. rewrite current_mutate, Hs. by eexists.
  - cbn. destruct (addWaypoint_cases loc m) as [[_ ->]|(s & v & Hs & Ha & ->)];
      [done|].
    apply isSessionActive_true. rewrite current_mutate.
    change (current (mk _ _ _)) with (current m). rewrite Hs.
    eexists. split; [done|]. cbn. by rewrite Ha.
Qed.

Lemma isSessionActive_run ops m :
  isSessionActive m = true → noEndSession ops = true →
  isSessionActive (run ops m) = true.
Proof.
  revert m. induction ops as [|op ops IH]; intros m Hact Hno; [done|].
  cbn in Hno. apply andb_true_iff in Hno as [Hop%negb_true_iff Hno].
  cbn. apply IH; [|done]. by apply isSessionActive_step.
Qed.

End SessionManagerSteps.

Section SessionLifecycle.

Import SessionManager.

Lemma sameRecord_refl s : sameRecord s s.
Proof. by repeat split. Qed.

Lemma sameRecord_trans s1 s2 s3 :
  sameRecord s1 s2 → sameRecord s2 s3 → sameRecord s1 s3.
Proof.
  unfold sameRecord. intros (?&?&?&?&?&?&?&?&?) (?&?&?&?&?&?&?&?&?).
  repeat split; congruence.
Qed.

Lemma ordinalIds_snoc wps w :
  ordinalIds wps → wp_id w = S (length wps) → ordinalIds (wps ++ [w]).
Proof.
  intros Hwps Hw i x Hx.
  destruct (decide (i < length wps)%nat) as [Hlt|Hge].
  - rewrite lookup_app_l in Hx by done. by apply Hwps.
  - apply lookup_lt_Some in Hx as Hlen. rewrite length_app in Hlen.
    cbn in Hlen. assert (i = length wps) as -> by lia.
    rewrite lookup_app_r, Nat.sub_diag in Hx by lia. by injection Hx as <-.
Qed.

(** One call other than [endSession] on a manager holding an open
    session. *)
Lemma step_open m op s :
  current m = Some s → status s ≠ completed → isEndSession op = false →
  ∃ s', current (step m op) = Some s' ∧ status s' ≠ completed ∧
        sameRecord s s' ∧
        wp_location <$> waypoints (step m op) =
          (wp_location <$> waypoints m) ++ acceptedSamples [op] m ∧
        (ordinalIds (waypoints m) → ordinalIds (waypoints (step m op))).
Proof.
  intros Hs Hopen Hop.
  assert (Hact : isSessionActive m = true)
    by (apply isSessionActive_true; eauto).
  unfold step, call. destruct op as [sid now trig| | |loc|now trig]; [| | | |done].
  - rewrite startSession_busy by done. cbn. exists s.
    rewrite app_nil_r. eauto using sameRecord_refl.
  - unfold pauseSession. rewrite Hs. cbn [acceptedSamples].
    rewrite app_nil_r.
    destruct (SessionStatus_eqb _ _); cbn [snd];
      [|by eauto 10 using sameRecord_refl].
    exists (set_status paused s). rewrite current_mutate, Hs, waypoints_mutate.
    by repeat split.
  - unfold resumeSession. rewrite Hs. cbn [acceptedSamples].
    rewrite app_nil_r.
    destruct (SessionStatus_eqb _ _); cbn [snd];
      [|by eauto 10 using sameRecord_refl].
    exists (set_status active s). rewrite current_mutate, Hs, waypoints_mutate.
    by repeat split.
  - cbn [snd acceptedSamples].
    destruct (addWaypoint_cases loc m) as [[Hna ->]|(x & v & Hx & Ha & ->)].
    + rewrite Hna, app_nil_r. eauto 10 using sameRecord_refl.
    + assert (x = s) as -> by congruence.
      assert (statusIsActive m = true) as ->.
      { unfold statusIsActive, getCurrentSession. rewrite Hs.
        by apply SessionStatus_eqb_eq. }
      exists (set_maxSpeed v s). rewrite current_mutate, waypoints_mutate.
      change (current (mk _ _ _)) with (current m). rewrite Hs. cbn.
      rewrite fmap_app. repeat split; [by rewrite Ha|].
      intros Hord. apply ordinalIds_snoc; [done|]. cbn. lia.
Qed.

(** Any number of calls other than [endSession]. *)
Lemma run_open ops : ∀ m s,
  current m = Some s → status s ≠ completed → noEndSession ops = true →
  ∃ s', current (run ops m) = Some s' ∧ status s' ≠ completed ∧
        sameRecord s s' ∧
        wp_location <$> waypoints (run ops m) =
          (wp_location <$> waypoints m) ++ acceptedSamples ops m ∧
        (ordinalIds (waypoints m) → ordinalIds (waypoints (run ops m))).
Proof.
  induction ops as [|op ops IH]; intros m s Hs Hopen Hno.
  - exists s. cbn. rewrite app_nil_r. eauto using sameRecord_refl.
  - cbn in Hno. apply andb_true_iff in Hno as [Hop%negb_true_iff Hno].
    destruct (step_open m op s Hs Hopen Hop)
      as (s1 & Hs1 & Hopen1 & Hsame1 & Hwps1 & Hord1).
    destruct (IH (step m op) s1 Hs1 Hopen1 Hno)
      as (s2 & Hs2 & Hopen2 & Hsame2 & Hwps2 & Hord2).
    exists s2. change (run (op :: ops) m) with (run ops (step m op)).
    split; [done|]. split; [done|].
    split; [by eapply sameRecord_trans|]. split; [|by auto].
    rewrite Hwps2, Hwps1, <- app_assoc. f_equal.
    cbn. destruct op; try done. by destruct (statusIsActive m).
Qed.

Lemma distanceLoop_sum rest : ∀ acc prev,
  distanceLoop acc prev rest =
  (acc + consecutiveDistances (wp_location <$> prev :: rest))%R.
Proof.
  induction rest as [|w rest IH]; intros acc prev.
  - cbn. lra.
  - cbn [distanceLoop]. rewrite IH.
    change (wp_location <$> prev :: w :: rest)
      with (wp_location prev :: (wp_location <$> w :: rest)).
    cbn [consecutiveDistances fmap list_fmap]. lra.
Qed.

Lemma sumDistances_consecutive wps :
  sumDistances wps = consecutiveDistances (wp_location <$> wps).
Proof.
  destruct wps as [|w rest]; [done|].
  unfold sumDistances. rewrite distanceLoop_sum. lra.
Qed.

End SessionLifecycle.

(** ** Properties of the session manager *)

(** C1.  After any sequence of [startSession], [pauseSession],
    [resumeSession], [addWaypoint] and [endSession] calls on a fresh
    manager: at most one session object is not completed; [startSession]
    throws (its only error) exactly when such a session exists; when none
    exists it succeeds, and from then on every further [startSession]
    throws as long as no [endSession] is called; and a successful
    [endSession] leaves no open session behind, so the next
    [startSession] succeeds again. *)
Theorem single_open_session (ops : list Op) :
  let m := run ops SessionManager.init in
  (length (nonCompleted m) ≤ 1)%nat ∧
  (∀ sid now trigger,
     SessionManager.startSession sid now trigger m =
       Err "Cannot start new session while one is active"
     ↔ nonCompleted m ≠ []) ∧
  (∀ sid now trigger,
     nonCompleted m = [] →
     ∃ a m1,
       SessionManager.startSession sid now trigger m = Ok (a, m1) ∧
       ∀ ops' sid' now' trigger',
         noEndSession ops' = true →
         SessionManager.startSession sid' now' trigger' (run ops' m1) =
           Err "Cannot start new session while one is active") ∧
  (∀ now trigger c m',
     SessionManager.endSession now trigger m = Ok (c, m') →
     nonCompleted m' = []).
Proof.
  intros m.
  assert (Hm : onlyCurrentOpen m)
    by apply onlyCurrentOpen_run, onlyCurrentOpen_init.
  split; [by apply nonCompleted_at_most_one|].
  split; [|split].
  - intros sid now trigger. rewrite nonCompleted_nonempty by done.
    destruct (SessionManager.isSessionActive m) eqn:E.
    + by rewrite startSession_busy.
    + by rewrite startSession_free.
  - intros sid now trigger Hnone.
    assert (E : SessionManager.isSessionActive m = false).
    { destruct (SessionManager.isSessionActive m) eqn:E; [|done].
      by apply nonCompleted_nonempty in E. }
    rewrite startSession_free by done. do 2 eexists. split; [done|].
    intros ops' sid' now' trigger' Hno.
    apply startSession_busy, isSessionActive_run; [|done].
    apply isSessionActive_true. eexists. split.
    + unfold SessionManager.current. cbn.
      rewrite lookup_app_r by lia. by rewrite Nat.sub_diag.
    + done.
  - intros now trigger c m' Hend.
    assert (Hm' : onlyCurrentOpen m').
    { pose proof (onlyCurrentOpen_step m (EndSession now trigger) Hm) as H.
      unfold step, call in H. by rewrite Hend in H. }
    destruct (nonCompleted m') as [|s l] eqn:E; [done|]. exfalso.
    assert (Hne : nonCompleted m' ≠ []) by by rewrite E.
    apply nonCompleted_nonempty in Hne; [|done].
    destruct (SessionManager.current m) as [s0|] eqn:Hs0.
    + rewrite (endSession_Some _ _ _ s0) in Hend by done.
      by injection Hend as _ <-.
    + by rewrite endSession_None in Hend.
Qed.

(** C1, the instance of the specification: two [startSession] calls in a
    row on a fresh manager. *)
Example startSession_twice :
  let first :=
    SessionManager.startSession "a" 1 TriggerManual SessionManager.init in
  isOk first = true ∧
  ∀ a m1, first = Ok (a, m1) →
    SessionManager.startSession "b" 2 TriggerManual m1 =
      Err "Cannot start new session while one is active".
Proof. split; [done|]. by intros a m1 [= <- <-]. Qed.

(** C7.  For a session begun by a successful [startSession] and followed
    by any calls other than [endSession], [endSession] succeeds and the
    session it returns is that session, with [waypointCount] the number of
    [addWaypoint] calls made while the status was exactly [active]; the
    waypoints kept are the samples of exactly those calls, in order, with
    ids 1, 2, 3, ....  A single [addWaypoint] changes nothing when no
    session with status [active] is current, and otherwise appends one
    waypoint whose id is the previous count plus one. *)
Theorem waypointCount_counts_accepted
    sid now trigger m a m1 (ops : list Op) now' trigger' :
  SessionManager.startSession sid now trigger m = Ok (a, m1) →
  noEndSession ops = true →
  (∃ c m',
     SessionManager.endSession now' trigger' (run ops m1) = Ok (c, m') ∧
     id c = sid ∧
     waypointCount c = length (acceptedSamples ops m1)) ∧
  wp_location <$> SessionManager.waypoints (run ops m1) =
    acceptedSamples ops m1 ∧
  ordinalIds (SessionManager.waypoints (run ops m1)) ∧
  (∀ location m0,
     if statusIsActive m0 then
       ∃ w, SessionManager.waypoints (SessionManager.addWaypoint location m0) =
              SessionManager.waypoints m0 ++ [w] ∧
            wp_location w = location ∧
            wp_id w = (length (SessionManager.waypoints m0) + 1)%nat
     else SessionManager.addWaypoint location m0 = m0).
Proof.
  intros Hstart Hno.
  apply current_startSession in Hstart as (_ & Hs & Hw & _ & _).
  destruct (run_open ops m1 _ Hs) as (s' & Hs' & _ & Hsame & Hwps & Hord);
    [done|done|].
  rewrite Hw in Hwps, Hord. cbn in Hwps.
  split; [|split; [done|split]].
  - rewrite (endSession_Some _ _ _ s') by done. do 2 eexists.
    split; [done|]. split.
    + unfold statsOf. destruct (_ <? 2)%nat; [by apply Hsame|].
      destruct (Qgtb _ 0); by apply Hsame.
    + rewrite <- Hwps, length_fmap. unfold statsOf.
      destruct (_ <? 2)%nat; [done|]. by destruct (Qgtb _ 0).
  - apply Hord. intros i w Hi. by destruct i.
  - intros location m0.
    destruct (addWaypoint_cases location m0)
      as [[-> ->]|(s & v & Hs0 & Ha & ->)]; [done|].
    assert (statusIsActive m0 = true) as ->.
    { unfold statusIsActive, SessionManager.getCurrentSession. rewrite Hs0.
      by apply SessionStatus_eqb_eq. }
    rewrite waypoints_mutate. cbn. by eexists.
Qed.

Lemma waypointCount_counts_accepted_witness :
  let m1 :=
    SessionManager.mk
      [mkDriveSession "s" 0 None active TriggerManual None 0%R 0%Q 0%R 0%Q 0%nat]
      (Some 0%nat) [] in
  let ops :=
    [AddWaypoint (sample 1000 6); PauseSession; AddWaypoint (sample 2000 7);
     ResumeSession; AddWaypoint (sample 3000 8)] in
  (∃ c m',
     SessionManager.endSession 9000 TriggerManual (run ops m1) = Ok (c, m') ∧
     id c = "s" ∧
     waypointCount c = length (acceptedSamples ops m1)) ∧
  length (acceptedSamples ops m1) = 2%nat.
Proof.
  intros m1 ops. split; [|reflexivity].
  apply (waypointCount_counts_accepted
           "s" 0 TriggerManual SessionManager.init 0%nat m1 ops 9000
           TriggerManual); reflexivity.
Defined.

(** The distance formula is the haversine one on a sphere of radius
    6371 km: it vanishes between a position and itself and does not depend
    on the direction of travel. *)
Lemma Q2R_diff_self q : Q2R (q - q) = 0%R.
Proof. rewrite Q2R_minus. lra. Qed.

Lemma haversineDistance_self p : SessionManager.haversineDistance p p = 0%R.
Proof.
  unfold SessionManager.haversineDistance, SessionManager.toRadians.
  rewrite !Q2R_diff_self.
  replace (0 * PI / 180 / 2)%R with 0%R by lra.
  rewrite sin_0, !Rmult_0_r, Rplus_0_r, Rminus_0_r, sqrt_0, sqrt_1.
  unfold SessionManager.atan2.
  destruct (Rlt_dec 0 1) as [_|H]; [|lra].
  replace (0 / 1)%R with 0%R by lra. rewrite atan_0. lra.
Qed.

Lemma haversineDistance_sym p q :
  SessionManager.haversineDistance p q = SessionManager.haversineDistance q p.
Proof.
  unfold SessionManager.haversineDistance, SessionManager.toRadians.
  assert (Hsq : ∀ x y, (sin (Q2R (x - y) * PI / 180 / 2) *
                         sin (Q2R (x - y) * PI / 180 / 2) =
                         sin (Q2R (y - x) * PI / 180 / 2) *
                         sin (Q2R (y - x) * PI / 180 / 2))%R).
  { intros x y. rewrite !Q2R_minus.
    replace ((Q2R x - Q2R y) * PI / 180 / 2)%R
      with (- ((Q2R y - Q2R x) * PI / 180 / 2))%R by lra.
    rewrite sin_neg. lra. }
  rewrite (Hsq (latitude q) (latitude p)).
  rewrite !Rmult_assoc.
  rewrite (Hsq (longitude q) (longitude p)).
  rewrite <- !Rmult_assoc.
  rewrite (Rmult_comm (cos (Q2R (latitude p) * PI / 180))).
  reflexivity.
Qed.

(** What does hold of C6, in exact arithmetic.  For a session begun by a
    successful [startSession] at time [now] and followed by any calls
    other than [endSession], [endSession] at time [now'] succeeds,
    whatever the number of waypoints.  With two or
    more waypoints the session returned has [totalDuration] =
    ([now'] - [now]) / 1000 seconds, [totalDistance] = the sum of the
    haversine distances between consecutive accepted samples in arrival
    order, and [averageSpeed] = [totalDistance] / [totalDuration] when the
    duration is positive and 0 otherwise; with fewer than two waypoints
    the three fields are still 0. *)
Theorem endSession_statistics
    sid now trigger m a m1 (ops : list Op) now' trigger' :
  SessionManager.startSession sid now trigger m = Ok (a, m1) →
  noEndSession ops = true →
  let positions := acceptedSamples ops m1 in
  ∃ c m',
    SessionManager.endSession now' trigger' (run ops m1) = Ok (c, m') ∧
    startTime c = now ∧ endTime c = Some now' ∧ status c = completed ∧
    wp_location <$> SessionManager.waypoints (run ops m1) = positions ∧
    if (2 <=? length positions)%nat then
      totalDuration c = (inject_Z (now' - now) / 1000)%Q ∧
      totalDistance c = consecutiveDistances positions ∧
      averageSpeed c =
        (if Qgtb (totalDuration c) 0
         then totalDistance c / Q2R (totalDuration c) else 0)%R
    else
      totalDistance c = 0%R ∧ totalDuration c = 0%Q ∧ averageSpeed c = 0%R.
Proof.
  intros Hstart Hno positions.
  apply current_startSession in Hstart as (_ & Hs & Hw & _ & _).
  destruct (run_open ops m1 _ Hs) as (s' & Hs' & _ & Hsame & Hwps & _);
    [done|done|].
  rewrite Hw in Hwps. cbn in Hwps. fold positions in Hwps.
  destruct Hsame as (_ & Hst & _ & _ & _ & Hdist & Hdur & Havg & _).
  cbn in Hst, Hdist, Hdur, Havg.
  rewrite (endSession_Some _ _ _ s') by done. do 2 eexists.
  split; [done|].
  assert (Hlen : length (SessionManager.waypoints (run ops m1)) =
                 length positions)
    by (by rewrite <- Hwps, length_fmap).
  unfold statsOf. rewrite Hlen.
  destruct (length positions <? 2)%nat eqn:Hlt.
  - apply Nat.ltb_lt in Hlt.
    assert ((2 <=? length positions)%nat = false) as ->
      by (apply Nat.leb_gt; lia).
    by repeat split.
  - apply Nat.ltb_ge in Hlt.
    assert ((2 <=? length positions)%nat = true) as ->
      by (apply Nat.leb_le; lia).
    cbn [endTime startTime SessionManager.set_end].
    rewrite Hst, sumDistances_consecutive, Hwps.
    destruct (Qgtb (inject_Z (now' - now) / 1000) 0) eqn:Hd.
    + cbn. rewrite Hd. by repeat split.
    + cbn. rewrite Hd. by repeat split.
Qed.

(** The two-waypoint trip of the specification: (0, 0) then (0, 0.01),
    ended 100 s after it started. *)
Lemma endSession_statistics_witness :
  let m1 :=
    SessionManager.mk
      [mkDriveSession "s" 0 None active TriggerManual None 0%R 0%Q 0%R 0%Q 0%nat]
      (Some 0%nat) [] in
  let p0 := mkLocationData 0 0 None None (Some 11%Q) None 1000 in
  let p1 := mkLocationData 0 (1 # 100) None None (Some 11%Q) None 99000 in
  let ops := [AddWaypoint p0; AddWaypoint p1] in
  ∃ c m',
    SessionManager.endSession 100000 TriggerManual (run ops m1) = Ok (c, m') ∧
    startTime c = 0 ∧ endTime c = Some 100000 ∧ status c = completed ∧
    wp_location <$> SessionManager.waypoints (run ops m1) = [p0; p1] ∧
    totalDuration c = (inject_Z (100000 - 0) / 1000)%Q ∧
    totalDistance c = consecutiveDistances [p0; p1] ∧
    averageSpeed c =
      (if Qgtb (totalDuration c) 0
       then totalDistance c / Q2R (totalDuration c) else 0)%R.
Proof.
  intros m1 p0 p1 ops.
  exact (endSession_statistics
           "s" 0 TriggerManual SessionManager.init 0%nat m1 ops 100000
           TriggerManual eq_refl eq_refl).
Defined.

(** In exact arithmetic: at two opposite points [a] is 1 and the
    distance is half the circumference. *)
Lemma antipodes_exact t t' :
  let p := mkLocationData 8 0 None None None None t in
  let q := mkLocationData (-8) 180 None None None None t' in
  haversineA p q = 1%R ∧
  SessionManager.haversineDistance p q = (6371000 * PI)%R.
Proof.
  intros p q.
  assert (Ha : haversineA p q = 1%R).
  { unfold haversineA, SessionManager.toRadians. subst p q.
    cbn [latitude longitude].
    change (-8 - 8)%Q with (-16)%Q. change (180 - 0)%Q with 180%Q.
    replace (Q2R (-16) * PI / 180 / 2)%R with (- (Q2R 8 * PI / 180))%R
      by (unfold Q2R; cbn [Qnum Qden]; lra).
    replace (Q2R (-8) * PI / 180)%R with (- (Q2R 8 * PI / 180))%R
      by (unfold Q2R; cbn [Qnum Qden]; lra).
    replace (Q2R 180 * PI / 180 / 2)%R with (PI / 2)%R
      by (unfold Q2R; cbn [Qnum Qden]; lra).
    rewrite sin_neg, cos_neg, sin_PI2.
    pose proof (sin2_cos2 (Q2R 8 * PI / 180)) as H. unfold Rsqr in H. lra. }
  split; [exact Ha|].
  change (SessionManager.haversineDistance p q)
    with (6371000 *
          (2 * SessionManager.atan2 (sqrt (haversineA p q))
                 (sqrt (1 - haversineA p q))))%R.
  rewrite Ha, sqrt_1. replace (1 - 1)%R with 0%R by lra. rewrite sqrt_0.
  unfold SessionManager.atan2.
  destruct (Rlt_dec 0 0); [lra|].
  destruct (Rlt_dec 0 1); lra.
Qed.

Section Antipodes.

Import Floats.

(** C6, where the code departs from it.  Two waypoints at (8, 0) and
    (-8, 180) lie opposite each other on the sphere: their great-circle
    distance is half the circumference, [PI] times 6371000 m.  That is
    what the formula of [haversineDistance] gives in exact arithmetic,
    where its [a] is exactly 1 and [1 - a] exactly 0.  In doubles, with
    [Math.sin] and [Math.cos] returning the doubles nearest to the sines
    and cosines asked for, [a] is the next double above 1, [1 - a] is
    negative, its square root is [NaN], and so are the distance and, for
    a session of these two waypoints ended after 100 s, [totalDistance]
    and [averageSpeed]. *)
Theorem antipodal_waypoints Math_sin Math_cos Math_atan2 :
  Math_sin (- 0x1.1df46a2529d39p-3)%float = (- 0x1.1d06c968d9e19p-3)%float →
  Math_sin 0x1.921fb54442d18p+0%float = 1%float →
  Math_cos 0x1.1df46a2529d39p-3%float = 0x1.fb046a930947ap-1%float →
  Math_cos (- 0x1.1df46a2529d39p-3)%float = 0x1.fb046a930947ap-1%float →
  (∀ y, Math_atan2 y nan = nan) →
  Doubles.haversineDistance Math_sin Math_cos Math_atan2
    (8, 0)%float (-8, 180)%float = nan ∧
  Doubles.calculateStats Math_sin Math_cos Math_atan2 0%float 100000%float
    [(8, 0)%float; (-8, 180)%float] (0, 0, 0)%float = (100, nan, nan)%float ∧
  (∀ t t',
     let p := mkLocationData 8 0 None None None None t in
     let q := mkLocationData (-8) 180 None None None None t' in
     haversineA p q = 1%R ∧
     SessionManager.haversineDistance p q = (6371000 * PI)%R).
Proof.
  intros Hsin Hsin' Hcos Hcos' Hnan.
  assert (Hd : Doubles.haversineDistance Math_sin Math_cos Math_atan2
                 (8, 0)%float (-8, 180)%float = nan).
  { unfold Doubles.haversineDistance. vm_compute.
    rewrite Hsin, Hsin', Hcos, Hcos'. vm_compute.
    rewrite Hnan. reflexivity. }
  split; [exact Hd|]. split.
  - unfold Doubles.calculateStats. cbn [Doubles.distanceLoop].
    rewrite Hd. reflexivity.
  - apply antipodes_exact.
Qed.

(** An engine: a sine and a cosine with these four values, and an
    arc tangent that is [NaN] on a [NaN]. *)
Lemma antipodal_waypoints_witness :
  let Math_sin x :=
    (if x =? 0x1.921fb54442d18p+0 then 1 else - 0x1.1d06c968d9e19p-3)%float in
  let Math_cos (x : float) := 0x1.fb046a930947ap-1%float in
  let Math_atan2 (y x : float) := (if is_nan x then nan else 0)%float in
  Doubles.haversineDistance Math_sin Math_cos Math_atan2
    (8, 0)%float (-8, 180)%float = nan ∧
  Doubles.calculateStats Math_sin Math_cos Math_atan2 0%float 100000%float
    [(8, 0)%float; (-8, 180)%float] (0, 0, 0)%float = (100, nan, nan)%float.
Proof.
  intros Math_sin Math_cos Math_atan2.
  destruct (antipodal_waypoints Math_sin Math_cos Math_atan2
              eq_refl eq_refl eq_refl eq_refl (λ y, eq_refl))
    as (H1 & H2 & _).
  exact (conj H1 H2).
Defined.

End Antipodes.

(** C10.  [endSession] throws exactly when there is no current session,
    and otherwise succeeds and clears the manager, whatever the status of
    the session; a paused session is ended with the very result, and the
    very state left behind, that ending it after [resumeSession] gives.
    [pauseSession] and [resumeSession], when they succeed, change the
    status of the current session object and nothing else: not its other
    fields, not the waypoints, not any other object. *)
Theorem endSession_paused_and_status_only :
  (∀ now trigger m,
     match SessionManager.getCurrentSession m with
     | None =>
         SessionManager.endSession now trigger m = Err "No session to end"
     | Some s =>
         ∃ c m', SessionManager.endSession now trigger m = Ok (c, m') ∧
                 SessionManager.currentSession m' = None ∧
                 SessionManager.waypoints m' = [] ∧
                 c = statsOf (SessionManager.waypoints m)
                       (SessionManager.set_end now trigger
                          (length (SessionManager.waypoints m)) s)
     end) ∧
  (∀ now trigger m resumed,
     SessionManager.resumeSession m = Ok resumed →
     SessionManager.endSession now trigger m =
       SessionManager.endSession now trigger resumed ∧
     isOk (SessionManager.endSession now trigger m) = true) ∧
  (∀ m m',
     SessionManager.pauseSession m = Ok m' ∨
     SessionManager.resumeSession m = Ok m' →
     ∃ a s s',
       SessionManager.currentSession m = Some a ∧
       SessionManager.store m !! a = Some s ∧
       SessionManager.store m' !! a = Some s' ∧
       sameRecord s s' ∧ maxSpeed s' = maxSpeed s ∧
       SessionManager.currentSession m' = Some a ∧
       SessionManager.waypoints m' = SessionManager.waypoints m ∧
       length (SessionManager.store m') = length (SessionManager.store m) ∧
       ∀ b, b ≠ a → SessionManager.store m' !! b = SessionManager.store m !! b).
Proof.
  split; [|split].
  - intros now trigger m. unfold SessionManager.getCurrentSession.
    destruct (SessionManager.current m) as [s|] eqn:Hs.
    + rewrite (endSession_Some _ _ _ s) by done. by do 2 eexists.
    + by apply endSession_None.
  - intros now trigger m resumed Hres.
    unfold SessionManager.resumeSession in Hres.
    destruct (SessionManager.current m) as [s|] eqn:Hs; [|done].
    destruct (SessionStatus_eqb _ _); [|done]. injection Hres as <-.
    rewrite (endSession_Some _ _ _ s) by done.
    rewrite (endSession_Some _ _ _ (SessionManager.set_status active s))
      by (by rewrite current_mutate, Hs).
    rewrite waypoints_mutate, mutate_mutate. by split.
  - assert (Hset : ∀ st m m' s,
              SessionManager.current m = Some s →
              m' = SessionManager.mutate (SessionManager.set_status st) m →
              ∃ a s0 s',
                SessionManager.currentSession m = Some a ∧
                SessionManager.store m !! a = Some s0 ∧
                SessionManager.store m' !! a = Some s' ∧
                sameRecord s0 s' ∧ maxSpeed s' = maxSpeed s0 ∧
                SessionManager.currentSession m' = Some a ∧
                SessionManager.waypoints m' = SessionManager.waypoints m ∧
                length (SessionManager.store m') =
                  length (SessionManager.store m) ∧
                ∀ b, b ≠ a →
                  SessionManager.store m' !! b = SessionManager.store m !! b).
    { intros st m m' s (a & Ha & Hsa)%current_Some ->.
      exists a, s, (SessionManager.set_status st s).
      rewrite currentSession_mutate, waypoints_mutate.
      unfold SessionManager.mutate. rewrite Ha. cbn.
      rewrite list_lookup_alter_eq, Hsa, length_alter.
      repeat split; try done.
      intros b Hb. by apply list_lookup_alter_ne. }
    intros m m' [H|H].
    + unfold SessionManager.pauseSession in H.
      destruct (SessionManager.current m) as [s|] eqn:Hs; [|done].
      destruct (SessionStatus_eqb _ _); [|done]. injection H as <-.
      by eapply Hset.
    + unfold SessionManager.resumeSession in H.
      destruct (SessionManager.current m) as [s|] eqn:Hs; [|done].
      destruct (SessionStatus_eqb _ _); [|done]. injection H as <-.
      by eapply Hset.
Qed.

(** C10, an instance: a session paused after two waypoints and never
    resumed is completed by [endSession]. *)
Example endSession_on_paused_session :
  let m :=
    run [StartSession "s" 0 TriggerManual; AddWaypoint (sample 1000 6);
         AddWaypoint (sample 2000 7); PauseSession; AddWaypoint (sample 3000 8)]
        SessionManager.init in
  status <$> SessionManager.getCurrentSession m = Some paused ∧
  ∃ c m',
    SessionManager.endSession 5000 TriggerManual m = Ok (c, m') ∧
    status c = completed ∧ waypointCount c = 2%nat ∧
    Qeq_bool (totalDuration c) 5 = true ∧ Qeq_bool (maxSpeed c) 7 = true ∧
    SessionManager.getCurrentSession m' = None ∧
    SessionManager.waypoints m' = [].
Proof.
  intros m. split; [reflexivity|]. do 2 eexists.
  split; [reflexivity|]. by repeat split.
Qed.

(** * The driving detector *)

Section DrivingDetectorFacts.

Import DrivingDetector.

(** The moving branch of [processLocation]. *)
Lemma processLocation_moving now l d :
  Qgeb (speedOr0 l) (minSpeed (conditions d)) = true →
  let start :=
    if unset (drivingStartTime d) then timestamp l
    else default 0 (drivingStartTime d) in
  state (processLocation now l d).2 =
    (if Qgeb (seconds (timestamp l) start) (minDuration (conditions d))
     then driving
     else if unset (drivingStartTime d) then detecting else state d) ∧
  drivingStartTime (processLocation now l d).2 = Some start ∧
  stationaryStartTime (processLocation now l d).2 = None ∧
  conditions (processLocation now l d).2 = conditions d ∧
  r_state (processLocation now l d).1 = state (processLocation now l d).2.
Proof.
  intros Hmove. unfold processLocation. rewrite Hmove. cbn.
  destruct (unset (drivingStartTime d)); cbn;
    destruct (Qgeb _ (minDuration _)); done.
Qed.

(** The branch of a sample below [minSpeed]: the driving-start marker is
    left as it is. *)
Lemma processLocation_slow now l d :
  Qgeb (speedOr0 l) (minSpeed (conditions d)) = false →
  drivingStartTime (processLocation now l d).2 = drivingStartTime d ∧
  conditions (processLocation now l d).2 = conditions d.
Proof. intros Hslow. unfold processLocation. by rewrite Hslow. Qed.

Lemma seconds_mono t t' t0 : t ≤ t' → (seconds t t0 <= seconds t' t0)%Q.
Proof.
  intros Hle. unfold seconds. apply Qmult_le_compat_r.
  - rewrite <- Zle_Qle. lia.
  - done.
Qed.

Lemma Qgeb_seconds_mono t t' t0 q :
  t ≤ t' → Qgeb (seconds t t0) q = true → Qgeb (seconds t' t0) q = true.
Proof.
  unfold Qgeb. rewrite !Qle_bool_iff. intros Hle Hq.
  eapply Qle_trans; [exact Hq|]. by apply seconds_mono.
Qed.

(** Once the marker is set at a non-zero [t0], sustained motion is
    reported as the specification expects. *)
Lemma feed_sustained samples : ∀ d t0 tprev,
  drivingStartTime d = Some t0 → t0 ≠ 0 →
  state d = (if Qgeb (seconds tprev t0) (minDuration (conditions d))
             then driving else detecting) →
  sustained (conditions d) tprev samples = true →
  (feed samples d).1 = expectedState (conditions d) t0 <$> samples.*2.
Proof.
  induction samples as [|[now l] rest IH]; intros d t0 tprev Hmark Ht0 Hst Hsus;
    [done|].
  cbn in Hsus. apply andb_true_iff in Hsus as [Hsus Hrest].
  apply andb_true_iff in Hsus as [Hmove Hle%Z.leb_le].
  destruct (processLocation_moving now l d Hmove)
    as (Hst' & Hmark' & _ & Hc & Hres).
  cbn [feed]. remember (processLocation now l d) as p eqn:E.
  destruct p as [res d'].
  rewrite Hmark in Hst', Hmark'. cbn in Hst', Hmark'.
  apply Z.eqb_neq in Ht0 as Ht0'. rewrite Ht0' in Hst', Hmark'.
  cbn in Hmark', Hc, Hres.
  specialize (IH d' t0 (timestamp l) Hmark' Ht0).
  rewrite Hc in IH.
  assert (Hd' : state d' = expectedState (conditions d) t0 l).
  { rewrite Hst'. unfold expectedState.
    destruct (Qgeb (seconds (timestamp l) t0) _) eqn:Hq; [done|].
    rewrite Hst.
    destruct (Qgeb (seconds tprev t0) _) eqn:Hp; [|done].
    by rewrite (Qgeb_seconds_mono _ _ _ _ Hle Hp) in Hq. }
  specialize (IH Hd' Hrest).
  destruct (feed rest d') as [states d'']. cbn in IH. cbn.
  by rewrite Hres, Hd', IH.
Qed.

End DrivingDetectorFacts.

(** X29.  What does hold of C2: on a detector just created or reset, for
    a stream in which every sample is at or above [minSpeed], whose
    timestamps never go back and whose first timestamp [t0] is not 0, the
    state reported at a sample is [driving] exactly when the sample is at
    least [minDuration] seconds after [t0], and [detecting] before. *)
Theorem sustained_from_fresh c now0 l0 rest :
  timestamp l0 ≠ 0 →
  sustained c (timestamp l0) ((now0, l0) :: rest) = true →
  (feed ((now0, l0) :: rest) (DrivingDetector.create c)).1 =
    expectedState c (timestamp l0) <$> l0 :: rest.*2.
Proof.
  intros Ht0 Hsus. cbn in Hsus.
  apply andb_true_iff in Hsus as [Hsus Hrest].
  apply andb_true_iff in Hsus as [Hmove _].
  destruct (processLocation_moving now0 l0 (DrivingDetector.create c) Hmove)
    as (Hst' & Hmark' & _ & Hc & Hres).
  cbn [feed].
  remember (DrivingDetector.processLocation now0 l0 _) as p eqn:E.
  destruct p as [res d'].
  cbn in Hst', Hmark', Hc, Hres.
  pose proof (feed_sustained rest d' (timestamp l0) (timestamp l0) Hmark' Ht0)
    as IH.
  rewrite Hc in IH. specialize (IH Hst' Hrest).
  destruct (feed rest d') as [states d'']. cbn in IH. cbn.
  by rewrite Hres, Hst', IH.
Qed.

Lemma sustained_from_fresh_witness :
  (feed (live [sample 1000 6; sample 31000 6; sample 61000 6; sample 71000 7])
        freshDetector).1 =
  [detecting; detecting; driving; driving].
Proof.
  exact (sustained_from_fresh DrivingDetector.defaultConditions 1000
           (sample 1000 6)
           (live [sample 31000 6; sample 61000 6; sample 71000 7])
           ltac:(discriminate) eq_refl).
Defined.

(** C2, where the code departs from it.  On a fresh detector with the
    default thresholds (5 m/s, 60 s):

    - samples at 1 s (6 m/s), at 2 s, 50 s and 99 s (0 m/s) and at 100 s
      (6 m/s): the motion sustained to the end of the stream starts at
      100 s, later than the sample of 99 s, and the state reported at
      that very sample is already [driving], because the marker set at
      1 s was never cleared;
    - samples every 10 s from timestamp 0 to 60 s, all at 6 m/s: the
      marker 0 reads as unset, is set again at 10 s, and the state at 60 s
      is still [detecting]. *)
Theorem driving_before_sustained_motion :
  (feed (live [sample 1000 6; sample 2000 0; sample 50000 0; sample 99000 0;
               sample 100000 6])
        freshDetector).1
    = [detecting; detecting; detecting; detecting; driving] ∧
  Qgeb (DrivingDetector.speedOr0 (sample 99000 0))
       (minSpeed DrivingDetector.defaultConditions) = false ∧
  sustained DrivingDetector.defaultConditions 100000
    (live [sample 100000 6]) = true ∧
  expectedState DrivingDetector.defaultConditions 100000 (sample 100000 6)
    = detecting ∧
  (feed (live [sample 0 6; sample 10000 6; sample 20000 6; sample 30000 6;
               sample 40000 6; sample 50000 6; sample 60000 6])
        freshDetector).1
    = [detecting; detecting; detecting; detecting; detecting; detecting;
       detecting] ∧
  sustained DrivingDetector.defaultConditions 0
    (live [sample 0 6; sample 10000 6; sample 20000 6; sample 30000 6;
           sample 40000 6; sample 50000 6; sample 60000 6]) = true ∧
  expectedState DrivingDetector.defaultConditions 0 (sample 60000 6) = driving.
Proof. by vm_compute. Qed.

(** C3, where the code departs from it.  In state [stationary] a sample at
    or above [minSpeed] is answered from the marker as it stands: if the
    marker is set (not null, not 0) and at least [minDuration] seconds
    old, the state is [driving] at once, with the old marker kept; if it
    is set and younger, the state stays [stationary]; only if it is unset
    does the detector set it at this sample and report [detecting] (or
    [driving], when [minDuration] is not positive). *)
Theorem stationary_then_moving now l d :
  DrivingDetector.state d = stationary →
  Qgeb (DrivingDetector.speedOr0 l) (minSpeed (DrivingDetector.conditions d))
    = true →
  let d' := (DrivingDetector.processLocation now l d).2 in
  r_state (DrivingDetector.processLocation now l d).1 = DrivingDetector.state d' ∧
  match DrivingDetector.drivingStartTime d with
  | Some t0 =>
      if t0 =? 0 then
        DrivingDetector.drivingStartTime d' = Some (timestamp l) ∧
        DrivingDetector.state d' =
          (if Qgeb 0 (minDuration (DrivingDetector.conditions d))
           then driving else detecting)
      else
        DrivingDetector.drivingStartTime d' = Some t0 ∧
        DrivingDetector.state d' =
          (if Qgeb (DrivingDetector.seconds (timestamp l) t0)
                   (minDuration (DrivingDetector.conditions d))
           then driving else stationary)
  | None =>
      DrivingDetector.drivingStartTime d' = Some (timestamp l) ∧
      DrivingDetector.state d' =
        (if Qgeb 0 (minDuration (DrivingDetector.conditions d))
         then driving else detecting)
  end.
Proof.
  intros Hst Hmove d'.
  destruct (processLocation_moving now l d Hmove) as (Hst' & Hmark' & _ & _ & Hres).
  fold d' in Hst', Hmark', Hres. clearbody d'. split; [done|].
  assert (Hzero : ∀ t q, Qgeb (DrivingDetector.seconds t t) q = Qgeb 0 q).
  { intros t q. unfold DrivingDetector.seconds, Qgeb. rewrite Z.sub_diag.
    apply eq_true_iff_eq. rewrite !Qle_bool_iff.
    assert (inject_Z 0 / 1000 == 0)%Q as -> by reflexivity. done. }
  destruct (DrivingDetector.drivingStartTime d) as [t0|]; cbn in *.
  - destruct (t0 =? 0); cbn in *.
    + by rewrite Hzero in Hst'.
    + by rewrite Hst in Hst'.
  - by rewrite Hzero in Hst'.
Qed.

(** C3, an instance: moving at 1 s, stopped from 2 s to 122 s
    (state [stationary]), one sample at 6 m/s at 123 s: [driving] at
    once, on the marker of 1 s. *)
Lemma stationary_then_moving_witness :
  let d :=
    (feed (live [sample 1000 6; sample 2000 0; sample 122000 0])
          freshDetector).2 in
  let d' := (DrivingDetector.processLocation 123000 (sample 123000 6) d).2 in
  r_state (DrivingDetector.processLocation 123000 (sample 123000 6) d).1
    = DrivingDetector.state d' ∧
  DrivingDetector.drivingStartTime d' = Some 1000 ∧
  DrivingDetector.state d' = driving.
Proof.
  intros d d'.
  exact (stationary_then_moving 123000 (sample 123000 6) d eq_refl eq_refl).
Defined.

(** * The car-device matcher *)

Section CarBluetoothMatcherFacts.

Import CarBluetoothMatcher.

(** What an entry found in a table says. *)
Lemma lookup_Some ranges c r :
  Unicode.lookup ranges c = Some r →
  ∃ first last step image,
    (first, last, step, image) ∈ ranges ∧
    (first ≤ c ≤ last)%N ∧ r = (image + (c - first))%N.
Proof.
  induction ranges as [|[[[first last] step] image] ranges IH];
    cbn [Unicode.lookup]; [done|].
  destruct ((first <=? c)%N && (c <=? last)%N &&
            ((c - first) mod step =? 0)%N) eqn:E.
  - intros [= <-]. exists first, last, step, image.
    apply andb_true_iff in E as [E _].
    apply andb_true_iff in E as [E1 E2].
    apply N.leb_le in E1, E2. split; [by left|done].
  - intros H. destruct (IH H) as (f & l & st & im & Hin & Hc).
    exists f, l, st, im. split; [by right|done].
Qed.

(** The code units below 128. *)
Lemma below_128 (P : N → bool) :
  forallb P (N.of_nat <$> seq 0 128) = true →
  ∀ c, (c < 128)%N → P c = true.
Proof.
  intros H c Hc. rewrite forallb_forall in H. apply H.
  apply list_elem_of_In, list_elem_of_fmap. exists (N.to_nat c).
  split; [by rewrite N2Nat.id|]. apply elem_of_seq. lia.
Qed.

(** A code unit from 128 on is never matched as one below 128, and one
    below 128 is matched as one below 128. *)
Lemma canonicalize_ge c : (128 ≤ c)%N → (128 ≤ canonicalize c)%N.
Proof.
  intros Hc. unfold canonicalize. cbv zeta.
  destruct ((128 <=? c)%N &&
            (default c (Unicode.lookup Unicode.uppercase c) <? 128)%N) eqn:E;
    [done|].
  apply andb_false_iff in E as [E|E].
  - apply N.leb_gt in E. lia.
  - by apply N.ltb_ge in E.
Qed.

Lemma canonicalize_lt c : (c < 128)%N → (canonicalize c < 128)%N.
Proof.
  intros Hc. apply N.ltb_lt.
  by apply (below_128 (λ c, canonicalize c <? 128)%N).
Qed.

Lemma matchesAt_alike pattern :
  Forall (λ p, (p < 128)%N) pattern →
  ∀ input input', Forall2 CarBluetoothMatcher.alike input input' →
  matchesAt pattern input = matchesAt pattern input'.
Proof.
  induction 1 as [|p pattern Hp _ IH]; intros input input' Hin; [done|].
  destruct Hin as [|c c' input input' Hc Hin]; [done|].
  cbn [matchesAt]. rewrite (IH _ _ Hin). f_equal.
  destruct Hc as [->|[Hc Hc']]; [done|].
  apply canonicalize_ge in Hc, Hc'. apply canonicalize_lt in Hp.
  transitivity false; [|symmetry]; apply N.eqb_neq; lia.
Qed.

Lemma test_alike pattern :
  Forall (λ p, (p < 128)%N) pattern →
  ∀ input input', Forall2 CarBluetoothMatcher.alike input input' →
  test pattern input = test pattern input'.
Proof.
  intros Hp. induction 1 as [|c c' input input' Hc Hin IH]; [done|].
  cbn [test]. rewrite IH. f_equal.
  apply matchesAt_alike; [done|by constructor].
Qed.

(** Lower-casing a code unit other than U+0130 and the Kelvin sign
    U+212A does not change what it is matched as: only these two become
    ASCII letters without being ASCII letters. *)
Lemma lowercase_alike u :
  u ≠ 0x212A%N →
  alike u (default u (Unicode.lookup Unicode.lowercase u)).
Proof.
  intros Hk. destruct (N.lt_ge_cases u 128) as [Hu|Hu].
  - left. symmetry. apply N.eqb_eq.
    by apply (below_128
      (λ u, canonicalize (default u (Unicode.lookup Unicode.lowercase u))
            =? canonicalize u)%N).
  - right. split; [done|].
    destruct (Unicode.lookup Unicode.lowercase u) as [r|] eqn:E; [|done].
    apply lookup_Some in E as (first & last & step & image & Hin & Hc & ->).
    assert (Htable :
      forallb (λ '(first, last, step, image),
                 (last <? 128) || ((first =? 0x212A) && (last =? 0x212A)) ||
                 (128 <=? image))%N Unicode.lowercase = true)
      by (by vm_compute).
    rewrite forallb_forall in Htable.
    apply list_elem_of_In, Htable in Hin. cbn.
    apply orb_true_iff in Hin as [Hin|Hin];
      [apply orb_true_iff in Hin as [Hin|Hin]|].
    + apply N.ltb_lt in Hin. lia.
    + apply andb_true_iff in Hin as [H1 H2].
      apply N.eqb_eq in H1, H2. lia.
    + apply N.leb_le in Hin. lia.
Qed.

Lemma toLowerCase_from_alike Final_Sigma n : ∀ s before,
  (length s ≤ n)%nat →
  0x130%N ∉ s → 0x212A%N ∉ s →
  Forall2 CarBluetoothMatcher.alike s (toLowerCase_from Final_Sigma before s).
Proof.
  induction n as [|n IH]; intros s before Hlen Hi Hk.
  { destruct s; [constructor|cbn in Hlen; lia]. }
  destruct s as [|u rest]; [constructor|].
  apply not_elem_of_cons in Hi as [Hiu Hi], Hk as [Hku Hk].
  cbn [length] in Hlen.
  assert (Hsingle :
    Forall2 CarBluetoothMatcher.alike (u :: rest)
      ((if (u =? 0x130)%N then [0x69; 0x307]%N
        else if (u =? 0x3A3)%N
        then [if Final_Sigma before rest then 0x3C2 else 0x3C3]%N
        else [default u (Unicode.lookup Unicode.lowercase u)])
       ++ toLowerCase_from Final_Sigma (before ++ [u]) rest)).
  { assert ((u =? 0x130)%N = false) as -> by (apply N.eqb_neq; congruence).
    destruct (u =? 0x3A3)%N eqn:E.
    - apply N.eqb_eq in E as ->. cbn [app]. constructor.
      + right. destruct (Final_Sigma before rest); lia.
      + apply IH; [lia|done|done].
    - cbn [app]. constructor.
      + apply lowercase_alike. congruence.
      + apply IH; [lia|done|done]. }
  cbn [toLowerCase_from]. cbv zeta.
  destruct rest as [|v rest']; [exact Hsingle|].
  destruct (isLeadSurrogate u && isTrailSurrogate v) eqn:E; [|exact Hsingle].
  apply andb_true_iff in E as [Eu Ev].
  apply andb_true_iff in Eu as [Eu _], Ev as [Ev _].
  apply N.leb_le in Eu, Ev.
  apply not_elem_of_cons in Hi as [_ Hi], Hk as [_ Hk].
  cbn [length] in Hlen. unfold codeUnits. cbn [app].
  constructor;
    [right; split; [lia|]; (etrans; [|apply N.le_add_r]); lia|].
  constructor;
    [right; split; [lia|]; (etrans; [|apply N.le_add_r]); lia|].
  apply IH; [lia|done|done].
Qed.

Lemma matchesCarPattern_toLowerCase Final_Sigma name :
  0x130%N ∉ name → 0x212A%N ∉ name →
  matchesCarPattern (toLowerCase Final_Sigma name) = matchesCarPattern name.
Proof.
  intros Hi Hk.
  pose proof (toLowerCase_from_alike Final_Sigma (length name) name []
                (le_n _) Hi Hk) as Halike.
  assert (Hascii : Forall (Forall (λ p, (p < 128)%N)) patterns).
  { assert (H : forallb (forallb (λ p, p <? 128)%N) patterns = true)
      by (by vm_compute).
    rewrite forallb_forall in H. apply Forall_forall. intros p Hp.
    apply list_elem_of_In, H in Hp. rewrite forallb_forall in Hp.
    apply Forall_forall. intros x Hx.
    apply N.ltb_lt, Hp. by apply list_elem_of_In. }
  unfold matchesCarPattern, toLowerCase.
  induction Hascii as [|p ps Hp _ IH]; [done|].
  cbn [existsb]. by rewrite IH, (test_alike p Hp _ _ Halike).
Qed.

End CarBluetoothMatcherFacts.

(** C9, as amended.  After [tagAsCarDevice d], [isCarDevice d] is true
    whatever the name of [d], and the record kept is a manual one.
    [untagCarDevice id] returns true exactly when a tag for [id] existed,
    removes it and touches no other tag; after it, [isCarDevice] of a
    device with that id is [matchesCarPattern] of its name.
    [matchesCarPattern] gives the same answer on a name and on the name in
    lower case, provided the name has neither the capital dotted I,
    U+0130, nor the Kelvin sign, U+212A. *)
Theorem car_device_tagging :
  (∀ now1 now2 d m,
     CarBluetoothMatcher.isCarDevice d
       (CarBluetoothMatcher.tagAsCarDevice now1 now2 d m).2 = true ∧
     cd_type (CarBluetoothMatcher.tagAsCarDevice now1 now2 d m).1 = TagManual ∧
     CarBluetoothMatcher.manuallyTaggedDevices
       (CarBluetoothMatcher.tagAsCarDevice now1 now2 d m).2 !! bd_id d =
       Some (CarBluetoothMatcher.tagAsCarDevice now1 now2 d m).1) ∧
  (∀ deviceId m,
     ((CarBluetoothMatcher.untagCarDevice deviceId m).1 = true ↔
      is_Some (CarBluetoothMatcher.manuallyTaggedDevices m !! deviceId)) ∧
     CarBluetoothMatcher.manuallyTaggedDevices
       (CarBluetoothMatcher.untagCarDevice deviceId m).2 !! deviceId = None ∧
     ∀ other, other ≠ deviceId →
       CarBluetoothMatcher.manuallyTaggedDevices
         (CarBluetoothMatcher.untagCarDevice deviceId m).2 !! other =
       CarBluetoothMatcher.manuallyTaggedDevices m !! other) ∧
  (∀ d m,
     CarBluetoothMatcher.isCarDevice d
       (CarBluetoothMatcher.untagCarDevice (bd_id d) m).2 =
     CarBluetoothMatcher.matchesCarPattern (bd_name d)) ∧
  (∀ Final_Sigma name,
     0x130%N ∉ name → 0x212A%N ∉ name →
     CarBluetoothMatcher.matchesCarPattern (toLowerCase Final_Sigma name) =
     CarBluetoothMatcher.matchesCarPattern name).
Proof.
  split; [|split; [|split]].
  - intros now1 now2 d m. unfold CarBluetoothMatcher.isCarDevice. cbn.
    by rewrite lookup_insert_eq.
  - intros deviceId m. cbn. split; [|split].
    + by rewrite bool_decide_eq_true.
    + apply lookup_delete_eq.
    + intros other Hne. by apply lookup_delete_ne.
  - intros d m. unfold CarBluetoothMatcher.isCarDevice. cbn.
    by rewrite lookup_delete_eq.
  - apply matchesCarPattern_toLowerCase.
Qed.

(** C9, where the claim as written fails.  No pattern matches "AUDİ",
    whose last letter is U+0130: it is matched as itself, not as "I".
    In lower case the name is "audi" followed by the combining dot
    U+0307, which [/audi/i] matches.  Likewise "KIA" written with the
    Kelvin sign U+212A matches nothing, and its lower case "kia" is
    matched by [/kia/i]. *)
Lemma lowercased_name_matches_more :
  let Final_Sigma : JSString → JSString → bool := λ _ _, false in
  let audi := utf16 "AUD" ++ [0x130%N] in
  let kia := 0x212A%N :: utf16 "IA" in
  CarBluetoothMatcher.matchesCarPattern audi = false ∧
  toLowerCase Final_Sigma audi = utf16 "audi" ++ [0x307%N] ∧
  CarBluetoothMatcher.matchesCarPattern (toLowerCase Final_Sigma audi) = true ∧
  CarBluetoothMatcher.matchesCarPattern kia = false ∧
  toLowerCase Final_Sigma kia = utf16 "kia" ∧
  CarBluetoothMatcher.matchesCarPattern (toLowerCase Final_Sigma kia) = true.
Proof. by vm_compute. Qed.

(** Names in any mix of cases are matched; a tag overrides the name. *)
Example matchesCarPattern_examples :
  CarBluetoothMatcher.matchesCarPattern (utf16 "My TOYOTA Corolla") = true ∧
  CarBluetoothMatcher.matchesCarPattern (utf16 "my toyota corolla") = true ∧
  CarBluetoothMatcher.matchesCarPattern (utf16 "HandsFree Link") = true ∧
  CarBluetoothMatcher.matchesCarPattern (utf16 "JBL Flip 5") = false ∧
  CarBluetoothMatcher.isCarDevice
    (mkBluetoothDevice "aa:bb" (utf16 "JBL Flip 5") false None 0)
    (CarBluetoothMatcher.tagAsCarDevice 1 1
       (mkBluetoothDevice "aa:bb" (utf16 "JBL Flip 5") false None 0)
       CarBluetoothMatcher.init).2 = true.
Proof. by vm_compute. Qed.

(** * The orchestrator *)

(** A location update handled on its own runs [handleDrivingDetected]
    from its first statement to its last: nothing comes between the
    [await] and what follows it. *)
Lemma handleDrivingDetected_unfold now rnd location d :
  DriveSentry.handleDrivingDetected now rnd location d =
  let d1 :=
    DriveSentry.emit DRIVING_DETECTED (DriveSentry.set_status StatusDriving d) in
  let trigger :=
    if BluetoothListener.isCarConnected (DriveSentry.bluetoothListener d1)
    then TriggerBluetooth "unknown" (utf16 "Car")
    else TriggerGps location in
  match SessionManager.startSession
          (SessionManager.generateSessionId now rnd) now trigger
          (DriveSentry.sessionManager d1) with
  | Err e => (Rejected e, d1)
  | Ok (session, m) =>
      let d2 :=
        DriveSentry.emit (SESSION_STARTED session)
          (DriveSentry.set_sessionManager m d1) in
      (Returned, DriveSentry.setTrackingMode ModeDriving d2)
  end.
Proof.
  unfold DriveSentry.handleDrivingDetected,
    DriveSentry.handleDrivingDetected_begin.
  cbv zeta.
  by destruct (SessionManager.startSession _ _ _ _) as [[session m]|e].
Qed.

Lemma handleLocationUpdate_unfold now rnd location d :
  DriveSentry.handleLocationUpdate now rnd location d =
  let d1 := DriveSentry.emit (LOCATION_UPDATE location) d in
  let '(result, detector) :=
    DrivingDetector.processLocation now location
      (DriveSentry.drivingDetector d1) in
  let d2 := DriveSentry.set_drivingDetector detector d1 in
  match r_state result with
  | driving =>
      if negb (DriveSentryStatus_eqb (DriveSentry.status d2) StatusDriving) then
        DriveSentry.handleDrivingDetected now rnd location d2
      else if SessionManager.isSessionActive (DriveSentry.sessionManager d2) then
        (Returned,
         DriveSentry.set_sessionManager
           (SessionManager.addWaypoint location (DriveSentry.sessionManager d2))
           d2)
      else (Returned, d2)
  | stationary =>
      if DriveSentryStatus_eqb (DriveSentry.status d2) StatusDriving
      then DriveSentry.handleDrivingPaused d2
      else (Returned, d2)
  | _ => (Returned, d2)
  end.
Proof.
  unfold DriveSentry.handleLocationUpdate, DriveSentry.handleLocationUpdate_sync,
    DriveSentry.handleDrivingDetected.
  cbv zeta.
  destruct (DrivingDetector.processLocation _ _ _) as [result detector].
  destruct (r_state result); try done.
  - destruct (negb _); [|by destruct (SessionManager.isSessionActive _)].
    by destruct (DriveSentry.handleDrivingDetected_begin _ _ _ _).
  - destruct (DriveSentryStatus_eqb _ _); [|done].
    by destruct (DriveSentry.handleDrivingPaused _).
Qed.

(** A location update throws to its caller only from the body of
    [handleLocationUpdate], and then nothing is left for later. *)
Lemma handleLocationUpdate_sync_thrown now rnd location d e :
  (DriveSentry.handleLocationUpdate now rnd location d).1 = Thrown e →
  DriveSentry.handleLocationUpdate_sync now rnd location d =
    (Thrown e, (DriveSentry.handleLocationUpdate now rnd location d).2, None).
Proof.
  unfold DriveSentry.handleLocationUpdate.
  destruct (DriveSentry.handleLocationUpdate_sync now rnd location d)
    as [[outcome d1] [[session|e']|]]; cbn; [done|done|].
  by intros ->.
Qed.

(** What follows the [await] of [handleDrivingDetected] does not touch
    the session manager. *)
Lemma handleDrivingDetected_resume_sessionManager awaited d :
  DriveSentry.sessionManager
    (DriveSentry.handleDrivingDetected_resume awaited d).2 =
  DriveSentry.sessionManager d.
Proof. by destruct awaited. Qed.

Lemma handleLocationUpdate_sync_sessionManager now rnd location d :
  DriveSentry.sessionManager
    (DriveSentry.handleLocationUpdate_sync now rnd location d).1.2 =
  DriveSentry.sessionManager
    (DriveSentry.handleLocationUpdate now rnd location d).2.
Proof.
  unfold DriveSentry.handleLocationUpdate.
  destruct (DriveSentry.handleLocationUpdate_sync now rnd location d)
    as [[outcome d1] [awaited|]]; cbn [fst snd]; [|done].
  by rewrite handleDrivingDetected_resume_sessionManager.
Qed.

Lemma resumed_sessionManager awaited : ∀ d,
  DriveSentry.sessionManager
    (foldl (λ d a, (DriveSentry.handleDrivingDetected_resume a d).2) d awaited)
  = DriveSentry.sessionManager d.
Proof.
  induction awaited as [|a awaited IH]; intros d; [done|].
  cbn [foldl]. rewrite IH. apply handleDrivingDetected_resume_sessionManager.
Qed.

Lemma processLocationUpdates_sessionManager locations d :
  DriveSentry.sessionManager
    (DriveSentry.processLocationUpdates locations d).2 =
  DriveSentry.sessionManager
    (DriveSentry.processLocationUpdates_loop locations d).1.2.
Proof.
  unfold DriveSentry.processLocationUpdates.
  destruct (DriveSentry.processLocationUpdates_loop locations d)
    as [[outcome d'] awaited].
  cbn [fst snd]. apply resumed_sessionManager.
Qed.


(** C4, where the code departs from it.  With the orchestrator in status
    [paused] and a paused session, a sample on which the detector reports
    [driving] does put the status back to [driving] and creates no second
    session; but the handler does so by calling [startSession], which
    throws: the promise of [handleDrivingDetected] is rejected with
    "Cannot start new session while one is active", the session is left
    paused ([resumeSession] is never called, nothing beyond
    [LOCATION_UPDATE] and [DRIVING_DETECTED] is emitted, the feed keeps
    its mode), and every later sample offered to it as a waypoint is
    dropped. *)
Theorem paused_to_driving_rejected now rnd location d s :
  DriveSentry.status d = StatusPaused →
  SessionManager.current (DriveSentry.sessionManager d) = Some s →
  status s = paused →
  r_state (DrivingDetector.processLocation now location
             (DriveSentry.drivingDetector d)).1 = driving →
  let r := DriveSentry.handleLocationUpdate now rnd location d in
  r.1 = Rejected "Cannot start new session while one is active" ∧
  DriveSentry.status r.2 = StatusDriving ∧
  DriveSentry.sessionManager r.2 = DriveSentry.sessionManager d ∧
  SessionManager.getCurrentSession (DriveSentry.sessionManager r.2) = Some s ∧
  (emittedSince d r.2).*1 = [LOCATION_UPDATE location; DRIVING_DETECTED] ∧
  DriveSentry.gpsListener r.2 = DriveSentry.gpsListener d ∧
  ∀ location',
    SessionManager.addWaypoint location' (DriveSentry.sessionManager r.2) =
    DriveSentry.sessionManager r.2.
Proof.
  intros Hst Hs Hp Hdet r. subst r.
  rewrite handleLocationUpdate_unfold. cbv zeta.
  change (DriveSentry.drivingDetector
            (DriveSentry.emit (LOCATION_UPDATE location) d))
    with (DriveSentry.drivingDetector d).
  remember (DrivingDetector.processLocation now location
              (DriveSentry.drivingDetector d)) as p eqn:E.
  destruct p as [result detector]. cbn in Hdet. rewrite Hdet.
  cbn [DriveSentry.status DriveSentry.set_drivingDetector DriveSentry.emit].
  rewrite Hst. cbn [DriveSentryStatus_eqb negb].
  rewrite handleDrivingDetected_unfold. cbv zeta.
  cbn [DriveSentry.sessionManager DriveSentry.set_drivingDetector
       DriveSentry.emit DriveSentry.set_status].
  rewrite startSession_busy
    by (apply isSessionActive_true; exists s; by rewrite Hp).
  cbn. unfold emittedSince. cbn.
  rewrite <- app_assoc, drop_app_length.
  repeat split; try done.
  intros location'. unfold SessionManager.addWaypoint. by rewrite Hs, Hp.
Qed.

(** C4, an instance: the trip that was paused at 190 s moves
    again at 195 s. *)
Lemma paused_to_driving_rejected_witness :
  (DriveSentry.handleLocationUpdate 195000 "r4nd0m" (sample 195000 6)
     pausedTrip).1 =
    Rejected "Cannot start new session while one is active" ∧
  DriveSentry.status
    (DriveSentry.handleLocationUpdate 195000 "r4nd0m" (sample 195000 6)
       pausedTrip).2 = StatusDriving ∧
  (emittedSince pausedTrip
     (DriveSentry.handleLocationUpdate 195000 "r4nd0m" (sample 195000 6)
        pausedTrip).2).*1 =
    [LOCATION_UPDATE (sample 195000 6); DRIVING_DETECTED].
Proof.
  assert (Hs : ∃ s,
             SessionManager.current (DriveSentry.sessionManager pausedTrip)
               = Some s ∧ status s = paused)
    by (vm_compute; eauto).
  destruct Hs as (s & Hs & Hp).
  destruct (paused_to_driving_rejected 195000 "r4nd0m" (sample 195000 6)
              pausedTrip s) as (H1 & H2 & _ & _ & H5 & _);
    [vm_compute; reflexivity | exact Hs | exact Hp | vm_compute; reflexivity |].
  exact (conj H1 (conj H2 H5)).
Defined.

(** The same input, evaluated: the session stays paused, and the sample
    of 200 s is not recorded. *)
Example paused_trip_moves_again :
  let r :=
    DriveSentry.handleLocationUpdate 195000 "r4nd0m" (sample 195000 6)
      pausedTrip in
  let r' :=
    DriveSentry.handleLocationUpdate 200000 "r4nd0m" (sample 200000 6) r.2 in
  DriveSentry.status pausedTrip = StatusPaused ∧
  DrivingDetector.state (DriveSentry.drivingDetector pausedTrip) = stationary ∧
  status <$> SessionManager.getCurrentSession
               (DriveSentry.sessionManager pausedTrip) = Some paused ∧
  r.1 = Rejected "Cannot start new session while one is active" ∧
  DriveSentry.status r.2 = StatusDriving ∧
  status <$> SessionManager.getCurrentSession
               (DriveSentry.sessionManager r.2) = Some paused ∧
  r'.1 = Returned ∧
  status <$> SessionManager.getCurrentSession
               (DriveSentry.sessionManager r'.2) = Some paused ∧
  SessionManager.waypoints (DriveSentry.sessionManager r'.2) =
    SessionManager.waypoints (DriveSentry.sessionManager pausedTrip).
Proof. by vm_compute. Qed.

(** C5, where the code departs from it.  [stop] emits no [SESSION_ENDED]
    event, whatever the state and whatever the feeds answer.  When a
    session is open and both feeds stop, the session is ended with a
    manual trigger and the status becomes [idle], but no subscriber is
    told: nothing at all is emitted. *)
Theorem stop_emits_no_SESSION_ENDED now btStop gpsStop d :
  sessionEnded (emittedSince d (DriveSentry.stop now btStop gpsStop d).2) = [] ∧
  ∀ s,
    SessionManager.current (DriveSentry.sessionManager d) = Some s →
    status s ≠ completed →
    ∃ c m',
      SessionManager.endSession now TriggerManual (DriveSentry.sessionManager d)
        = Ok (c, m') ∧
      status c = completed ∧ endTrigger c = Some TriggerManual ∧
      (DriveSentry.stop now None None d).1 = Returned ∧
      DriveSentry.status (DriveSentry.stop now None None d).2 = StatusIdle ∧
      DriveSentry.sessionManager (DriveSentry.stop now None None d).2 = m' ∧
      DriveSentry.emitted (DriveSentry.stop now None None d).2 =
        DriveSentry.emitted d.
Proof.
  split.
  - unfold DriveSentry.stop, BluetoothListener.stopListening,
      GPSListener.stopBackgroundTracking.
    destruct (SessionManager.isSessionActive _);
      [destruct (SessionManager.endSession _ _ _) as [[c m']|e]|];
      destruct btStop, gpsStop; cbn;
      unfold emittedSince; cbn;
      rewrite ?drop_app_length, ?drop_all; done.
  - intros s Hs Hopen. unfold DriveSentry.stop.
    assert (SessionManager.isSessionActive (DriveSentry.sessionManager d) = true)
      as -> by (apply isSessionActive_true; eauto).
    rewrite (endSession_Some _ _ _ s) by done. do 2 eexists.
    split; [done|]. cbn. rewrite status_statsOf. split; [done|].
    split; [|done]. unfold statsOf.
    destruct (_ <? 2)%nat; [done|]. by destruct (Qgtb _ 0).
Qed.

(** C5, an instance: [stop] while the trip is being driven, with
    two subscribers. *)
Example stop_while_driving :
  let r := DriveSentry.stop 70000 None None drivingTrip in
  DriveSentry.eventHandlers drivingTrip = [1%nat; 2%nat] ∧
  SessionManager.isSessionActive (DriveSentry.sessionManager drivingTrip) = true ∧
  r.1 = Returned ∧
  DriveSentry.status r.2 = StatusIdle ∧
  SessionManager.isSessionActive (DriveSentry.sessionManager r.2) = false ∧
  emittedSince drivingTrip r.2 = [].
Proof. by vm_compute. Qed.

(** C8.  A disconnect handled in status [driving] with an open session
    ends that session with a bluetooth trigger naming the device, emits
    (after [BLUETOOTH_DISCONNECTED]) exactly one [SESSION_ENDED], carrying
    the completed session, to all subscribers, sets the status to
    [monitoring] and the location feed to monitoring mode.  Handled in any
    other case, it leaves the session manager, the status and the feed as
    they were and emits no [SESSION_ENDED]. *)
Theorem disconnect_ends_session now device d :
  let r := DriveSentry.handleCarDisconnected now device d in
  r.1 = Returned ∧
  if DriveSentryStatus_eqb (DriveSentry.status d) StatusDriving &&
     SessionManager.isSessionActive (DriveSentry.sessionManager d)
  then
    ∃ c m',
      SessionManager.endSession now
        (TriggerBluetooth (bd_id device) (bd_name device))
        (DriveSentry.sessionManager d) = Ok (c, m') ∧
      status c = completed ∧
      endTrigger c = Some (TriggerBluetooth (bd_id device) (bd_name device)) ∧
      triggerType (TriggerBluetooth (bd_id device) (bd_name device))
        = TypeBluetooth ∧
      DriveSentry.sessionManager r.2 = m' ∧
      SessionManager.getCurrentSession m' = None ∧
      emittedSince d r.2 =
        [(BLUETOOTH_DISCONNECTED device, DriveSentry.eventHandlers d);
         (SESSION_ENDED c, DriveSentry.eventHandlers d)] ∧
      sessionEnded (emittedSince d r.2) = [(c, DriveSentry.eventHandlers d)] ∧
      DriveSentry.status r.2 = StatusMonitoring ∧
      GPSListener.currentMode (DriveSentry.gpsListener r.2) = ModeMonitoring
  else
    DriveSentry.sessionManager r.2 = DriveSentry.sessionManager d ∧
    DriveSentry.status r.2 = DriveSentry.status d ∧
    DriveSentry.gpsListener r.2 = DriveSentry.gpsListener d ∧
    emittedSince d r.2 =
      [(BLUETOOTH_DISCONNECTED device, DriveSentry.eventHandlers d)].
Proof.
  intros r. subst r. unfold DriveSentry.handleCarDisconnected.
  cbn [DriveSentry.status DriveSentry.sessionManager DriveSentry.emit].
  destruct (DriveSentryStatus_eqb (DriveSentry.status d) StatusDriving &&
            SessionManager.isSessionActive (DriveSentry.sessionManager d))
    eqn:Hcond.
  - apply andb_true_iff in Hcond as [_ Hact].
    apply isSessionActive_true in Hact as (s & Hs & Hopen).
    rewrite (endSession_Some _ _ _ s) by done.
    split; [done|]. do 2 eexists. split; [done|].
    cbn. rewrite status_statsOf. unfold emittedSince. cbn.
    rewrite <- app_assoc, drop_app_length.
    repeat split; try done.
    unfold statsOf. destruct (_ <? 2)%nat; [done|]. by destruct (Qgtb _ 0).
  - cbn. unfold emittedSince. cbn. by rewrite drop_app_length.
Qed.

(** The scenario of the specification: the car kit disconnects while the
    trip is being driven. *)
Example disconnect_while_driving :
  let r := DriveSentry.handleCarDisconnected 70000 carKit drivingTrip in
  DriveSentry.status drivingTrip = StatusDriving ∧
  DriveSentry.status r.2 = StatusMonitoring ∧
  (λ e, (endTrigger e.1, waypointCount e.1, e.2)) <$>
    sessionEnded (emittedSince drivingTrip r.2) =
    [(Some (TriggerBluetooth "4C:87:5D:01:02:03" (utf16 "Toyota Touch")), 1%nat,
      [1%nat; 2%nat])] ∧
  SessionManager.isSessionActive (DriveSentry.sessionManager r.2) = false.
Proof. by vm_compute. Qed.

(** * Further properties *)

(** ** The distance formula *)

(** X1.  The distance from a position to itself is 0, and the distance
    does not depend on the direction of travel. *)
Theorem haversineDistance_self_sym p q :
  SessionManager.haversineDistance p p = 0%R ∧
  SessionManager.haversineDistance p q = SessionManager.haversineDistance q p.
Proof. split; [apply haversineDistance_self | apply haversineDistance_sym]. Qed.

(** ** The life of a session *)

Section SessionLifecycleMore.

Import SessionManager.

Lemma addWaypoint_active location m s :
  current m = Some s → status s = active →
  addWaypoint location m =
    mutate (set_maxSpeed (nextMaxSpeed location (maxSpeed s)))
      (mk (store m) (currentSession m)
          (waypoints m ++
             [mkWaypoint location (length (waypoints m) + 1)%nat (id s)])).
Proof.
  intros Hs Ha. unfold addWaypoint, nextMaxSpeed. rewrite Hs.
  apply SessionStatus_eqb_eq in Ha as Ha'. rewrite Ha'.
  set (m1 := mk _ _ _).
  assert (Hid : m1 = mutate (set_maxSpeed (maxSpeed s)) m1).
  { assert (current m1 = Some s) as H1 by done.
    rewrite <- (mutate_id m1) at 1. apply mutate_ext.
    intros x Hx. assert (x = s) as -> by congruence. by destruct s. }
  destruct (speed location) as [v|]; [|done].
  by destruct (truthy v && Qgtb v (maxSpeed s)).
Qed.

Lemma addWaypoint_inactive location m :
  statusIsActive m = false → addWaypoint location m = m.
Proof.
  unfold statusIsActive, getCurrentSession, addWaypoint.
  destruct (current m) as [s|]; [|done]. by intros ->.
Qed.

Lemma statusIsActive_true m :
  statusIsActive m = true ↔ ∃ s, current m = Some s ∧ status s = active.
Proof.
  unfold statusIsActive, getCurrentSession. destruct (current m) as [s|].
  - rewrite SessionStatus_eqb_eq. split; [by exists s|].
    by intros (x & [= <-] & H).
  - split; [done | by intros (x & [=] & _)].
Qed.

Lemma store_mutate_at f m a :
  currentSession m = Some a → store (mutate f m) !! a = f <$> store m !! a.
Proof.
  intros E. unfold mutate. rewrite E. cbn. apply list_lookup_alter_eq.
Qed.

Lemma length_store_mutate f m : length (store (mutate f m)) = length (store m).
Proof.
  unfold mutate. destruct (currentSession m) eqn:E; [|done].
  cbn. apply length_alter.
Qed.

(** A call other than [endSession], on a manager with an open session,
    keeps [currentSession] and touches no other object of the store. *)
Lemma step_frame m op s :
  current m = Some s → status s ≠ completed → isEndSession op = false →
  currentSession (step m op) = currentSession m ∧
  length (store (step m op)) = length (store m) ∧
  ∀ b, currentSession m ≠ Some b → store (step m op) !! b = store m !! b.
Proof.
  intros Hs Hopen Hop.
  assert (Hact : isSessionActive m = true)
    by (apply isSessionActive_true; eauto).
  assert (Hmut : ∀ f m0,
            currentSession (mutate f m0) = currentSession m0 ∧
            length (store (mutate f m0)) = length (store m0) ∧
            ∀ b, currentSession m0 ≠ Some b →
                 store (mutate f m0) !! b = store m0 !! b).
  { intros f m0. rewrite currentSession_mutate, length_store_mutate.
    split; [done|]. split; [done|]. intros b Hb.
    destruct (currentSession m0) as [a|] eqn:E.
    - apply (store_mutate_other f m0 a); congruence.
    - unfold mutate. by rewrite E. }
  unfold step, call. destruct op as [sid now trig| | |loc|now trig]; [| | | |done].
  - by rewrite startSession_busy.
  - unfold pauseSession. rewrite Hs.
    destruct (SessionStatus_eqb _ _); [apply Hmut|done].
  - unfold resumeSession. rewrite Hs.
    destruct (SessionStatus_eqb _ _); [apply Hmut|done].
  - cbn [snd]. destruct (statusIsActive m) eqn:E.
    + apply statusIsActive_true in E as (x & Hx & Ha).
      rewrite (addWaypoint_active _ _ x) by done.
      exact (Hmut _ (mk (store m) (currentSession m) _)).
    + by rewrite addWaypoint_inactive.
Qed.

Lemma run_frame ops : ∀ m s,
  current m = Some s → status s ≠ completed → noEndSession ops = true →
  currentSession (run ops m) = currentSession m ∧
  length (store (run ops m)) = length (store m) ∧
  ∀ b, currentSession m ≠ Some b → store (run ops m) !! b = store m !! b.
Proof.
  induction ops as [|op ops IH]; intros m s Hs Hopen Hno; [done|].
  cbn in Hno. apply andb_true_iff in Hno as [Hop%negb_true_iff Hno].
  destruct (step_open m op s Hs Hopen Hop) as (s1 & Hs1 & Hopen1 & _).
  destruct (step_frame m op s Hs Hopen Hop) as (Hc & Hl & Hst).
  destruct (IH (step m op) s1 Hs1 Hopen1 Hno) as (Hc' & Hl' & Hst').
  change (run (op :: ops) m) with (run ops (step m op)).
  rewrite Hc', Hl', Hc, Hl. split; [done|]. split; [done|].
  intros b Hb. rewrite Hst' by congruence. by apply Hst.
Qed.

End SessionLifecycleMore.

Section SessionRecords.

Import SessionManager.

Lemma nextMaxSpeed_spec location cur :
  (0 <= cur)%Q →
  (cur <= nextMaxSpeed location cur)%Q ∧
  (∀ v, speed location = Some v → (v <= nextMaxSpeed location cur)%Q) ∧
  (nextMaxSpeed location cur = cur ∨
   speed location = Some (nextMaxSpeed location cur)).
Proof.
  intros Hcur. unfold nextMaxSpeed.
  destruct (speed location) as [v|].
  - unfold truthy, Qgtb.
    destruct (Qeq_bool v 0) eqn:Hz; cbn [negb andb].
    + apply Qeq_bool_iff in Hz. split; [apply Qle_refl|]. split; [|by left].
      intros x [= <-]. by rewrite Hz.
    + destruct (Qle_bool v cur) eqn:Hle; cbn [negb].
      * apply Qle_bool_iff in Hle. split; [apply Qle_refl|].
        split; [|by left]. by intros x [= <-].
      * assert (¬ (v <= cur)%Q) as Hgt
          by (intros H; apply Qle_bool_iff in H; congruence).
        apply Qnot_le_lt, Qlt_le_weak in Hgt.
        split; [done|]. split; [|by right].
        intros x [= <-]. apply Qle_refl.
  - split; [apply Qle_refl|]. split; [done | by left].
Qed.

Lemma step_recorded m op s :
  current m = Some s → status s ≠ completed → isEndSession op = false →
  recorded m s →
  ∃ s', current (step m op) = Some s' ∧ recorded (step m op) s'.
Proof.
  intros Hs Hopen Hop Hrec.
  assert (Hact : isSessionActive m = true)
    by (apply isSessionActive_true; eauto).
  unfold step, call. destruct op as [sid now trig| | |loc|now trig]; [| | | |done].
  - rewrite startSession_busy by done. eauto.
  - unfold pauseSession. rewrite Hs.
    destruct (SessionStatus_eqb _ _); cbn [snd]; [|eauto].
    exists (set_status paused s). rewrite current_mutate, Hs. split; [done|].
    unfold recorded. rewrite waypoints_mutate. exact Hrec.
  - unfold resumeSession. rewrite Hs.
    destruct (SessionStatus_eqb _ _); cbn [snd]; [|eauto].
    exists (set_status active s). rewrite current_mutate, Hs. split; [done|].
    unfold recorded. rewrite waypoints_mutate. exact Hrec.
  - cbn [snd]. destruct (statusIsActive m) eqn:E.
    + apply statusIsActive_true in E as (x & Hx & Ha).
      assert (x = s) as -> by congruence.
      rewrite (addWaypoint_active _ _ s) by done.
      eexists. split.
      { rewrite current_mutate.
        change (current (mk _ _ _)) with (current m). by rewrite Hs. }
      destruct Hrec as (Hid & H0 & Hall & Hmax).
      destruct (nextMaxSpeed_spec loc (maxSpeed s) H0) as (Hge & Hnew & Hcase).
      unfold recorded. rewrite waypoints_mutate. cbn.
      split; [|split; [|split]].
      * apply Forall_app. split; [done|]. by constructor.
      * by eapply Qle_trans.
      * apply Forall_app. split.
        -- eapply Forall_impl; [exact Hall|]. cbn. intros w Hw v Hv.
           eapply Qle_trans; [by apply Hw|done].
        -- constructor; [|done]. cbn. done.
      * destruct Hcase as [Heq|Hsp].
        -- rewrite Heq. destruct Hmax as [?|(w & Hw & Hv)]; [by left|].
           right. exists w. split; [|done]. apply elem_of_app. by left.
        -- right. eexists. split; [apply elem_of_app; right; by left|done].
    + rewrite addWaypoint_inactive by done. eauto.
Qed.

Lemma run_recorded ops : ∀ m s,
  current m = Some s → status s ≠ completed → noEndSession ops = true →
  recorded m s →
  ∃ s', current (run ops m) = Some s' ∧ recorded (run ops m) s'.
Proof.
  induction ops as [|op ops IH]; intros m s Hs Hopen Hno Hrec; [eauto|].
  cbn in Hno. apply andb_true_iff in Hno as [Hop%negb_true_iff Hno].
  destruct (step_open m op s Hs Hopen Hop) as (s1 & Hs1 & Hopen1 & _).
  destruct (step_recorded m op s Hs Hopen Hop Hrec) as (s1' & Hs1' & Hrec1).
  assert (s1' = s1) as -> by congruence.
  exact (IH (step m op) s1 Hs1 Hopen1 Hno Hrec1).
Qed.

Lemma maxSpeed_statsOf wps s : maxSpeed (statsOf wps s) = maxSpeed s.
Proof.
  unfold statsOf. destruct (length wps <? 2)%nat; [done|].
  by destruct (Qgtb _ 0).
Qed.

Lemma id_statsOf wps s : id (statsOf wps s) = id s.
Proof.
  unfold statsOf. destruct (length wps <? 2)%nat; [done|].
  by destruct (Qgtb _ 0).
Qed.

End SessionRecords.

(** X3.  For a session begun by a successful [startSession] and followed
    by any calls other than [endSession], the [maxSpeed] of the session
    that [endSession] returns is not negative, is at least the speed of
    every sample recorded as a waypoint, and is either 0 or the speed of
    one of them; samples offered while the session was paused do not
    count. *)
Theorem maxSpeed_of_recorded_samples
    sid now trigger m a m1 (ops : list Op) now' trigger' :
  SessionManager.startSession sid now trigger m = Ok (a, m1) →
  noEndSession ops = true →
  ∃ c m',
    SessionManager.endSession now' trigger' (run ops m1) = Ok (c, m') ∧
    (0 <= maxSpeed c)%Q ∧
    (∀ l v, l ∈ acceptedSamples ops m1 → speed l = Some v →
            (v <= maxSpeed c)%Q) ∧
    (maxSpeed c = 0%Q ∨
     ∃ l, l ∈ acceptedSamples ops m1 ∧ speed l = Some (maxSpeed c)).
Proof.
  intros Hstart Hno.
  apply current_startSession in Hstart as (_ & Hs & Hw & _ & _).
  destruct (run_open ops m1 _ Hs) as (s' & Hs' & _ & _ & Hwps & _);
    [done|done|].
  destruct (run_recorded ops m1 _ Hs) as (s'' & Hs'' & Hrec); [done|done| |].
  { unfold recorded. rewrite Hw. cbn.
    split; [constructor|]. split; [done|]. split; [constructor|by left]. }
  assert (s'' = s') as -> by congruence.
  rewrite Hw in Hwps. cbn in Hwps.
  rewrite (endSession_Some _ _ _ s') by done. do 2 eexists. split; [done|].
  rewrite maxSpeed_statsOf. cbn.
  destruct Hrec as (_ & H0 & Hall & Hmax). split; [done|]. split.
  - intros l v Hl Hv. rewrite <- Hwps in Hl.
    apply list_elem_of_fmap in Hl as (w & -> & Hin).
    rewrite Forall_forall in Hall. by apply (Hall w Hin).
  - destruct Hmax as [?|(w & Hin & Hv)]; [by left|]. right.
    exists (wp_location w). split; [|done].
    rewrite <- Hwps. by apply list_elem_of_fmap_2.
Qed.

Lemma maxSpeed_of_recorded_samples_witness :
  let m1 :=
    SessionManager.mk
      [mkDriveSession "s" 0 None active TriggerManual None 0%R 0%Q 0%R 0%Q 0%nat]
      (Some 0%nat) [] in
  let ops :=
    [AddWaypoint (sample 1000 6); PauseSession; AddWaypoint (sample 2000 30);
     ResumeSession; AddWaypoint (sample 3000 8)] in
  ∃ c m',
    SessionManager.endSession 9000 TriggerManual (run ops m1) = Ok (c, m') ∧
    (0 <= maxSpeed c)%Q ∧
    (∀ l v, l ∈ acceptedSamples ops m1 → speed l = Some v →
            (v <= maxSpeed c)%Q) ∧
    (maxSpeed c = 0%Q ∨
     ∃ l, l ∈ acceptedSamples ops m1 ∧ speed l = Some (maxSpeed c)).
Proof.
  intros m1 ops.
  exact (maxSpeed_of_recorded_samples
           "s" 0 TriggerManual SessionManager.init 0%nat m1 ops 9000
           TriggerManual eq_refl eq_refl).
Defined.

(** The maximum in that trip is 8 m/s: the 30 m/s sample came while the
    session was paused. *)
Example maxSpeed_skips_paused_samples :
  let ops :=
    [StartSession "s" 0 TriggerManual; AddWaypoint (sample 1000 6);
     PauseSession; AddWaypoint (sample 2000 30); ResumeSession;
     AddWaypoint (sample 3000 8)] in
  maxSpeed <$> SessionManager.getCurrentSession (run ops SessionManager.init)
    = Some 8%Q.
Proof. reflexivity. Qed.

(** X4.  Throughout the life of a session the object that [startSession]
    handed out, at address [a], is the current one; no other session
    object is touched; every waypoint kept carries the id of the session.
    When [endSession] succeeds, that same object holds the completed
    session it returns. *)
Theorem session_object_is_shared
    sid now trigger m a m1 (ops : list Op) now' trigger' :
  SessionManager.startSession sid now trigger m = Ok (a, m1) →
  noEndSession ops = true →
  SessionManager.currentSession (run ops m1) = Some a ∧
  (∀ b, b ≠ a →
     SessionManager.store (run ops m1) !! b = SessionManager.store m !! b) ∧
  Forall (λ w, wp_sessionId w = sid) (SessionManager.waypoints (run ops m1)) ∧
  ∃ c m',
    SessionManager.endSession now' trigger' (run ops m1) = Ok (c, m') ∧
    SessionManager.store m' !! a = Some c ∧
    ∀ b, b ≠ a →
      SessionManager.store m' !! b = SessionManager.store m !! b.
Proof.
  intros Hstart Hno.
  pose proof Hstart as Hstart'.
  apply current_startSession in Hstart' as (Hfree & Hs & Hw & -> & Hcur).
  rewrite startSession_free in Hstart by done. injection Hstart as <-.
  destruct (run_open ops _ _ Hs) as (s' & Hs' & _ & Hsame & _);
    [done|done|].
  destruct (run_frame ops _ _ Hs) as (Hc & Hlen & Hother); [done|done|].
  destruct (run_recorded ops _ _ Hs) as (s'' & Hs'' & Hrec); [done|done| |].
  { unfold recorded. cbn.
    split; [constructor|]. split; [done|]. split; [constructor|by left]. }
  assert (s'' = s') as -> by congruence.
  set (m1 := SessionManager.mk _ _ _) in *.
  set (a := length (SessionManager.store m)) in *.
  assert (Hm1 : ∀ b, b ≠ a →
            SessionManager.store (run ops m1) !! b =
            SessionManager.store m !! b).
  { intros b Hb. rewrite Hother by (cbn; congruence). cbn.
    destruct (decide (b < a)%nat) as [Hlt|Hge].
    - by rewrite lookup_app_l.
    - rewrite !lookup_ge_None_2; [done|unfold a in *; lia|].
      rewrite length_app. cbn. unfold a in *. lia. }
  split; [by rewrite Hc|]. split; [done|]. split.
  { destruct Hrec as (Hid & _). destruct Hsame as (Hsid & _). cbn in Hsid.
    eapply Forall_impl; [exact Hid|]. cbn. intros w ->. done. }
  rewrite (endSession_Some _ _ _ s') by done. do 2 eexists. split; [done|].
  cbn. split.
  - rewrite store_mutate_at by (by rewrite Hc).
    apply current_Some in Hs' as (a' & Ha' & Hsa').
    assert (a' = a) as -> by congruence. by rewrite Hsa'.
  - intros b Hb. rewrite <- Hm1 by done.
    apply (store_mutate_other _ _ a); [by rewrite Hc|done].
Qed.

Lemma session_object_is_shared_witness :
  let m1 :=
    SessionManager.mk
      [mkDriveSession "s" 0 None active TriggerManual None 0%R 0%Q 0%R 0%Q 0%nat]
      (Some 0%nat) [] in
  let ops := [AddWaypoint (sample 1000 6); PauseSession] in
  SessionManager.currentSession (run ops m1) = Some 0%nat ∧
  Forall (λ w, wp_sessionId w = "s") (SessionManager.waypoints (run ops m1)) ∧
  ∃ c m',
    SessionManager.endSession 9000 TriggerManual (run ops m1) = Ok (c, m') ∧
    SessionManager.store m' !! 0%nat = Some c.
Proof.
  intros m1 ops.
  destruct (session_object_is_shared
              "s" 0 TriggerManual SessionManager.init 0%nat m1 ops 9000
              TriggerManual eq_refl eq_refl)
    as (H1 & _ & H3 & c & m' & H4 & H5 & _).
  split; [exact H1|]. split; [exact H3|]. exists c, m'. by split.
Defined.

(** X5.  [pauseSession] and [resumeSession] undo each other: after a
    successful [pauseSession], [resumeSession] succeeds and gives back the
    manager exactly as it was, while a second [pauseSession] throws and
    [addWaypoint] changes nothing; and likewise the other way round. *)
Theorem pause_resume_round_trip m m1 :
  (SessionManager.pauseSession m = Ok m1 →
   SessionManager.resumeSession m1 = Ok m ∧
   SessionManager.pauseSession m1 = Err "No active session to pause" ∧
   ∀ location, SessionManager.addWaypoint location m1 = m1) ∧
  (SessionManager.resumeSession m = Ok m1 →
   SessionManager.pauseSession m1 = Ok m ∧
   SessionManager.resumeSession m1 = Err "No paused session to resume").
Proof.
  assert (Hback : ∀ st st' s,
            SessionManager.current m = Some s → status s = st →
            SessionManager.mutate (SessionManager.set_status st)
              (SessionManager.mutate (SessionManager.set_status st') m) = m).
  { intros st st' s Hs Hst.
    rewrite mutate_mutate. rewrite <- (mutate_id m) at 2.
    apply mutate_ext. intros x Hx. assert (x = s) as -> by congruence.
    destruct s; cbn in *; by subst. }
  split.
  - unfold SessionManager.pauseSession.
    destruct (SessionManager.current m) as [s|] eqn:Hs; [|done].
    destruct (SessionStatus_eqb (status s) active) eqn:Ha; [|done].
    apply SessionStatus_eqb_eq in Ha. intros [= <-].
    unfold SessionManager.resumeSession, SessionManager.addWaypoint.
    rewrite current_mutate, Hs. cbn.
    by rewrite (Hback active paused s eq_refl Ha).
  - unfold SessionManager.resumeSession.
    destruct (SessionManager.current m) as [s|] eqn:Hs; [|done].
    destruct (SessionStatus_eqb (status s) paused) eqn:Ha; [|done].
    apply SessionStatus_eqb_eq in Ha. intros [= <-].
    unfold SessionManager.pauseSession.
    rewrite current_mutate, Hs. cbn.
    by rewrite (Hback paused active s eq_refl Ha).
Qed.

(** ** The detector at rest, its marker and its clock *)

Section DrivingDetectorMore.

Import DrivingDetector.

(** The branch of a sample below [minSpeed], in full. *)
Lemma processLocation_resting now l d :
  Qgeb (speedOr0 l) (minSpeed (conditions d)) = false →
  let start :=
    if unset (stationaryStartTime d) then timestamp l
    else default 0 (stationaryStartTime d) in
  state (processLocation now l d).2 =
    (if Qgeb (seconds (timestamp l) start) (maxStationaryTime (conditions d))
     then stationary else state d) ∧
  stationaryStartTime (processLocation now l d).2 = Some start ∧
  drivingStartTime (processLocation now l d).2 = drivingStartTime d ∧
  conditions (processLocation now l d).2 = conditions d ∧
  r_state (processLocation now l d).1 = state (processLocation now l d).2.
Proof.
  intros Hslow. unfold processLocation. rewrite Hslow. cbn.
  by destruct (Qgeb _ (maxStationaryTime _)).
Qed.

Lemma feed_resting samples : ∀ d t0 tprev before,
  stationaryStartTime d = Some t0 → t0 ≠ 0 →
  state d = (if Qgeb (seconds tprev t0) (maxStationaryTime (conditions d))
             then stationary else before) →
  resting (conditions d) tprev samples = true →
  (feed samples d).1 = restState (conditions d) t0 before <$> samples.*2.
Proof.
  induction samples as [|[now l] rest IH];
    intros d t0 tprev before Hmark Ht0 Hst Hres; [done|].
  cbn in Hres. apply andb_true_iff in Hres as [Hres Hrest].
  apply andb_true_iff in Hres as [Hslow%negb_true_iff Hle%Z.leb_le].
  destruct (processLocation_resting now l d Hslow)
    as (Hst' & Hmark' & _ & Hc & Hr).
  cbn [feed]. remember (processLocation now l d) as p eqn:E.
  destruct p as [res d'].
  rewrite Hmark in Hst', Hmark'. cbn in Hst', Hmark'.
  apply Z.eqb_neq in Ht0 as Ht0'. rewrite Ht0' in Hst', Hmark'.
  cbn in Hmark', Hc, Hr.
  specialize (IH d' t0 (timestamp l) before Hmark' Ht0).
  rewrite Hc in IH.
  assert (Hd' : state d' = restState (conditions d) t0 before l).
  { rewrite Hst'. unfold restState.
    destruct (Qgeb (seconds (timestamp l) t0) _) eqn:Hq; [done|].
    rewrite Hst.
    destruct (Qgeb (seconds tprev t0) _) eqn:Hp; [|done].
    by rewrite (Qgeb_seconds_mono _ _ _ _ Hle Hp) in Hq. }
  specialize (IH Hd' Hrest).
  destruct (feed rest d') as [states d'']. cbn in IH. cbn.
  by rewrite Hr, Hd', IH.
Qed.

Lemma drivingStartTime_kept now l d t0 :
  drivingStartTime d = Some t0 → t0 ≠ 0 →
  drivingStartTime (processLocation now l d).2 = Some t0.
Proof.
  intros Hmark Ht0%Z.eqb_neq.
  destruct (Qgeb (speedOr0 l) (minSpeed (conditions d))) eqn:Hmove.
  - destruct (processLocation_moving now l d Hmove) as (_ & -> & _).
    rewrite Hmark. cbn. by rewrite Ht0.
  - destruct (processLocation_slow now l d Hmove) as (-> & _). done.
Qed.

End DrivingDetectorMore.

(** X7.  Rest is debounced.  On a detector whose stationary marker is not
    set (a new or reset one, or one whose last sample was at or above
    [minSpeed]), for samples all below [minSpeed] whose timestamps never go
    back and whose first timestamp [t0] is not 0: the state reported at a
    sample is [stationary] when the sample is at least [maxStationaryTime]
    seconds after [t0], and before that it is the state the detector had,
    so that a stop shorter than [maxStationaryTime] leaves [driving] as it
    is. *)
Theorem rest_is_debounced d now0 l0 rest :
  DrivingDetector.unset (DrivingDetector.stationaryStartTime d) = true →
  timestamp l0 ≠ 0 →
  resting (DrivingDetector.conditions d) (timestamp l0) ((now0, l0) :: rest)
    = true →
  (feed ((now0, l0) :: rest) d).1 =
    restState (DrivingDetector.conditions d) (timestamp l0)
      (DrivingDetector.state d) <$> l0 :: rest.*2.
Proof.
  intros Hunset Ht0 Hres. cbn in Hres.
  apply andb_true_iff in Hres as [Hres Hrest].
  apply andb_true_iff in Hres as [Hslow%negb_true_iff _].
  destruct (processLocation_resting now0 l0 d Hslow)
    as (Hst' & Hmark' & _ & Hc & Hr).
  rewrite Hunset in Hst', Hmark'.
  cbn [feed].
  remember (DrivingDetector.processLocation now0 l0 d) as p eqn:E.
  destruct p as [res d'].
  cbn in Hst', Hmark', Hc, Hr.
  pose proof (feed_resting rest d' (timestamp l0) (timestamp l0)
                (DrivingDetector.state d) Hmark' Ht0) as IH.
  rewrite Hc in IH. specialize (IH Hst' Hrest).
  destruct (feed rest d') as [states d'']. cbn in IH. cbn.
  by rewrite Hr, Hst', IH.
Qed.

(** Driving confirmed at 61 s; at rest from 62 s: still [driving] at
    181.999 s, [stationary] at 182 s. *)
Lemma rest_is_debounced_witness :
  (feed (live [sample 62000 0; sample 100000 1; sample 181999 0;
               sample 182000 0])
        (feed (live [sample 1000 6; sample 61000 6]) freshDetector).2).1 =
  [driving; driving; driving; stationary].
Proof.
  exact (rest_is_debounced
           (feed (live [sample 1000 6; sample 61000 6]) freshDetector).2
           62000 (sample 62000 0)
           (live [sample 100000 1; sample 181999 0; sample 182000 0])
           eq_refl ltac:(discriminate) eq_refl).
Defined.

(** X8.  Once the driving-start marker holds a non-zero timestamp, no
    sample, fast or slow, ever changes it: only [reset] does. *)
Theorem drivingStartTime_never_changes samples d t0 :
  DrivingDetector.drivingStartTime d = Some t0 → t0 ≠ 0 →
  DrivingDetector.drivingStartTime (feed samples d).2 = Some t0 ∧
  DrivingDetector.drivingStartTime
    (DrivingDetector.reset (feed samples d).2) = None.
Proof.
  intros Hmark Ht0. split; [|done]. revert d Hmark.
  induction samples as [|[now l] rest IH]; intros d Hmark; [done|].
  cbn [feed].
  pose proof (drivingStartTime_kept now l d t0 Hmark Ht0) as Hkept.
  destruct (DrivingDetector.processLocation now l d) as [res d'].
  specialize (IH d' Hkept).
  destruct (feed rest d') as [states d'']. done.
Qed.

Lemma drivingStartTime_never_changes_witness :
  DrivingDetector.drivingStartTime
    (feed (live [sample 2000 0; sample 122000 0; sample 123000 6;
                 sample 500000 0; sample 900000 9])
          (feed (live [sample 1000 6]) freshDetector).2).2 = Some 1000 ∧
  DrivingDetector.drivingStartTime
    (DrivingDetector.reset
       (feed (live [sample 2000 0; sample 122000 0; sample 123000 6;
                    sample 500000 0; sample 900000 9])
             (feed (live [sample 1000 6]) freshDetector).2).2) = None.
Proof.
  exact (drivingStartTime_never_changes
           (live [sample 2000 0; sample 122000 0; sample 123000 6;
                  sample 500000 0; sample 900000 9])
           (feed (live [sample 1000 6]) freshDetector).2 1000
           eq_refl ltac:(discriminate)).
Defined.

Section DetectorResult.

Import DrivingDetector.

Lemma foldl_Qplus_ge l : ∀ a,
  Forall (λ q, 0 < q)%Q l → (a <= foldl Qplus a l)%Q.
Proof.
  induction l as [|q l IH]; intros a Hall; [apply Qle_refl|].
  apply Forall_cons in Hall as [Hq Hl]. cbn.
  eapply Qle_trans; [|by apply IH].
  rewrite <- (Qplus_0_r a) at 1. apply Qplus_le_r. by apply Qlt_le_weak.
Qed.

Lemma foldl_Qplus_pos q l :
  Forall (λ q, 0 < q)%Q (q :: l) → (0 < foldl Qplus 0 (q :: l))%Q.
Proof.
  intros Hall. apply Forall_cons in Hall as [Hq Hl]. cbn.
  eapply Qlt_le_trans; [|by apply foldl_Qplus_ge].
  by rewrite Qplus_0_l.
Qed.

Lemma Qgtb_true a b : Qgtb a b = true ↔ (b < a)%Q.
Proof.
  unfold Qgtb. rewrite negb_true_iff. split.
  - intros H. apply Qnot_le_lt. intros Hle.
    apply Qle_bool_iff in Hle. congruence.
  - intros Hlt. destruct (Qle_bool a b) eqn:E; [|done].
    apply Qle_bool_iff in E. by apply Qlt_not_le in Hlt.
Qed.

Lemma Qgeb_true a b : Qgeb a b = true ↔ (b <= a)%Q.
Proof. unfold Qgeb. apply Qle_bool_iff. Qed.

Lemma Qgeb_false a b : Qgeb a b = false ↔ (a < b)%Q.
Proof.
  unfold Qgeb. split.
  - intros H. apply Qnot_le_lt. intros Hle.
    apply Qle_bool_iff in Hle. congruence.
  - intros Hlt. destruct (Qle_bool b a) eqn:E; [|done].
    apply Qle_bool_iff in E. by apply Qlt_not_le in Hlt.
Qed.

Lemma locationHistory_processLocation now l d :
  locationHistory (processLocation now l d).2 =
  filter (λ x, now - 300000 < timestamp x) (locationHistory d ++ [l]).
Proof.
  unfold processLocation. cbv zeta.
  destruct (Qgeb _ (minSpeed _)); [destruct (unset _)|]; reflexivity.
Qed.

End DetectorResult.

(** X9.  The clock read by [processLocation] decides only which samples
    stay in the history (and so the average speed reported): the state,
    the two markers and the two durations are the same whatever the clock
    reads.  After the call every sample kept is younger than five minutes
    by that clock, so a sample stamped five minutes or more before the
    clock is not kept, though it has moved the state machine like any
    other. *)
Theorem clock_only_trims_history now now' l d :
  let r := DrivingDetector.processLocation now l d in
  let r' := DrivingDetector.processLocation now' l d in
  DrivingDetector.state r.2 = DrivingDetector.state r'.2 ∧
  DrivingDetector.drivingStartTime r.2 = DrivingDetector.drivingStartTime r'.2 ∧
  DrivingDetector.stationaryStartTime r.2 =
    DrivingDetector.stationaryStartTime r'.2 ∧
  r_state r.1 = r_state r'.1 ∧
  confidence r.1 = confidence r'.1 ∧
  drivingDuration r.1 = drivingDuration r'.1 ∧
  stationaryDuration r.1 = stationaryDuration r'.1 ∧
  Forall (λ x, now - timestamp x < 300000)
         (DrivingDetector.locationHistory r.2) ∧
  (∀ x, x ∈ DrivingDetector.locationHistory r.2 →
        x ∈ DrivingDetector.locationHistory d ∨ x = l) ∧
  (l ∈ DrivingDetector.locationHistory r.2 ↔ now - timestamp l < 300000).
Proof.
  intros r r'. subst r r'.
  rewrite (locationHistory_processLocation now l d).
  split; [|split; [|split; [|split; [|split; [|split; [|split]]]]]].
  1-7: unfold DrivingDetector.processLocation; cbv zeta;
       destruct (Qgeb _ (minSpeed _));
       [destruct (DrivingDetector.unset _)|]; reflexivity.
  split; [|split].
  - apply Forall_forall. intros x [Hx _]%list_elem_of_filter. lia.
  - intros x [_ Hx]%list_elem_of_filter.
    apply elem_of_app in Hx as [Hx|Hx]; [by left|].
    right. by apply list_elem_of_singleton in Hx.
  - rewrite list_elem_of_filter, elem_of_app, list_elem_of_singleton.
    split; [intros [H _]; lia | intros H; split; [lia | by right]].
Qed.

(** X10.  The average speed reported is never negative, and it is
    positive exactly when some sample kept in the history has a positive
    speed. *)
Theorem averageSpeed_sign l d :
  (0 <= r_averageSpeed (DrivingDetector.getResult l d))%Q ∧
  ((0 < r_averageSpeed (DrivingDetector.getResult l d))%Q ↔
   ∃ x, x ∈ DrivingDetector.locationHistory d ∧
        (0 < DrivingDetector.speedOr0 x)%Q).
Proof.
  unfold DrivingDetector.getResult. cbn [r_averageSpeed].
  set (positive := filter _ _).
  assert (Hpos : Forall (λ q, 0 < q)%Q positive).
  { apply Forall_forall. intros q [Hq _]%list_elem_of_filter.
    by apply Qgtb_true. }
  assert (Hex : (∃ x, x ∈ DrivingDetector.locationHistory d ∧
                      (0 < DrivingDetector.speedOr0 x)%Q) ↔ positive ≠ []).
  { split.
    - intros (x & Hx & Hv) Hnil.
      assert (DrivingDetector.speedOr0 x ∈ positive) as Hin.
      { apply list_elem_of_filter. split; [by apply Qgtb_true|].
        by apply list_elem_of_fmap_2. }
      rewrite Hnil in Hin. by apply not_elem_of_nil in Hin.
    - intros Hne. destruct positive as [|q k] eqn:E; [done|].
      assert (q ∈ positive) as Hin by (rewrite E; left).
      apply list_elem_of_filter in Hin as [Hq Hin].
      apply list_elem_of_fmap in Hin as (x & -> & Hx).
      exists x. split; [done|]. by apply Qgtb_true. }
  rewrite Hex. destruct positive as [|q k]; cbn [length Nat.ltb Nat.leb].
  - split; [apply Qle_refl|]. split; [intros H; by apply Qlt_irrefl in H|done].
  - assert (0 < foldl Qplus 0 (q :: k) /
                inject_Z (Z.of_nat (S (length k))))%Q as Hmean.
    { apply Qlt_shift_div_l.
      - rewrite <- (Zlt_Qlt 0). lia.
      - rewrite Qmult_0_l. by apply foldl_Qplus_pos. }
    split; [by apply Qlt_le_weak|]. done.
Qed.

(** X11.  For a sample at or above [minSpeed], with [minDuration]
    positive: when the state reported is [detecting] the confidence
    reported is below 1; when it is [driving] the confidence is at most 1,
    and at least 1/2 if the detector was not in [driving] before. *)
Theorem confidence_of_moving_sample now l d :
  Qgeb (DrivingDetector.speedOr0 l) (minSpeed (DrivingDetector.conditions d))
    = true →
  (0 < minDuration (DrivingDetector.conditions d))%Q →
  let r := (DrivingDetector.processLocation now l d).1 in
  ∃ c, confidence r = Some c ∧
       match r_state r with
       | detecting => (c < 1)%Q
       | driving =>
           (c <= 1)%Q ∧
           (DrivingDetector.state d ≠ driving → (1 # 2 <= c)%Q)
       | _ => c = 0%Q
       end.
Proof.
  intros Hmove Hmin r. subst r. unfold DrivingDetector.processLocation.
  rewrite Hmove.
  assert (Hne : Qeq_bool (minDuration (DrivingDetector.conditions d)) 0 = false).
  { destruct (Qeq_bool _ 0) eqn:E; [|done]. apply Qeq_bool_iff in E.
    rewrite E in Hmin. by apply Qlt_irrefl in Hmin. }
  assert (Hmin2 : (0 < minDuration (DrivingDetector.conditions d) * 2)%Q).
  { rewrite <- (Qmult_0_l 2). by apply Qmult_lt_r. }
  assert (Hhalf : ∀ q, (minDuration (DrivingDetector.conditions d) <= q)%Q →
            (1 # 2 <= Qmin 1 (q / (minDuration (DrivingDetector.conditions d) * 2)))%Q).
  { intros q Hq. apply Q.min_glb; [done|].
    apply Qle_shift_div_l; [done|].
    eapply Qle_trans; [|exact Hq].
    assert ((1 # 2) * (minDuration (DrivingDetector.conditions d) * 2) ==
            minDuration (DrivingDetector.conditions d))%Q as -> by ring.
    apply Qle_refl. }
  assert (Hdur : ∀ t,
            DrivingDetector.unset (Some t) = true → t = 0) .
  { intros t Ht. cbn in Ht. by apply Z.eqb_eq in Ht. }
  destruct (DrivingDetector.unset (DrivingDetector.drivingStartTime d)) eqn:Hu.
  - (* the marker is set at this sample *)
    cbn [fst snd DrivingDetector.getResult DrivingDetector.state
         DrivingDetector.conditions DrivingDetector.drivingStartTime
         confidence r_state].
    destruct (Qgeb (DrivingDetector.seconds (timestamp l) (timestamp l)) _)
      eqn:Hq; rewrite Hne; eexists; (split; [done|]).
    + split; [apply Q.le_min_l|]. intros _.
      apply Qgeb_true in Hq.
      destruct (DrivingDetector.unset (Some (timestamp l))) eqn:Hz.
      * exfalso. apply Hdur in Hz.
        unfold DrivingDetector.seconds in Hq. rewrite Z.sub_diag in Hq.
        assert (inject_Z 0 / 1000 == 0)%Q as Hz0 by reflexivity.
        rewrite Hz0 in Hq. by apply Qle_not_lt in Hq.
      * cbn [default]. by apply Hhalf.
    + apply Qgeb_false in Hq.
      destruct (DrivingDetector.unset (Some (timestamp l))).
      * unfold Qdiv. by rewrite Qmult_0_l.
      * cbn [default]. apply Qlt_shift_div_r; [done|]. by rewrite Qmult_1_l.
  - (* the marker was set before, to a non-zero timestamp *)
    destruct (DrivingDetector.drivingStartTime d) as [t0|] eqn:Hm; [|done].
    cbn [default].
    cbn [fst snd DrivingDetector.getResult DrivingDetector.state
         DrivingDetector.conditions DrivingDetector.drivingStartTime
         confidence r_state].
    change (Datatypes.id t0) with t0. rewrite Hu. cbn [default].
    change (Datatypes.id t0) with t0.
    destruct (Qgeb (DrivingDetector.seconds (timestamp l) t0) _) eqn:Hq.
    + rewrite Hne. eexists. split; [done|].
      split; [apply Q.le_min_l|]. intros _. apply Qgeb_true in Hq.
      by apply Hhalf.
    + apply Qgeb_false in Hq.
      destruct (DrivingDetector.state d) eqn:Hst; rewrite ?Hne;
        eexists; (split; [done|]); try done.
      * apply Qlt_shift_div_r; [done|]. by rewrite Qmult_1_l.
      * split; [apply Q.le_min_l|]. done.
Qed.

Lemma confidence_of_moving_sample_witness :
  ∃ c,
    confidence (DrivingDetector.processLocation 31000 (sample 31000 6)
                  (feed (live [sample 1000 6]) freshDetector).2).1 = Some c ∧
    (c < 1)%Q.
Proof.
  exact (confidence_of_moving_sample 31000 (sample 31000 6)
           (feed (live [sample 1000 6]) freshDetector).2
           eq_refl eq_refl).
Defined.

(** With a sample below [minSpeed] the confidence of a [detecting] result
    is not bounded by 1: 99 s after the marker it is 99/60. *)
Example confidence_above_one :
  let r :=
    (DrivingDetector.processLocation 100000 (sample 100000 0)
       (feed (live [sample 1000 6]) freshDetector).2).1 in
  r_state r = detecting ∧
  (λ c, Qeq_bool c (99 # 60)) <$> confidence r = Some true.
Proof. by vm_compute. Qed.

(** ** Names and tags *)

Section Matching.

Import CarBluetoothMatcher.

Lemma matchesAt_length pattern : ∀ input,
  matchesAt pattern input = true → (length pattern ≤ length input)%nat.
Proof.
  induction pattern as [|p pattern IH]; intros input H; [cbn; lia|].
  destruct input as [|c input]; [done|]. cbn in H.
  apply andb_true_iff in H as [_ H]. apply IH in H. cbn. lia.
Qed.

Lemma test_length pattern input :
  test pattern input = true → (length pattern ≤ length input)%nat.
Proof.
  induction input as [|c input IH]; cbn [test].
  - rewrite orb_false_r. apply matchesAt_length.
  - intros [H|H]%orb_true_iff; [by apply matchesAt_length|].
    apply IH in H. cbn. lia.
Qed.

Lemma matchesAt_app_r pattern : ∀ input post,
  matchesAt pattern input = true →
  matchesAt pattern (input ++ post) = true.
Proof.
  induction pattern as [|p pattern IH]; intros input post H; [done|].
  destruct input as [|c input]; [done|].
  cbn [app matchesAt] in *.
  apply andb_true_iff in H as [-> H]. by apply IH.
Qed.

Lemma test_app_r pattern input post :
  test pattern input = true → test pattern (input ++ post) = true.
Proof.
  induction input as [|c input IH]; cbn [test].
  - rewrite orb_false_r. intros H.
    apply (matchesAt_app_r _ _ post) in H. cbn [app] in *.
    destruct post; cbn [test]; by rewrite H.
  - intros [H|H]%orb_true_iff.
    + apply (matchesAt_app_r _ _ post) in H.
      cbn [app] in *. cbn [test]. by rewrite H.
    + cbn [app test]. rewrite (IH H). apply orb_true_r.
Qed.

Lemma test_app_l pattern pre input :
  test pattern input = true → test pattern (pre ++ input) = true.
Proof.
  intros H. induction pre as [|c pre IH]; [done|].
  cbn [app test]. rewrite IH. apply orb_true_r.
Qed.

Lemma matchesAt_prefix p q : ∀ input,
  matchesAt (p ++ q) input = true → matchesAt p input = true.
Proof.
  induction p as [|c p IH]; intros input H; [done|].
  destruct input as [|x input]; [done|].
  cbn [app matchesAt] in *.
  apply andb_true_iff in H as [-> H]. by apply IH.
Qed.

Lemma test_prefix p q input :
  test (p ++ q) input = true → test p input = true.
Proof.
  induction input as [|c input IH]; cbn [test].
  - rewrite !orb_false_r. apply matchesAt_prefix.
  - intros [H|H]%orb_true_iff.
    + by rewrite (matchesAt_prefix _ _ _ H).
    + rewrite (IH H). apply orb_true_r.
Qed.

Lemma matchesAt_suffix q p : ∀ input,
  matchesAt (q ++ p) input = true → test p input = true.
Proof.
  induction q as [|c q IH]; intros input H.
  - cbn [app] in H. destruct input; cbn [test]; by rewrite H.
  - destruct input as [|x input]; [done|].
    cbn [app matchesAt] in H.
    apply andb_true_iff in H as [_ H].
    cbn [test]. rewrite (IH _ H). apply orb_true_r.
Qed.

Lemma test_suffix q p input :
  test (q ++ p) input = true → test p input = true.
Proof.
  induction input as [|c input IH]; cbn [test].
  - rewrite orb_false_r. intros H. by apply matchesAt_suffix in H.
  - intros [H|H]%orb_true_iff.
    + by apply matchesAt_suffix in H.
    + rewrite (IH H). apply orb_true_r.
Qed.

Lemma matchesCarPattern_true name :
  matchesCarPattern name = true ↔
  ∃ pattern, pattern ∈ patterns ∧ test pattern name = true.
Proof.
  unfold matchesCarPattern. rewrite existsb_exists.
  split; intros (p & Hp & Ht); exists p; split; try done;
    by apply list_elem_of_In.
Qed.

End Matching.

(** X12.  Matching is by containment, whatever surrounds the match: a
    name that matches still matches with any text put before and after
    it.  Every pattern has at least three characters, so a name of fewer
    than three characters never matches. *)
Theorem matchesCarPattern_containment name :
  (∀ pre post,
     CarBluetoothMatcher.matchesCarPattern name = true →
     CarBluetoothMatcher.matchesCarPattern (pre ++ name ++ post) = true) ∧
  ((length name < 3)%nat →
   CarBluetoothMatcher.matchesCarPattern name = false).
Proof.
  split.
  - intros pre post (p & Hp & Ht)%matchesCarPattern_true.
    apply matchesCarPattern_true. exists p. split; [done|].
    by apply test_app_l, test_app_r.
  - intros Hlen.
    destruct (CarBluetoothMatcher.matchesCarPattern name) eqn:E; [|done].
    apply matchesCarPattern_true in E as (p & Hp & Ht).
    apply test_length in Ht.
    assert (3 ≤ length p)%nat; [|lia].
    unfold CarBluetoothMatcher.patterns in Hp. cbn [fmap list_fmap] in Hp.
    repeat (apply elem_of_cons in Hp as [->|Hp]; [cbn; lia|]).
    by apply elem_of_nil in Hp.
Qed.

(** X13.  The patterns "carplay" and "android auto" never decide: a name
    they match is matched by "car" or by "auto" already, so
    [matchesCarPattern] is the test against the other twenty-one. *)
Theorem carplay_and_android_auto_are_redundant name :
  CarBluetoothMatcher.matchesCarPattern name =
  existsb (λ pattern, CarBluetoothMatcher.test pattern name) decidingPatterns.
Proof.
  unfold CarBluetoothMatcher.matchesCarPattern, CarBluetoothMatcher.patterns,
    decidingPatterns.
  cbn [existsb fmap list_fmap].
  pose proof (test_prefix (utf16 "car") (utf16 "play") name) as Hcar.
  pose proof (test_suffix (utf16 "android ") (utf16 "auto") name) as Hauto.
  change (utf16 "car" ++ utf16 "play") with (utf16 "carplay") in Hcar.
  change (utf16 "android " ++ utf16 "auto") with (utf16 "android auto")
    in Hauto.
  destruct (CarBluetoothMatcher.test (utf16 "car") name); [done|].
  destruct (CarBluetoothMatcher.test (utf16 "auto") name); [done|].
  destruct (CarBluetoothMatcher.test (utf16 "carplay") name);
    [by discriminate Hcar|].
  destruct (CarBluetoothMatcher.test (utf16 "android auto") name);
    [by discriminate Hauto|].
  done.
Qed.

(** X14.  Tagging and untagging.  Tagging a device changes the answer of
    [isCarDevice] for no device with another id; tagging it again only
    replaces the record; untagging a device that was tagged while it had no
    tag returns true and gives back the tag map as it was; untagging a
    device without a tag returns false and changes nothing. *)
Theorem tagging_round_trip now1 now2 d m :
  (∀ other, bd_id other ≠ bd_id d →
     CarBluetoothMatcher.isCarDevice other
       (CarBluetoothMatcher.tagAsCarDevice now1 now2 d m).2 =
     CarBluetoothMatcher.isCarDevice other m) ∧
  (∀ now3 now4,
     (CarBluetoothMatcher.tagAsCarDevice now3 now4 d
        (CarBluetoothMatcher.tagAsCarDevice now1 now2 d m).2).2 =
     (CarBluetoothMatcher.tagAsCarDevice now3 now4 d m).2) ∧
  (CarBluetoothMatcher.manuallyTaggedDevices m !! bd_id d = None →
   CarBluetoothMatcher.untagCarDevice (bd_id d)
     (CarBluetoothMatcher.tagAsCarDevice now1 now2 d m).2 = (true, m) ∧
   CarBluetoothMatcher.untagCarDevice (bd_id d) m = (false, m)).
Proof.
  destruct m as [tags]. unfold CarBluetoothMatcher.isCarDevice,
    CarBluetoothMatcher.tagAsCarDevice, CarBluetoothMatcher.untagCarDevice.
  cbn. split; [|split].
  - intros other Hne. by rewrite lookup_insert_ne.
  - intros now3 now4. by rewrite insert_insert_eq.
  - intros Hnone. split.
    + rewrite lookup_insert_eq, delete_insert_eq.
      rewrite bool_decide_eq_true_2 by eauto.
      by rewrite delete_id.
    + rewrite Hnone, delete_id by done.
      by rewrite bool_decide_eq_false_2 by (by intros [? ?]).
Qed.

Section Listener.

Import BluetoothListener.

Lemma isCar_matchesCarPattern name :
  isCar name = true → CarBluetoothMatcher.matchesCarPattern name = true.
Proof.
  unfold isCar. cbn [existsb fmap list_fmap]. rewrite !orb_true_iff.
  intros H. apply matchesCarPattern_true.
  destruct H as [H|[H|[H|[H|H]]]]; [| | | |done];
    eexists; (split; [|exact H]);
    unfold CarBluetoothMatcher.patterns; cbn [fmap list_fmap]; set_solver.
Qed.

Lemma isCarConnected_onDeviceConnected device b :
  isCarConnected (onDeviceConnected device b) =
  isCarConnected b || isCarDevice device.
Proof.
  unfold isCarConnected, onDeviceConnected. cbn.
  rewrite existsb_app. cbn. by rewrite orb_false_r.
Qed.

Lemma scanCallback_cases now error device b :
  scanCallback now error device b = b ∨
  ∃ dev name,
    error = None ∧ device = Some dev ∧ sd_name dev = Some name ∧
    isCar name = true ∧
    scanCallback now error device b =
      onDeviceConnected (mkBluetoothDevice (sd_id dev) name true None now) b.
Proof.
  unfold scanCallback.
  destruct error; [by left|]. destruct device as [dev|]; [|by left].
  destruct (sd_name dev) as [name|] eqn:Hn; [|by left].
  destruct name as [|c name]; [by left|].
  destruct (isCar (c :: name)) eqn:Hc; [|by left].
  right. by exists dev, (c :: name).
Qed.

Lemma listenerStep_connectedDevices b c :
  connectedDevices (listenerStep b c) = connectedDevices b ∨
  ∃ device,
    isCarDevice device = true ∧ isCar (bd_name device) = true ∧
    connectedDevices (listenerStep b c) = connectedDevices b ++ [device].
Proof.
  destruct c as [now error device|failure|failure]; cbn [listenerStep].
  - destruct (scanCallback_cases now error device b)
      as [->|(dev & name & _ & _ & _ & Hc & ->)]; [by left|].
    right. exists (mkBluetoothDevice (sd_id dev) name true None now).
    by repeat split.
  - destruct failure; by left.
  - destruct failure; by left.
Qed.

End Listener.

(** X15.  The check of the scan callback is narrower than the matcher:
    every name it accepts is accepted by [matchesCarPattern], and some
    names that [matchesCarPattern] accepts it does not. *)
Theorem scan_check_is_narrower :
  (∀ name, BluetoothListener.isCar name = true →
           CarBluetoothMatcher.matchesCarPattern name = true) ∧
  BluetoothListener.isCar (utf16 "Tesla Model 3") = false ∧
  CarBluetoothMatcher.matchesCarPattern (utf16 "Tesla Model 3") = true.
Proof. split; [apply isCar_matchesCarPattern | by vm_compute]. Qed.

(** X16.  Whatever scan results arrive and however often listening is
    started and stopped, the list of connected devices only grows; every
    device a fresh listener holds was put there by the scan callback, is
    flagged as a car and has a name the callback's check accepts; so once
    [isCarConnected] is true it stays true.  A scan result with an error,
    without a device or without a name changes nothing. *)
Theorem isCarConnected_never_reverts (calls : list ListenerCall) :
  (∀ b, BluetoothListener.connectedDevices b `prefix_of`
          BluetoothListener.connectedDevices (foldl listenerStep b calls)) ∧
  (∀ b, BluetoothListener.isCarConnected b = true →
        BluetoothListener.isCarConnected (foldl listenerStep b calls) = true) ∧
  Forall (λ device, isCarDevice device = true ∧
                    BluetoothListener.isCar (bd_name device) = true)
    (BluetoothListener.connectedDevices
       (foldl listenerStep BluetoothListener.init calls)) ∧
  (∀ now b e device dev,
     BluetoothListener.scanCallback now (Some e) device b = b ∧
     BluetoothListener.scanCallback now None None b = b ∧
     (BluetoothListener.sd_name dev = None ∨
      BluetoothListener.sd_name dev = Some [] →
      BluetoothListener.scanCallback now None (Some dev) b = b)).
Proof.
  assert (Hgrow : ∀ b,
            BluetoothListener.connectedDevices b `prefix_of`
            BluetoothListener.connectedDevices (foldl listenerStep b calls)).
  { induction calls as [|c calls IH]; intros b; [done|]. cbn [foldl].
    etrans; [|apply IH].
    destruct (listenerStep_connectedDevices b c) as [->|(dev & _ & _ & ->)];
      [done|]. by apply prefix_app_r. }
  split; [exact Hgrow|]. split; [|split].
  - intros b Hb. destruct (Hgrow b) as [k Hk].
    unfold BluetoothListener.isCarConnected in *. rewrite Hk, existsb_app, Hb.
    done.
  - assert (Hinv : ∀ b,
              Forall (λ device, isCarDevice device = true ∧
                        BluetoothListener.isCar (bd_name device) = true)
                (BluetoothListener.connectedDevices b) →
              Forall (λ device, isCarDevice device = true ∧
                        BluetoothListener.isCar (bd_name device) = true)
                (BluetoothListener.connectedDevices
                   (foldl listenerStep b calls))).
    { clear Hgrow. induction calls as [|c calls IH]; intros b Hb; [done|].
      cbn [foldl]. apply IH.
      destruct (listenerStep_connectedDevices b c)
        as [->|(dev & H1 & H2 & ->)]; [done|].
      apply Forall_app. split; [done|]. by repeat constructor. }
    apply Hinv. constructor.
  - intros now b e device dev. split; [done|]. split; [done|].
    unfold BluetoothListener.scanCallback. by intros [->| ->].
Qed.

(** ** Starting, stopping and subscribing *)

Lemma start_not_idle bt gps d :
  DriveSentry.isInitialized d = true → DriveSentry.status d ≠ StatusIdle →
  DriveSentry.start bt gps d = (Returned, d).
Proof.
  intros Hinit Hst. unfold DriveSentry.start. rewrite Hinit.
  by destruct (DriveSentry.status d).
Qed.

Lemma emittedSince_one d d' entry :
  DriveSentry.emitted d' = DriveSentry.emitted d ++ [entry] →
  emittedSince d d' = [entry].
Proof. intros H. unfold emittedSince. by rewrite H, drop_app_length. Qed.

(** X17.  The guards of [start].  Before [initialize] it throws and
    changes nothing.  On an initialized service in status [idle], with both
    feeds starting, it sets the status to [monitoring]; any further [start]
    then returns without changing anything.  When a feed fails to start, the
    error is emitted and thrown and the status is [error]; the Bluetooth
    listener has [isScanning] set all the same, also when it is its own
    scan that failed to start; a further [start] then returns without doing
    anything, even if the feeds would now start. *)
Theorem start_guards d :
  (DriveSentry.isInitialized d = false →
   ∀ bt gps,
     DriveSentry.start bt gps d =
       (Thrown "DriveSentry not initialized. Call initialize() first.", d)) ∧
  (DriveSentry.isInitialized d = true →
   DriveSentry.status d = StatusIdle →
   (let r := DriveSentry.start None None d in
    r.1 = Returned ∧ DriveSentry.status r.2 = StatusMonitoring ∧
    BluetoothListener.isScanning (DriveSentry.bluetoothListener r.2) = true ∧
    GPSListener.isTracking (DriveSentry.gpsListener r.2) = true ∧
    DriveSentry.emitted r.2 = DriveSentry.emitted d ∧
    ∀ bt gps, DriveSentry.start bt gps r.2 = (Returned, r.2)) ∧
   (∀ e gps,
      let r := DriveSentry.start (Some e) gps d in
      r.1 = Thrown e ∧ DriveSentry.status r.2 = StatusError ∧
      BluetoothListener.isScanning (DriveSentry.bluetoothListener r.2) = true ∧
      DriveSentry.gpsListener r.2 = DriveSentry.gpsListener d ∧
      emittedSince d r.2 = [(ERROR e, DriveSentry.eventHandlers d)] ∧
      ∀ bt' gps', DriveSentry.start bt' gps' r.2 = (Returned, r.2)) ∧
   (∀ e,
      let r := DriveSentry.start None (Some e) d in
      r.1 = Thrown e ∧ DriveSentry.status r.2 = StatusError ∧
      BluetoothListener.isScanning (DriveSentry.bluetoothListener r.2) = true ∧
      emittedSince d r.2 = [(ERROR e, DriveSentry.eventHandlers d)] ∧
      ∀ bt' gps', DriveSentry.start bt' gps' r.2 = (Returned, r.2))).
Proof.
  split.
  - intros Hinit bt gps. unfold DriveSentry.start. by rewrite Hinit.
  - intros Hinit Hidle. split; [|split].
    + unfold DriveSentry.start. rewrite Hinit, Hidle. cbn.
      repeat (split; [done|]). intros bt gps. by rewrite Hinit.
    + intros e gps. unfold DriveSentry.start. rewrite Hinit, Hidle. cbn.
      repeat (split; [done|]). split; [by apply emittedSince_one|].
      intros bt' gps'. by rewrite Hinit.
    + intros e. unfold DriveSentry.start. rewrite Hinit, Hidle. cbn.
      repeat (split; [done|]). split; [by apply emittedSince_one|].
      intros bt' gps'. by rewrite Hinit.
Qed.

Lemma start_guards_witness :
  let d := (DriveSentry.initialize None None DriveSentry.init).2 in
  let r := DriveSentry.start None None d in
  r.1 = Returned ∧ DriveSentry.status r.2 = StatusMonitoring ∧
  ∀ bt gps, DriveSentry.start bt gps r.2 = (Returned, r.2).
Proof.
  intros d r.
  destruct (start_guards d) as [_ H].
  destruct (H eq_refl eq_refl) as [(H1 & H2 & _ & _ & _ & H6) _].
  exact (conj H1 (conj H2 H6)).
Defined.

(** X18.  [initialize] runs once: on an initialized service it returns
    without changing anything; with both set-ups succeeding it marks the
    service initialized and changes nothing else that is observable; when a
    set-up fails the error is emitted and thrown and the service stays
    uninitialized, so that [start] still throws. *)
Theorem initialize_once d :
  (DriveSentry.isInitialized d = true →
   ∀ bt gps, DriveSentry.initialize bt gps d = (Returned, d)) ∧
  (DriveSentry.isInitialized d = false →
   (let r := DriveSentry.initialize None None d in
    r.1 = Returned ∧ DriveSentry.isInitialized r.2 = true ∧
    DriveSentry.status r.2 = DriveSentry.status d ∧
    DriveSentry.emitted r.2 = DriveSentry.emitted d ∧
    DriveSentry.sessionManager r.2 = DriveSentry.sessionManager d ∧
    ∀ bt gps, DriveSentry.initialize bt gps r.2 = (Returned, r.2)) ∧
   (∀ bt gps e, bt = Some e ∨ (bt = None ∧ gps = Some e) →
      let r := DriveSentry.initialize bt gps d in
      r.1 = Thrown e ∧ DriveSentry.isInitialized r.2 = false ∧
      emittedSince d r.2 = [(ERROR e, DriveSentry.eventHandlers d)] ∧
      ∀ bt' gps',
        DriveSentry.start bt' gps' r.2 =
          (Thrown "DriveSentry not initialized. Call initialize() first.",
           r.2))).
Proof.
  split.
  - intros Hinit bt gps. unfold DriveSentry.initialize. by rewrite Hinit.
  - intros Hinit. unfold DriveSentry.initialize. rewrite Hinit. split.
    + cbn. by repeat split.
    + intros bt gps e [->|[-> ->]]; cbn;
        (split; [done|]); (split; [done|]);
        (split; [by apply emittedSince_one|]);
        intros bt' gps'; unfold DriveSentry.start; cbn; by rewrite Hinit.
Qed.

Lemma initialize_once_witness :
  let r := DriveSentry.initialize None None DriveSentry.init in
  r.1 = Returned ∧ DriveSentry.isInitialized r.2 = true ∧
  ∀ bt gps, DriveSentry.initialize bt gps r.2 = (Returned, r.2).
Proof.
  intros r.
  destruct (initialize_once DriveSentry.init) as [_ H].
  destruct (H eq_refl) as [(H1 & H2 & _ & _ & _ & H6) _].
  exact (conj H1 (conj H2 H6)).
Defined.

(** X19.  A feed that fails to stop.  When stopping the Bluetooth scan
    throws, [stop] does not finish the teardown: it emits the error and
    throws it, the status and the detector are left as they were, not set
    to [idle] and not reset, and the location feed is not stopped; yet an
    open session has already been ended.  When it is the platform call of
    the location feed that throws, the feed catches it: [stop] returns as
    if all had gone well, with no [ERROR] emitted, the status [idle], the
    detector reset and the Bluetooth scan off, while [isTracking] of the
    location feed is as it was. *)
Theorem stop_with_a_failing_feed now e d :
  (∀ gps,
     let r := DriveSentry.stop now (Some e) gps d in
     r.1 = Thrown e ∧
     DriveSentry.status r.2 = DriveSentry.status d ∧
     DriveSentry.drivingDetector r.2 = DriveSentry.drivingDetector d ∧
     DriveSentry.bluetoothListener r.2 = DriveSentry.bluetoothListener d ∧
     DriveSentry.gpsListener r.2 = DriveSentry.gpsListener d ∧
     emittedSince d r.2 = [(ERROR e, DriveSentry.eventHandlers d)] ∧
     SessionManager.isSessionActive (DriveSentry.sessionManager r.2) = false) ∧
  (let r := DriveSentry.stop now None (Some e) d in
   r.1 = Returned ∧
   DriveSentry.status r.2 = StatusIdle ∧
   DriveSentry.drivingDetector r.2 =
     DrivingDetector.create
       (DrivingDetector.conditions (DriveSentry.drivingDetector d)) ∧
   BluetoothListener.isScanning (DriveSentry.bluetoothListener r.2) = false ∧
   DriveSentry.gpsListener r.2 = DriveSentry.gpsListener d ∧
   emittedSince d r.2 = [] ∧
   SessionManager.isSessionActive (DriveSentry.sessionManager r.2) = false).
Proof.
  assert (Hended : ∀ s,
            SessionManager.current (DriveSentry.sessionManager d) = Some s →
            ∃ c m', SessionManager.endSession now TriggerManual
                      (DriveSentry.sessionManager d) = Ok (c, m') ∧
                    SessionManager.isSessionActive m' = false).
  { intros s Hs. rewrite (endSession_Some _ _ _ s) by done. by do 2 eexists. }
  assert (Hnone : ∀ d', DriveSentry.emitted d' = DriveSentry.emitted d →
                        emittedSince d d' = []).
  { intros d' Hd'. unfold emittedSince. rewrite Hd'. apply drop_all. }
  unfold DriveSentry.stop.
  destruct (SessionManager.isSessionActive (DriveSentry.sessionManager d))
    eqn:Hact.
  - apply isSessionActive_true in Hact as (s & Hs & _).
    destruct (Hended s Hs) as (c & m' & -> & Hm').
    split; [intros gps|]; cbn;
      repeat (split; [first [done | by apply emittedSince_one
                            | by apply Hnone]|]); done.
  - split; [intros gps|]; cbn;
      repeat (split; [first [done | by apply emittedSince_one
                            | by apply Hnone]|]); done.
Qed.

Lemma stop_when_stopped now d :
  SessionManager.isSessionActive (DriveSentry.sessionManager d) = false →
  BluetoothListener.isScanning (DriveSentry.bluetoothListener d) = false →
  GPSListener.isTracking (DriveSentry.gpsListener d) = false →
  DrivingDetector.reset (DriveSentry.drivingDetector d) =
    DriveSentry.drivingDetector d →
  DriveSentry.status d = StatusIdle →
  DriveSentry.stop now None None d = (Returned, d).
Proof.
  intros Hact Hbt Hgps Hdet Hst. unfold DriveSentry.stop. rewrite Hact.
  destruct d as [[scan devs] [track mode] det cm sm st hs ini log].
  cbn in Hbt, Hgps, Hdet, Hst. subst scan track st.
  cbn -[DrivingDetector.reset]. by rewrite Hdet.
Qed.

(** X20.  With both feeds stopping, [stop] returns with the status
    [idle], both feeds off, the detector reset and no open session, and a
    second [stop] changes nothing more. *)
Theorem stop_is_idempotent now now' d :
  let r := DriveSentry.stop now None None d in
  r.1 = Returned ∧
  DriveSentry.status r.2 = StatusIdle ∧
  BluetoothListener.isScanning (DriveSentry.bluetoothListener r.2) = false ∧
  GPSListener.isTracking (DriveSentry.gpsListener r.2) = false ∧
  DriveSentry.drivingDetector r.2 =
    DrivingDetector.create
      (DrivingDetector.conditions (DriveSentry.drivingDetector d)) ∧
  SessionManager.isSessionActive (DriveSentry.sessionManager r.2) = false ∧
  DriveSentry.stop now' None None r.2 = (Returned, r.2).
Proof.
  intros r.
  assert (H : r.1 = Returned ∧
    DriveSentry.status r.2 = StatusIdle ∧
    BluetoothListener.isScanning (DriveSentry.bluetoothListener r.2) = false ∧
    GPSListener.isTracking (DriveSentry.gpsListener r.2) = false ∧
    DriveSentry.drivingDetector r.2 =
      DrivingDetector.create
        (DrivingDetector.conditions (DriveSentry.drivingDetector d)) ∧
    SessionManager.isSessionActive (DriveSentry.sessionManager r.2) = false).
  { subst r. unfold DriveSentry.stop.
    destruct (SessionManager.isSessionActive (DriveSentry.sessionManager d))
      eqn:Hact.
    - apply isSessionActive_true in Hact as (s & Hs & _).
      rewrite (endSession_Some _ _ _ s) by done. cbn. by repeat split.
    - cbn. by repeat split. }
  destruct H as (H1 & H2 & H3 & H4 & H5 & H6).
  repeat (split; [done|]).
  apply stop_when_stopped; try done. by rewrite H5.
Qed.

(** ** Handling events *)

Lemma DriveSentryStatus_eqb_true a b :
  DriveSentryStatus_eqb a b = true → a = b.
Proof. by destruct a, b. Qed.

Lemma status_not_driving st :
  st ≠ StatusDriving → negb (DriveSentryStatus_eqb st StatusDriving) = true.
Proof. by destruct st. Qed.

(** X21.  The first detection.  When the detector reports [driving]
    while the status is not [driving] and no session is open, the handler
    returns with the status [driving] and the feed in driving mode, having
    emitted [LOCATION_UPDATE], [DRIVING_DETECTED] and [SESSION_STARTED] in
    this order.  The new session is active, starts at the clock reading,
    and its trigger is the bluetooth one, with the fixed device id
    "unknown" and name "Car", when a car device is connected, and otherwise
    the gps one with this sample.  The sample itself is not recorded: the
    session has no waypoint yet. *)
Theorem first_detection now rnd location d :
  r_state (DrivingDetector.processLocation now location
             (DriveSentry.drivingDetector d)).1 = driving →
  DriveSentry.status d ≠ StatusDriving →
  SessionManager.isSessionActive (DriveSentry.sessionManager d) = false →
  let r := DriveSentry.handleLocationUpdate now rnd location d in
  let trigger :=
    if BluetoothListener.isCarConnected (DriveSentry.bluetoothListener d)
    then TriggerBluetooth "unknown" (utf16 "Car")
    else TriggerGps location in
  let a := length (SessionManager.store (DriveSentry.sessionManager d)) in
  r.1 = Returned ∧
  DriveSentry.status r.2 = StatusDriving ∧
  SessionManager.getCurrentSession (DriveSentry.sessionManager r.2) =
    Some (mkDriveSession (SessionManager.generateSessionId now rnd) now None
            active trigger None 0%R 0%Q 0%R 0%Q 0%nat) ∧
  SessionManager.waypoints (DriveSentry.sessionManager r.2) = [] ∧
  (emittedSince d r.2).*1 =
    [LOCATION_UPDATE location; DRIVING_DETECTED; SESSION_STARTED a] ∧
  GPSListener.currentMode (DriveSentry.gpsListener r.2) = ModeDriving.
Proof.
  intros Hdet Hst Hfree r trigger a. subst r trigger a.
  rewrite handleLocationUpdate_unfold. cbv zeta.
  change (DriveSentry.drivingDetector
            (DriveSentry.emit (LOCATION_UPDATE location) d))
    with (DriveSentry.drivingDetector d).
  remember (DrivingDetector.processLocation now location
              (DriveSentry.drivingDetector d)) as p eqn:E.
  destruct p as [result detector]. cbn in Hdet. rewrite Hdet.
  cbn [DriveSentry.status DriveSentry.set_drivingDetector DriveSentry.emit].
  rewrite status_not_driving by done.
  rewrite handleDrivingDetected_unfold. cbv zeta.
  cbn [DriveSentry.sessionManager DriveSentry.set_drivingDetector
       DriveSentry.emit DriveSentry.set_status DriveSentry.bluetoothListener].
  rewrite startSession_free by done.
  cbn. unfold emittedSince, SessionManager.getCurrentSession,
    SessionManager.current. cbn.
  rewrite <- !app_assoc, drop_app_length.
  rewrite lookup_app_r by lia. rewrite Nat.sub_diag.
  by repeat split.
Qed.

Lemma first_detection_witness :
  let d :=
    (DriveSentry.processLocationUpdates
       (batch [sample 1000 6; sample 31000 6]) monitoring).2 in
  let r := DriveSentry.handleLocationUpdate 61000 "r4nd0m" (sample 61000 6) d in
  r.1 = Returned ∧
  DriveSentry.status r.2 = StatusDriving ∧
  SessionManager.getCurrentSession (DriveSentry.sessionManager r.2) =
    Some (mkDriveSession (SessionManager.generateSessionId 61000 "r4nd0m")
            61000 None active (TriggerGps (sample 61000 6)) None
            0%R 0%Q 0%R 0%Q 0%nat) ∧
  SessionManager.waypoints (DriveSentry.sessionManager r.2) = [] ∧
  (emittedSince d r.2).*1 =
    [LOCATION_UPDATE (sample 61000 6); DRIVING_DETECTED; SESSION_STARTED 0] ∧
  GPSListener.currentMode (DriveSentry.gpsListener r.2) = ModeDriving.
Proof.
  intros d r.
  apply (first_detection 61000 "r4nd0m" (sample 61000 6) d);
    [vm_compute; reflexivity | vm_compute; discriminate
    | vm_compute; reflexivity].
Defined.

(** X22.  A car connecting only arms the service.  [handleCarConnected]
    emits [BLUETOOTH_CONNECTED] and nothing else, and leaves the session
    manager, the detector and the list of connected devices untouched; from
    status [monitoring] or [idle] it moves to [detecting] with the feed in
    driving mode, and from any other status it changes nothing more.  When
    it finds the service initialized but not yet started, a later [start]
    returns without starting the feeds. *)
Theorem car_connected_only_arms device d :
  let r := DriveSentry.handleCarConnected device d in
  r.1 = Returned ∧
  DriveSentry.sessionManager r.2 = DriveSentry.sessionManager d ∧
  DriveSentry.drivingDetector r.2 = DriveSentry.drivingDetector d ∧
  DriveSentry.bluetoothListener r.2 = DriveSentry.bluetoothListener d ∧
  emittedSince d r.2 =
    [(BLUETOOTH_CONNECTED device, DriveSentry.eventHandlers d)] ∧
  (if DriveSentryStatus_eqb (DriveSentry.status d) StatusMonitoring ||
      DriveSentryStatus_eqb (DriveSentry.status d) StatusIdle
   then DriveSentry.status r.2 = StatusDetecting ∧
        GPSListener.currentMode (DriveSentry.gpsListener r.2) = ModeDriving
   else DriveSentry.status r.2 = DriveSentry.status d ∧
        DriveSentry.gpsListener r.2 = DriveSentry.gpsListener d) ∧
  (DriveSentry.isInitialized d = true → DriveSentry.status d = StatusIdle →
   ∀ bt gps,
     DriveSentry.start bt gps r.2 = (Returned, r.2) ∧
     BluetoothListener.isScanning (DriveSentry.bluetoothListener r.2) =
       BluetoothListener.isScanning (DriveSentry.bluetoothListener d)).
Proof.
  intros r. subst r. unfold DriveSentry.handleCarConnected.
  cbn [DriveSentry.status DriveSentry.emit].
  destruct (DriveSentryStatus_eqb (DriveSentry.status d) StatusMonitoring ||
            DriveSentryStatus_eqb (DriveSentry.status d) StatusIdle) eqn:Hc.
  - cbn. repeat (split; [done|]). split; [by apply emittedSince_one|].
    split; [done|]. intros Hinit Hidle bt gps. split; [|done].
    by apply start_not_idle.
  - cbn. repeat (split; [done|]). split; [by apply emittedSince_one|].
    split; [done|]. intros Hinit Hidle. rewrite Hidle in Hc. done.
Qed.

Section OrchestratorInvariants.

(** A location update reaches the session manager through its methods. *)
Lemma handleLocationUpdate_run now rnd l d :
  ∃ ops, DriveSentry.sessionManager
           (DriveSentry.handleLocationUpdate now rnd l d).2 =
         run ops (DriveSentry.sessionManager d).
Proof.
  rewrite handleLocationUpdate_unfold; cbv zeta.
  change (DriveSentry.drivingDetector
            (DriveSentry.emit (LOCATION_UPDATE l) d))
    with (DriveSentry.drivingDetector d).
  destruct (DrivingDetector.processLocation now l _) as [result det].
  destruct (r_state result).
  - by exists [].
  - by exists [].
  - cbn [DriveSentry.status DriveSentry.set_drivingDetector
         DriveSentry.emit DriveSentry.sessionManager].
    destruct (negb _).
    + rewrite handleDrivingDetected_unfold; cbv zeta.
      cbn [DriveSentry.sessionManager DriveSentry.set_drivingDetector
           DriveSentry.emit DriveSentry.set_status
           DriveSentry.bluetoothListener].
      set (trigger := if BluetoothListener.isCarConnected _
                      then _ else _).
      exists [StartSession (SessionManager.generateSessionId now rnd)
                now trigger].
      cbn [run foldl]. unfold step, call.
      by destruct (SessionManager.startSession _ _ _ _) as [[a m']|e].
    + destruct (SessionManager.isSessionActive _); [|by exists []].
      by exists [AddWaypoint l].
  - cbn [DriveSentry.status DriveSentry.set_drivingDetector
         DriveSentry.emit DriveSentry.sessionManager].
    destruct (DriveSentryStatus_eqb _ _); [|by exists []].
    unfold DriveSentry.handleDrivingPaused.
    cbn [DriveSentry.sessionManager DriveSentry.set_drivingDetector
         DriveSentry.emit DriveSentry.set_status].
    exists [PauseSession]. cbn [run foldl]. unfold step, call.
    by destruct (SessionManager.pauseSession _) as [m'|e].
Qed.

(** Every call reaches the session manager through its own methods. *)
Lemma perform_sessionManager c d :
  ∃ ops, DriveSentry.sessionManager (perform c d).2 =
         run ops (DriveSentry.sessionManager d).
Proof.
  destruct c
    as [h|h|bt gps|bt gps|now bt gps|now rnd l|locations|dev|now dev];
    cbn [perform snd].
  - by exists [].
  - by exists [].
  - exists []. unfold DriveSentry.initialize.
    destruct (DriveSentry.isInitialized d); [done|].
    by destruct bt, gps.
  - exists []. unfold DriveSentry.start.
    destruct (negb (DriveSentry.isInitialized d)); [done|].
    destruct (negb _); [done|]. by destruct bt, gps.
  - unfold DriveSentry.stop.
    destruct (SessionManager.isSessionActive _) eqn:Hact.
    + exists [EndSession now TriggerManual].
      cbn [run foldl]. unfold step, call.
      destruct (SessionManager.endSession _ _ _) as [[c m']|e];
        by destruct bt, gps.
    + exists []. by destruct bt, gps.
  - apply handleLocationUpdate_run.
  - rewrite processLocationUpdates_sessionManager.
    revert d. induction locations as [|[[now rnd] l] rest IH]; intros d;
      [by exists []|].
    cbn [DriveSentry.processLocationUpdates_loop].
    destruct (handleLocationUpdate_run now rnd l d) as [ops1 H1].
    rewrite <- handleLocationUpdate_sync_sessionManager in H1.
    destruct (DriveSentry.handleLocationUpdate_sync now rnd l d)
      as [[outcome d1] awaited].
    cbn [fst snd] in H1.
    destruct (IH d1) as [ops2 H2].
    destruct (DriveSentry.processLocationUpdates_loop rest d1)
      as [[outcome' d2] later].
    cbn [fst snd] in H2.
    destruct outcome; cbn [fst snd];
      [exists (ops1 ++ ops2)|by exists ops1|exists (ops1 ++ ops2)];
      unfold run in *; by rewrite foldl_app, <- H1.
  - exists []. unfold DriveSentry.handleCarConnected.
    by destruct (_ || _).
  - unfold DriveSentry.handleCarDisconnected.
    cbn [DriveSentry.status DriveSentry.emit DriveSentry.sessionManager].
    destruct (_ && _); [|by exists []].
    exists [EndSession now (TriggerBluetooth (bd_id dev) (bd_name dev))].
    cbn [run foldl]. unfold step, call.
    by destruct (SessionManager.endSession _ _ _) as [[c m']|e].
Qed.

Lemma performAll_sessionManager calls : ∀ d,
  ∃ ops, DriveSentry.sessionManager (performAll calls d) =
         run ops (DriveSentry.sessionManager d).
Proof.
  induction calls as [|c calls IH]; intros d; [by exists []|].
  destruct (perform_sessionManager c d) as [ops1 H1].
  destruct (IH (perform c d).2) as [ops2 H2].
  exists (ops1 ++ ops2). cbn [performAll foldl] in *.
  unfold performAll in H2. rewrite H2, H1. unfold run. by rewrite foldl_app.
Qed.

Lemma handleDrivingDetected_resume_emitted awaited d :
  DriveSentry.emitted d `prefix_of`
  DriveSentry.emitted (DriveSentry.handleDrivingDetected_resume awaited d).2.
Proof. destruct awaited; cbn; [by apply prefix_app_r|done]. Qed.

Lemma handleLocationUpdate_sync_emitted now rnd l d :
  DriveSentry.emitted d `prefix_of`
  DriveSentry.emitted (DriveSentry.handleLocationUpdate_sync now rnd l d).1.2.
Proof.
  assert (Hemit : ∀ (l k : list (DriveSentryEvent * list nat)) x,
            l `prefix_of` k → l `prefix_of` k ++ [x])
    by (intros l0 k x H; by apply prefix_app_r).
  unfold DriveSentry.handleLocationUpdate_sync; cbv zeta.
  change (DriveSentry.drivingDetector
            (DriveSentry.emit (LOCATION_UPDATE l) d))
    with (DriveSentry.drivingDetector d).
  destruct (DrivingDetector.processLocation now l _) as [result det].
  destruct (r_state result); cbn [DriveSentry.status
    DriveSentry.set_drivingDetector DriveSentry.emit
    DriveSentry.sessionManager]; try (cbn; by auto).
  - destruct (negb _).
    + unfold DriveSentry.handleDrivingDetected_begin; cbv zeta.
      cbn [DriveSentry.sessionManager DriveSentry.set_drivingDetector
           DriveSentry.emit DriveSentry.set_status
           DriveSentry.bluetoothListener].
      destruct (SessionManager.startSession _ _ _ _) as [[a m']|e];
        cbn; auto.
    + destruct (SessionManager.isSessionActive _); cbn; auto.
  - destruct (DriveSentryStatus_eqb _ _); [|cbn; by auto].
    unfold DriveSentry.handleDrivingPaused.
    cbn [DriveSentry.sessionManager DriveSentry.set_drivingDetector
         DriveSentry.emit DriveSentry.set_status].
    destruct (SessionManager.pauseSession _) as [m'|e]; cbn; auto.
Qed.

Lemma resumed_emitted awaited : ∀ d,
  DriveSentry.emitted d `prefix_of`
  DriveSentry.emitted
    (foldl (λ d a, (DriveSentry.handleDrivingDetected_resume a d).2) d awaited).
Proof.
  induction awaited as [|a awaited IH]; intros d; [done|].
  cbn [foldl]. etrans; [|apply IH].
  apply handleDrivingDetected_resume_emitted.
Qed.

Lemma processLocationUpdates_loop_emitted locations : ∀ d,
  DriveSentry.emitted d `prefix_of`
  DriveSentry.emitted (DriveSentry.processLocationUpdates_loop locations d).1.2.
Proof.
  induction locations as [|[[now rnd] l] rest IH]; intros d; [done|].
  cbn [DriveSentry.processLocationUpdates_loop].
  pose proof (handleLocationUpdate_sync_emitted now rnd l d) as H1.
  destruct (DriveSentry.handleLocationUpdate_sync now rnd l d)
    as [[outcome d1] awaited].
  cbn [fst snd] in H1.
  pose proof (IH d1) as H2.
  destruct (DriveSentry.processLocationUpdates_loop rest d1)
    as [[outcome' d2] later].
  cbn [fst snd] in H2.
  destruct outcome; cbn [fst snd]; try done; by etrans.
Qed.

Lemma perform_emitted c d :
  DriveSentry.emitted d `prefix_of` DriveSentry.emitted (perform c d).2.
Proof.
  assert (Hemit : ∀ (l k : list (DriveSentryEvent * list nat)) x,
            l `prefix_of` k → l `prefix_of` k ++ [x])
    by (intros l k x H; by apply prefix_app_r).
  destruct c
    as [h|h|bt gps|bt gps|now bt gps|now rnd l|locations|dev|now dev];
    cbn [perform snd].
  - done.
  - done.
  - unfold DriveSentry.initialize.
    destruct (DriveSentry.isInitialized d); [done|].
    destruct bt, gps; cbn; auto.
  - unfold DriveSentry.start.
    destruct (negb (DriveSentry.isInitialized d)); [done|].
    destruct (negb _); [done|]. destruct bt, gps; cbn; auto.
  - unfold DriveSentry.stop.
    destruct (SessionManager.isSessionActive _);
      [destruct (SessionManager.endSession _ _ _) as [[c m']|e]|];
      destruct bt, gps; cbn; auto.
  - unfold DriveSentry.handleLocationUpdate.
    pose proof (handleLocationUpdate_sync_emitted now rnd l d) as H1.
    destruct (DriveSentry.handleLocationUpdate_sync now rnd l d)
      as [[outcome d1] [awaited|]]; cbn [fst snd] in *; [|done].
    etrans; [done|]. apply handleDrivingDetected_resume_emitted.
  - unfold DriveSentry.processLocationUpdates.
    pose proof (processLocationUpdates_loop_emitted locations d) as H1.
    destruct (DriveSentry.processLocationUpdates_loop locations d)
      as [[outcome d1] awaited]; cbn [fst snd] in *.
    etrans; [done|]. apply resumed_emitted.
  - unfold DriveSentry.handleCarConnected.
    destruct (_ || _); cbn; auto.
  - unfold DriveSentry.handleCarDisconnected.
    cbn [DriveSentry.status DriveSentry.emit DriveSentry.sessionManager].
    destruct (_ && _); [|cbn; by auto].
    destruct (SessionManager.endSession _ _ _) as [[c m']|e]; cbn; auto.
Qed.

End OrchestratorInvariants.

(** X23.  Whatever is asked of the orchestrator, in whatever order
    (subscribing, initializing, starting, stopping, location updates one
    by one or in batches, car connections and disconnections, with feeds
    that work or fail), its session manager never holds more than one
    session that is not completed. *)
Theorem orchestrator_keeps_one_open_session (calls : list Call) :
  (length (nonCompleted
             (DriveSentry.sessionManager
                (performAll calls DriveSentry.init))) ≤ 1)%nat.
Proof.
  destruct (performAll_sessionManager calls DriveSentry.init) as [ops ->].
  apply nonCompleted_at_most_one, onlyCurrentOpen_run, onlyCurrentOpen_init.
Qed.

(** X24.  The record of emitted events only grows: no call removes or
    rewrites an entry.  Subscribing and unsubscribing emit nothing, and
    every location update emits [LOCATION_UPDATE] to the subscribers first,
    whatever it emits after. *)
Theorem emitted_only_grows (calls : list Call) d :
  DriveSentry.emitted d `prefix_of` DriveSentry.emitted (performAll calls d) ∧
  (∀ handler,
     DriveSentry.emitted (DriveSentry.subscribe handler d) =
       DriveSentry.emitted d ∧
     DriveSentry.emitted (DriveSentry.unsubscribe handler d) =
       DriveSentry.emitted d) ∧
  (∀ now rnd location,
     head (emittedSince d
             (DriveSentry.handleLocationUpdate now rnd location d).2) =
     Some (LOCATION_UPDATE location, DriveSentry.eventHandlers d)).
Proof.
  split; [|split; [done|]].
  - revert d. induction calls as [|c calls IH]; intros d; [done|].
    cbn [performAll foldl]. etrans; [apply (perform_emitted c d)|].
    apply IH.
  - intros now rnd location.
    rewrite handleLocationUpdate_unfold. cbv zeta.
    change (DriveSentry.drivingDetector
              (DriveSentry.emit (LOCATION_UPDATE location) d))
      with (DriveSentry.drivingDetector d).
    destruct (DrivingDetector.processLocation now location _)
      as [result det].
    assert (Hhead : ∀ d',
              DriveSentry.emitted d ++
                [(LOCATION_UPDATE location, DriveSentry.eventHandlers d)]
                `prefix_of` DriveSentry.emitted d' →
              head (emittedSince d d') =
              Some (LOCATION_UPDATE location, DriveSentry.eventHandlers d)).
    { intros d' [k Hk]. unfold emittedSince.
      by rewrite Hk, <- app_assoc, drop_app_length. }
    apply Hhead.
    set (d1 := DriveSentry.set_drivingDetector det
                 (DriveSentry.emit (LOCATION_UPDATE location) d)).
    assert (H1 : DriveSentry.emitted d1 =
                 DriveSentry.emitted d ++
                   [(LOCATION_UPDATE location, DriveSentry.eventHandlers d)])
      by done.
    rewrite <- H1.
    destruct (r_state result); try done.
    + destruct (negb _).
      * rewrite handleDrivingDetected_unfold; cbv zeta.
        destruct (SessionManager.startSession _ _ _ _) as [[a m']|e]; cbn.
        -- rewrite <- app_assoc. by apply prefix_app_r.
        -- by apply prefix_app_r.
      * by destruct (SessionManager.isSessionActive _).
    + destruct (DriveSentryStatus_eqb _ _); [|done].
      unfold DriveSentry.handleDrivingPaused.
      destruct (SessionManager.pauseSession _) as [m'|e]; cbn;
        by apply prefix_app_r.
Qed.

(** X25.  When the detector reports [stationary] in status [driving] but
    the session manager holds no session with status [active] (none, or a
    paused one), the handler has already set the status to [paused] and
    emitted [DRIVING_PAUSED] when [pauseSession] throws: it throws
    "No active session to pause" to its caller, the feed keeps its mode and
    the session manager is unchanged; in a batch, the samples after this
    one are not processed. *)
Theorem pause_without_active_session now rnd location d :
  r_state (DrivingDetector.processLocation now location
             (DriveSentry.drivingDetector d)).1 = stationary →
  DriveSentry.status d = StatusDriving →
  statusIsActive (DriveSentry.sessionManager d) = false →
  let r := DriveSentry.handleLocationUpdate now rnd location d in
  r.1 = Thrown "No active session to pause" ∧
  DriveSentry.status r.2 = StatusPaused ∧
  DriveSentry.sessionManager r.2 = DriveSentry.sessionManager d ∧
  DriveSentry.gpsListener r.2 = DriveSentry.gpsListener d ∧
  (emittedSince d r.2).*1 = [LOCATION_UPDATE location; DRIVING_PAUSED] ∧
  ∀ rest,
    DriveSentry.processLocationUpdates ((now, rnd, location) :: rest) d = r.
Proof.
  intros Hdet Hst Hna r.
  assert (Hpause : SessionManager.pauseSession (DriveSentry.sessionManager d) =
                   Err "No active session to pause").
  { unfold statusIsActive, SessionManager.getCurrentSession in Hna.
    unfold SessionManager.pauseSession.
    destruct (SessionManager.current _) as [s|]; [|done]. by rewrite Hna. }
  assert (Hr : r = (Thrown "No active session to pause",
                    DriveSentry.emit DRIVING_PAUSED
                      (DriveSentry.set_status StatusPaused
                         (DriveSentry.set_drivingDetector
                            (DrivingDetector.processLocation now location
                               (DriveSentry.drivingDetector d)).2
                            (DriveSentry.emit (LOCATION_UPDATE location) d))))).
  { subst r. rewrite handleLocationUpdate_unfold; cbv zeta.
    change (DriveSentry.drivingDetector
              (DriveSentry.emit (LOCATION_UPDATE location) d))
      with (DriveSentry.drivingDetector d).
    destruct (DrivingDetector.processLocation now location _)
      as [result detector]. cbn in Hdet. rewrite Hdet.
    cbn [DriveSentry.status DriveSentry.set_drivingDetector DriveSentry.emit].
    rewrite Hst. cbn [DriveSentryStatus_eqb].
    unfold DriveSentry.handleDrivingPaused.
    cbn [DriveSentry.sessionManager DriveSentry.set_drivingDetector
         DriveSentry.emit DriveSentry.set_status].
    by rewrite Hpause. }
  split; [by rewrite Hr|]. split; [by rewrite Hr|].
  split; [by rewrite Hr|]. split; [by rewrite Hr|]. split.
  - rewrite Hr. unfold emittedSince. cbn.
    by rewrite <- app_assoc, drop_app_length.
  - intros rest. unfold DriveSentry.processLocationUpdates.
    cbn [DriveSentry.processLocationUpdates_loop].
    rewrite (handleLocationUpdate_sync_thrown _ _ _ _
               "No active session to pause")
      by (fold r; by rewrite Hr).
    fold r. by rewrite Hr.
Qed.

(** The trip that was paused at 190 s and moved again at 195 s (status
    [driving], session still paused) comes to rest once more: at 316 s the
    handler throws. *)
Lemma pause_without_active_session_witness :
  let d :=
    (DriveSentry.processLocationUpdates
       (batch [sample 195000 6; sample 196000 0; sample 250000 0])
       pausedTrip).2 in
  let r := DriveSentry.handleLocationUpdate 316000 "r4nd0m" (sample 316000 0) d in
  r.1 = Thrown "No active session to pause" ∧
  DriveSentry.status r.2 = StatusPaused ∧
  (emittedSince d r.2).*1 =
    [LOCATION_UPDATE (sample 316000 0); DRIVING_PAUSED].
Proof.
  intros d r.
  destruct (pause_without_active_session 316000 "r4nd0m" (sample 316000 0) d)
    as (H1 & H2 & _ & _ & H5 & _);
    [vm_compute; reflexivity | vm_compute; reflexivity
    | vm_compute; reflexivity |].
  exact (conj H1 (conj H2 H5)).
Defined.

Lemma filter_all {A} (P : A → Prop) `{∀ x, Decision (P x)} (l : list A) :
  (∀ x, x ∈ l → P x) → filter P l = l.
Proof.
  induction l as [|x l IH]; intros Hall; [done|].
  rewrite filter_cons_True by (apply Hall; left).
  f_equal. apply IH. intros y Hy. apply Hall. by right.
Qed.

(** X26.  The subscribers form a set.  Subscribing a handler twice is
    subscribing it once; unsubscribing a handler that was subscribed while
    absent gives back the orchestrator as it was; a list of subscribers
    without repetition stays so; and an event emitted after a handler is
    unsubscribed is not delivered to it. *)
Theorem subscribers_form_a_set handler d :
  DriveSentry.subscribe handler (DriveSentry.subscribe handler d) =
    DriveSentry.subscribe handler d ∧
  handler ∈ DriveSentry.eventHandlers (DriveSentry.subscribe handler d) ∧
  (handler ∉ DriveSentry.eventHandlers (DriveSentry.unsubscribe handler d)) ∧
  (handler ∉ DriveSentry.eventHandlers d →
   DriveSentry.unsubscribe handler (DriveSentry.subscribe handler d) = d) ∧
  (NoDup (DriveSentry.eventHandlers d) →
   NoDup (DriveSentry.eventHandlers (DriveSentry.subscribe handler d)) ∧
   NoDup (DriveSentry.eventHandlers (DriveSentry.unsubscribe handler d))) ∧
  (∀ event entry,
     entry ∈ emittedSince d
               (DriveSentry.emit event (DriveSentry.unsubscribe handler d)) →
     entry.1 = event ∧ (handler ∉ entry.2) ∧
     ∀ other, other ≠ handler →
       (other ∈ entry.2 ↔ other ∈ DriveSentry.eventHandlers d)).
Proof.
  destruct d as [bt gps det cm sm st hs ini log].
  unfold DriveSentry.subscribe, DriveSentry.unsubscribe, DriveSentry.emit,
    emittedSince. cbn.
  assert (Hfilter : handler ∉ filter (λ h, h ≠ handler) hs).
  { intros [H _]%list_elem_of_filter. done. }
  split; [|split; [|split; [done|split; [|split]]]].
  - destruct (bool_decide (handler ∈ hs)) eqn:E; cbn.
    + by rewrite E.
    + rewrite bool_decide_eq_true_2; [done|].
      apply elem_of_app. right. by left.
  - destruct (bool_decide (handler ∈ hs)) eqn:E.
    + by apply bool_decide_eq_true in E.
    + apply elem_of_app. right. by left.
  - intros Hnot. rewrite bool_decide_eq_false_2 by done.
    rewrite filter_app, filter_cons_False, filter_nil, app_nil_r
      by (intros H; by apply H).
    rewrite filter_all; [done|]. intros x Hx ->. done.
  - intros Hnd. split; [|by apply NoDup_filter].
    destruct (bool_decide (handler ∈ hs)) eqn:E; [done|].
    apply bool_decide_eq_false in E. apply NoDup_app.
    split; [done|]. split; [|apply NoDup_singleton].
    intros x Hx ->%list_elem_of_singleton. done.
  - intros event entry. rewrite drop_app_length.
    intros ->%list_elem_of_singleton. cbn. split; [done|]. split; [done|].
    intros other Hne. rewrite list_elem_of_filter.
    split; [by intros [_ ?] | by intros ?].
Qed.

(** X27.  Recording.  In status [driving] with an active session, a
    sample on which the detector reports [driving] is appended as one
    waypoint, numbered one more than the waypoints before it, and nothing
    else happens: only [LOCATION_UPDATE] is emitted, and the status, the
    feed and the session's status stay as they are.  The detector keeps
    reporting [driving] during a stop shorter than [maxStationaryTime], so
    the samples of such a stop are recorded as well. *)
Theorem recording_while_driving now rnd location d :
  r_state (DrivingDetector.processLocation now location
             (DriveSentry.drivingDetector d)).1 = driving →
  DriveSentry.status d = StatusDriving →
  statusIsActive (DriveSentry.sessionManager d) = true →
  let r := DriveSentry.handleLocationUpdate now rnd location d in
  r.1 = Returned ∧
  DriveSentry.status r.2 = StatusDriving ∧
  DriveSentry.gpsListener r.2 = DriveSentry.gpsListener d ∧
  emittedSince d r.2 =
    [(LOCATION_UPDATE location, DriveSentry.eventHandlers d)] ∧
  statusIsActive (DriveSentry.sessionManager r.2) = true ∧
  ∃ w,
    SessionManager.waypoints (DriveSentry.sessionManager r.2) =
      SessionManager.waypoints (DriveSentry.sessionManager d) ++ [w] ∧
    wp_location w = location ∧
    wp_id w =
      S (length (SessionManager.waypoints (DriveSentry.sessionManager d))).
Proof.
  intros Hdet Hst Hact r. subst r.
  apply statusIsActive_true in Hact as (s & Hs & Ha).
  rewrite handleLocationUpdate_unfold. cbv zeta.
  change (DriveSentry.drivingDetector
            (DriveSentry.emit (LOCATION_UPDATE location) d))
    with (DriveSentry.drivingDetector d).
  destruct (DrivingDetector.processLocation now location _)
    as [result detector]. cbn in Hdet. rewrite Hdet.
  cbn [DriveSentry.status DriveSentry.set_drivingDetector DriveSentry.emit
       DriveSentry.sessionManager].
  rewrite Hst. cbn [DriveSentryStatus_eqb negb].
  assert (SessionManager.isSessionActive (DriveSentry.sessionManager d) = true)
    as -> by (apply isSessionActive_true; exists s; by rewrite Ha).
  cbn [fst snd DriveSentry.status DriveSentry.set_sessionManager
       DriveSentry.gpsListener DriveSentry.sessionManager].
  split; [done|]. split; [done|]. split; [done|].
  split; [by apply emittedSince_one|].
  rewrite (addWaypoint_active _ _ s) by done.
  split.
  - apply statusIsActive_true. eexists. rewrite current_mutate.
    change (SessionManager.current (SessionManager.mk _ _ _))
      with (SessionManager.current (DriveSentry.sessionManager d)).
    rewrite Hs. split; [done|]. cbn. done.
  - rewrite waypoints_mutate. cbn. eexists. split; [done|]. cbn.
    split; [done|]. lia.
Qed.

(** The stop at 70 s of the trip driven since 61 s: the sample at rest
    is recorded as the second waypoint. *)
Lemma recording_while_driving_witness :
  let r := DriveSentry.handleLocationUpdate 70000 "r4nd0m" (sample 70000 0)
             drivingTrip in
  r.1 = Returned ∧
  DriveSentry.status r.2 = StatusDriving ∧
  ∃ w,
    SessionManager.waypoints (DriveSentry.sessionManager r.2) =
      SessionManager.waypoints (DriveSentry.sessionManager drivingTrip) ++ [w] ∧
    wp_location w = sample 70000 0 ∧
    wp_id w =
      S (length (SessionManager.waypoints
                   (DriveSentry.sessionManager drivingTrip))).
Proof.
  intros r.
  destruct (recording_while_driving 70000 "r4nd0m" (sample 70000 0) drivingTrip)
    as (H1 & H2 & _ & _ & _ & H6);
    [vm_compute; reflexivity | vm_compute; reflexivity
    | vm_compute; reflexivity |].
  exact (conj H1 (conj H2 H6)).
Defined.

Section LocationUpdates.

Lemma handleLocationUpdate_status now rnd location d :
  let r := DriveSentry.handleLocationUpdate now rnd location d in
  DriveSentry.status r.2 = DriveSentry.status d ∨
  DriveSentry.status r.2 = StatusDriving ∨
  (DriveSentry.status r.2 = StatusPaused ∧
   DriveSentry.status d = StatusDriving).
Proof.
  intros r. subst r. rewrite handleLocationUpdate_unfold; cbv zeta.
  change (DriveSentry.drivingDetector
            (DriveSentry.emit (LOCATION_UPDATE location) d))
    with (DriveSentry.drivingDetector d).
  destruct (DrivingDetector.processLocation now location _)
    as [result detector].
  destruct (r_state result);
    cbn [DriveSentry.status DriveSentry.set_drivingDetector
         DriveSentry.emit DriveSentry.sessionManager]; try by left.
  - destruct (negb _).
    + rewrite handleDrivingDetected_unfold; cbv zeta.
      destruct (SessionManager.startSession _ _ _ _) as [[a m']|e];
        right; by left.
    + destruct (SessionManager.isSessionActive _); by left.
  - destruct (DriveSentryStatus_eqb (DriveSentry.status d) StatusDriving)
      eqn:E; [|by left].
    apply DriveSentryStatus_eqb_true in E.
    unfold DriveSentry.handleDrivingPaused.
    destruct (SessionManager.pauseSession _) as [m'|e]; right; right; done.
Qed.

Lemma handleLocationUpdate_keeps_session now rnd location d :
  SessionManager.isSessionActive (DriveSentry.sessionManager d) = true →
  SessionManager.isSessionActive
    (DriveSentry.sessionManager
       (DriveSentry.handleLocationUpdate now rnd location d).2) = true ∧
  SessionManager.currentSession
    (DriveSentry.sessionManager
       (DriveSentry.handleLocationUpdate now rnd location d).2) =
  SessionManager.currentSession (DriveSentry.sessionManager d).
Proof.
  intros Hact.
  pose proof Hact as Hact'.
  apply isSessionActive_true in Hact' as (s & Hs & Hopen).
  rewrite handleLocationUpdate_unfold. cbv zeta.
  change (DriveSentry.drivingDetector
            (DriveSentry.emit (LOCATION_UPDATE location) d))
    with (DriveSentry.drivingDetector d).
  destruct (DrivingDetector.processLocation now location _)
    as [result detector].
  destruct (r_state result);
    cbn [DriveSentry.status DriveSentry.set_drivingDetector
         DriveSentry.emit DriveSentry.sessionManager]; try done.
  - destruct (negb _).
    + rewrite handleDrivingDetected_unfold; cbv zeta.
      cbn [DriveSentry.sessionManager DriveSentry.set_drivingDetector
           DriveSentry.emit DriveSentry.set_status].
      by rewrite startSession_busy.
    + rewrite Hact. cbn [snd DriveSentry.set_sessionManager
                          DriveSentry.sessionManager].
      split.
      * apply (isSessionActive_step _ (AddWaypoint location)); done.
      * by destruct (step_frame _ (AddWaypoint location) s Hs Hopen eq_refl)
          as (H & _).
  - destruct (DriveSentryStatus_eqb _ _); [|done].
    unfold DriveSentry.handleDrivingPaused.
    cbn [DriveSentry.sessionManager DriveSentry.set_drivingDetector
         DriveSentry.emit DriveSentry.set_status].
    pose proof (isSessionActive_step _ PauseSession Hact eq_refl) as H1.
    destruct (step_frame _ PauseSession s Hs Hopen eq_refl) as (H2 & _).
    unfold step, call in H1, H2.
    by destruct (SessionManager.pauseSession _) as [m'|e].
Qed.

Lemma processLocationUpdates_loop_keeps_session samples : ∀ d,
  SessionManager.isSessionActive (DriveSentry.sessionManager d) = true →
  SessionManager.isSessionActive
    (DriveSentry.sessionManager
       (DriveSentry.processLocationUpdates_loop samples d).1.2) = true ∧
  SessionManager.currentSession
    (DriveSentry.sessionManager
       (DriveSentry.processLocationUpdates_loop samples d).1.2) =
  SessionManager.currentSession (DriveSentry.sessionManager d).
Proof.
  induction samples as [|[[now rnd] location] rest IH]; intros d Hact; [done|].
  cbn [DriveSentry.processLocationUpdates_loop].
  destruct (handleLocationUpdate_keeps_session now rnd location d Hact)
    as [H1 H2].
  rewrite <- handleLocationUpdate_sync_sessionManager in H1, H2.
  destruct (DriveSentry.handleLocationUpdate_sync now rnd location d)
    as [[outcome d1] awaited].
  cbn [fst snd] in H1, H2.
  destruct (IH d1 H1) as [H3 H4].
  destruct (DriveSentry.processLocationUpdates_loop rest d1)
    as [[outcome' d2] later].
  cbn [fst snd] in H3, H4.
  destruct outcome; cbn [fst snd]; split; congruence.
Qed.

End LocationUpdates.

(** X28.  Location updates never end a session and never leave the
    driving part of the status machine.  After any batch of samples, a
    session that was open is still the current one and still not completed
    (nothing ends it after a time at rest); and a single update leaves the
    status as it was, or sets it to [driving], or, from [driving] only, to
    [paused]. *)
Theorem location_updates_never_end_a_session
    (samples : list (Z * string * LocationData)) d :
  (SessionManager.isSessionActive (DriveSentry.sessionManager d) = true →
   SessionManager.isSessionActive
     (DriveSentry.sessionManager
        (DriveSentry.processLocationUpdates samples d).2) = true ∧
   SessionManager.currentSession
     (DriveSentry.sessionManager
        (DriveSentry.processLocationUpdates samples d).2) =
   SessionManager.currentSession (DriveSentry.sessionManager d)) ∧
  (∀ now rnd location,
     let r := DriveSentry.handleLocationUpdate now rnd location d in
     DriveSentry.status r.2 = DriveSentry.status d ∨
     DriveSentry.status r.2 = StatusDriving ∨
     (DriveSentry.status r.2 = StatusPaused ∧
      DriveSentry.status d = StatusDriving)).
Proof.
  split; [|intros now rnd location; apply handleLocationUpdate_status].
  intros Hact.
  rewrite processLocationUpdates_sessionManager.
  by apply processLocationUpdates_loop_keeps_session.
Qed.

(** What follows the [await] of [handleDrivingDetected] comes after the
    batch.  Driving is detected at the second sample of this batch and the
    trip is paused at the fourth: [SESSION_STARTED] is emitted last, after
    [DRIVING_PAUSED], and the feed, set to paused mode by the pause, ends
    in driving mode with the status [paused]. *)
Example batch_defers_what_follows_the_await :
  let r :=
    DriveSentry.processLocationUpdates
      (batch [sample 1000 6; sample 61000 6; sample 62000 0; sample 190000 0])
      monitoring in
  r.1 = Returned ∧
  (emittedSince monitoring r.2).*1 =
    [LOCATION_UPDATE (sample 1000 6); LOCATION_UPDATE (sample 61000 6);
     DRIVING_DETECTED; LOCATION_UPDATE (sample 62000 0);
     LOCATION_UPDATE (sample 190000 0); DRIVING_PAUSED; SESSION_STARTED 0] ∧
  DriveSentry.status r.2 = StatusPaused ∧
  GPSListener.currentMode (DriveSentry.gpsListener r.2) = ModeDriving.
Proof. vm_compute. by repeat split. Qed.
